(** * Mailbox-to-spreadsheet pipeline: a shallow embedding

    The development follows the Python sources:
    - [src/utils/stats.py]     the three counters ([ProcessingStats]);
    - [src/excel_manager.py]   the tabular store ([ExcelManager]);
    - [src/imap/handler.py]    the mailbox client ([IMAPHandler]);
    - [src/lm_studio_client.py] the analysis client ([LMStudioClient]);
    - [main.py]                configuration loading, the orchestrator
                               ([process_emails]) and [main].

    Python code that mutates shared objects and raises exceptions is
    written in a state-and-exception monad [M] over a [World] record.
    A raised exception keeps every mutation made before it, as in Python. *)

From stdpp Require Import base option list gmap strings fin_maps.
From Stdlib Require Import ZArith Lia.

Local Open Scope Z_scope.
Local Open Scope string_scope.

(* ===================================================================== *)
(** * Python values, exceptions and results                              *)
(* ===================================================================== *)

(** The dynamically typed values the pipeline passes around in message
    dictionaries: [None], booleans and strings. *)
Inductive PyVal :=
| PNone
| PBool (b : bool)
| PStr (s : string).

Set Warnings "-register-all".

#[global] Instance PyVal_eq_dec : EqDecision PyVal.
Proof. solve_decision. Defined.

(** A [dict] with string keys. *)
Abbreviation Dict := (gmap string PyVal).

(** Python truthiness, used by [if message.get("processed")]. *)
Definition truthy (v : PyVal) : bool :=
  match v with
  | PNone => false
  | PBool b => b
  | PStr s => negb (bool_decide (s = ""))
  end.

(** Instances of Python's [Exception] that the code raises or lets
    through.  [OtherException] stands for any further subclass (for
    instance [requests.exceptions.RequestException], [imaplib.IMAP4.error],
    [OSError]). *)
Inductive exn :=
| AttributeError (name : string)
| KeyError (key : string)
| TypeError (what : string)
| ValueError (what : string)
| FileNotFoundError (path : string)
| YAMLError
| OtherException (name : string).

#[global] Instance exn_eq_dec : EqDecision exn.
Proof. solve_decision. Defined.

Definition is_FileNotFoundError (e : exn) : bool :=
  match e with FileNotFoundError _ => true | _ => false end.

Inductive Result (A : Type) :=
| Ok (a : A)
| Raise (e : exn).
Arguments Ok {A} a.
Arguments Raise {A} e.

Definition is_Ok {A} (r : Result A) : bool :=
  match r with Ok _ => true | Raise _ => false end.

(** [d[k]] on a dictionary. *)
Definition getitem {V} (d : gmap string V) (k : string) : Result V :=
  match d !! k with
  | Some v => Ok v
  | None => Raise (KeyError k)
  end.

(* ===================================================================== *)
(** * Strings: [str.lower] and the [in] operator                         *)
(* ===================================================================== *)

(** A string holds the text of a [str] in UTF-8; text is ASCII when
    every byte is below 128. *)
Fixpoint is_ascii (s : string) : bool :=
  match s with
  | EmptyString => true
  | String c s' => Nat.ltb (Ascii.nat_of_ascii c) 128 && is_ascii s'
  end.

(** What [str.lower] does to ASCII text: the letters A-Z are folded,
    every other character is kept. *)
Definition lower_ascii (c : Ascii.ascii) : Ascii.ascii :=
  let n := Ascii.nat_of_ascii c in
  if (Nat.leb 65 n && Nat.leb n 90)%bool then Ascii.ascii_of_nat (n + 32) else c.

Fixpoint lower_A_Z (s : string) : string :=
  match s with
  | EmptyString => EmptyString
  | String c s' => String (lower_ascii c) (lower_A_Z s')
  end.

(** [str.lower] itself follows the Unicode case mapping of the
    interpreter (it lowers [Ä], [Σ], [İ] and so on).  The development
    does not spell that table out: [lower] is any function that agrees
    with [lower_A_Z] on ASCII text, and every statement below holds for
    each such function, so for the interpreter's. *)
Class StrLower := {
  lower : string → string;
  lower_ascii_text : ∀ s, is_ascii s = true → lower s = lower_A_Z s }.

(** The function used to run the sample inputs, which are ASCII text. *)
Definition lower_A_Z_only : StrLower :=
  {| lower := lower_A_Z; lower_ascii_text := λ _ _, eq_refl |}.

(** [needle in hay] for strings. *)
Fixpoint contains (needle hay : string) : bool :=
  if String.prefix needle hay then true
  else match hay with
       | EmptyString => false
       | String _ hay' => contains needle hay'
       end.

(** [str(v)] as used inside f-strings and by [str(part.get(...))]. *)
Definition py_str (v : PyVal) : string :=
  match v with
  | PNone => "None"
  | PBool true => "True"
  | PBool false => "False"
  | PStr s => s
  end.

(* ===================================================================== *)
(** * [src/utils/stats.py]                                               *)
(* ===================================================================== *)

Record ProcessingStats := {
  processed_emails : Z;
  updated_rows : Z;
  errors : Z }.

(** [ProcessingStats.__init__] *)
Definition ProcessingStats_init : ProcessingStats :=
  {| processed_emails := 0; updated_rows := 0; errors := 0 |}.

(* ===================================================================== *)
(** * Tables, threads, log lines and the call trace                      *)
(* ===================================================================== *)

(** A [DataFrame] of [str] cells (the workbook is read with
    [dtype=str]): the header and the rows, a row mapping a column label
    to its cell.  The row label is the position (pandas' default
    [RangeIndex]).  On disk the same shape holds the cell texts of the
    sheet. *)
Record DataFrame := {
  df_columns : list string;
  df_rows : list (gmap string string) }.

(** A thread dictionary as [process_emails] reads it: [thread["messages"]]
    and [thread.get("context")]; [None] is an absent key. *)
Record Thread := {
  th_messages : option (list Dict);
  th_context : option PyVal }.

Inductive Level := INFO | WARNING | ERROR | CRITICAL.

(** The formatted log lines, kept structured (one constructor per
    f-string of the sources). *)
Inductive LogMsg :=
| NoMatchingRow (email : PyVal)
| UpdatedRow (index : nat) (target_column old_value new_value : string)
| FailedUpdate (email : PyVal) (e : exn)
| ExcelFound (path : string)
| StructureValid
| LoadedRows (n : nat)
| FailedLoad (e : exn)
| ExcelSaved (path : string)
| FailedSave (e : exn)
| DeletedOldBackup (name : string)
| NoSentEmails
| FailedFetch (email_id : string)
| FetchedSent (n : nat)
| ErrorFetchingSent (e : exn)
| NoReplies (sent_id : PyVal)
| FailedFetchReply (email_id : string)
| FoundReplies (n : nat) (sent_id : PyVal)
| ErrorFetchingReplies (e : exn)
| FailedParse (email_id : string) (e : exn)
| FailedBody (e : exn)
| LoggingInitialized
| StartingProcessing
| ProcessingAsUser
| AnalysisFailed (err : string)
| ErrorDuringProcessing (e : exn)
| ProcessingCompleted
| CriticalError (e : exn)
| UnexpectedError (e : exn).

(** What a run does that an observer can see: log lines, and the calls
    that reach the analysis service, the table, the mail server, the
    disk and the console. *)
Inductive Event :=
| EvLog (lvl : Level) (m : LogMsg)
| EvAnalyzeEmail (email_body : PyVal) (context : option PyVal)
| EvUpdateData (email : PyVal)
| EvMarkAsRead (message_id : PyVal)
| EvSaveData
| EvLogSummary (s : ProcessingStats).

#[global] Instance ProcessingStats_eq_dec : EqDecision ProcessingStats.
Proof. solve_decision. Defined.
#[global] Instance Level_eq_dec : EqDecision Level.
Proof. solve_decision. Defined.
#[global] Instance LogMsg_eq_dec : EqDecision LogMsg.
Proof. solve_decision. Defined.
#[global] Instance Event_eq_dec : EqDecision Event.
Proof. solve_decision. Defined.

Definition is_save (ev : Event) : bool :=
  match ev with EvSaveData => true | _ => false end.

(* ===================================================================== *)
(** * The world and the monad                                            *)
(* ===================================================================== *)

(** Everything the objects of a run share.  [stats] is the single
    [ProcessingStats] object handed to every component; [data] is
    [excel_manager.data] ([None] until [load_data]); [disk] maps a path
    to the workbook stored there; [ext] is the state of the services the
    process talks to. *)
Record World {Ext : Type} := {
  stats : ProcessingStats;
  data : option DataFrame;
  disk : gmap string DataFrame;
  trace : list Event;
  ext : Ext }.
Arguments World Ext : clear implicits.

Definition M (Ext A : Type) : Type := World Ext → Result A * World Ext.

Section Monad.
Context {Ext : Type}.

Definition ret {A} (a : A) : M Ext A := λ w, (Ok a, w).

Definition raise {A} (e : exn) : M Ext A := λ w, (Raise e, w).

Definition bind {A B} (m : M Ext A) (k : A → M Ext B) : M Ext B :=
  λ w, match m w with
       | (Ok a, w') => k a w'
       | (Raise e, w') => (Raise e, w')
       end.

(** [try: body  except Exception as e: handler(e)] *)
Definition try_except {A} (body : M Ext A) (handler : exn → M Ext A) : M Ext A :=
  λ w, match body w with
       | (Ok a, w') => (Ok a, w')
       | (Raise e, w') => handler e w'
       end.

Definition lift {A} (r : Result A) : M Ext A := λ w, (r, w).

(** [for x in xs: body(x)]; an exception leaves the loop. *)
Fixpoint for_each {A} (xs : list A) (body : A → M Ext unit) : M Ext unit :=
  match xs with
  | [] => ret ()
  | x :: xs' => bind (body x) (λ _, for_each xs' body)
  end.

Definition emit (ev : Event) : M Ext unit :=
  λ w, (Ok (), {| stats := stats w; data := data w; disk := disk w;
                  trace := trace w ++ [ev]; ext := ext w |}).

Definition log (lvl : Level) (m : LogMsg) : M Ext unit := emit (EvLog lvl m).

Definition set_stats (s : ProcessingStats) (w : World Ext) : World Ext :=
  {| stats := s; data := data w; disk := disk w; trace := trace w; ext := ext w |}.

Definition set_data (d : option DataFrame) (w : World Ext) : World Ext :=
  {| stats := stats w; data := d; disk := disk w; trace := trace w; ext := ext w |}.

Definition set_disk (d : gmap string DataFrame) (w : World Ext) : World Ext :=
  {| stats := stats w; data := data w; disk := d; trace := trace w; ext := ext w |}.

(** [stats.processed_emails += 1] *)
Definition incr_processed_emails : M Ext unit :=
  λ w, (Ok (), set_stats {| processed_emails := processed_emails (stats w) + 1;
                            updated_rows := updated_rows (stats w);
                            errors := errors (stats w) |} w).

(** [stats.updated_rows += n] *)
Definition add_updated_rows (n : Z) : M Ext unit :=
  λ w, (Ok (), set_stats {| processed_emails := processed_emails (stats w);
                            updated_rows := updated_rows (stats w) + n;
                            errors := errors (stats w) |} w).

(** [stats.errors += 1] *)
Definition incr_errors : M Ext unit :=
  λ w, (Ok (), set_stats {| processed_emails := processed_emails (stats w);
                            updated_rows := updated_rows (stats w);
                            errors := errors (stats w) + 1 |} w).
End Monad.

Notation "x ←ₘ m ; k" := (bind m (λ x, k))
  (at level 100, m at next level, right associativity, only parsing).
Notation "m ;;ₘ k" := (bind m (λ _, k))
  (at level 100, right associativity, only parsing).

(* ===================================================================== *)
(** * [src/excel_manager.py]                                             *)
(* ===================================================================== *)

(** The attributes [ExcelManager.__init__] sets from the configuration
    ([self.data] lives in the world).  [columns] maps a logical field
    name to a column header; [target_columns] lists the fields an
    analysis result may overwrite. *)
Record ExcelManager := {
  file_path : string;
  backup_enabled : bool;
  backup_keep_days : Z;
  columns : gmap string string;
  target_columns : list string }.

(** [email.lower()]: only a [str] has the method. *)
Definition str_lower {the_lower : StrLower} (v : PyVal) : Result string :=
  match v with
  | PStr s => Ok (lower s)
  | _ => Raise (AttributeError "lower")
  end.

(** [df[col].str.lower() == key], as the list of row labels where the
    mask is true, scanning from label [i]. *)
Fixpoint matching_from {the_lower : StrLower} (i : nat) (rows : list (gmap string string))
    (col key : string) : list nat :=
  match rows with
  | [] => []
  | r :: rows' =>
      if bool_decide (lower <$> r !! col = Some key)
      then i :: matching_from (S i) rows' col key
      else matching_from (S i) rows' col key
  end.

Definition matching_rows {the_lower : StrLower} (df : DataFrame) (col key : string) : list nat :=
  matching_from 0 (df_rows df) col key.

(** [df.at[index, col]] read. *)
Definition at_get (df : DataFrame) (index : nat) (col : string) : Result string :=
  if decide (col ∈ df_columns df) then
    match df_rows df !! index with
    | Some r => getitem r col
    | None => Raise (KeyError "index")
    end
  else Raise (KeyError col).

(** [df.at[index, col] = v] on an existing cell. *)
Definition at_set (df : DataFrame) (index : nat) (col v : string) : DataFrame :=
  {| df_columns := df_columns df;
     df_rows := alter (<[col := v]>) index (df_rows df) |}.

(** The cell texts [pd.read_excel] reads as missing, also with
    [dtype=str]: its default [na_values] (pandas 2), the empty cell
    among them. *)
Definition na_values : list string :=
  [""; "#N/A"; "#N/A N/A"; "#NA"; "-1.#IND"; "-1.#QNAN"; "-NaN"; "-nan";
   "1.#IND"; "1.#QNAN"; "<NA>"; "N/A"; "NA"; "NULL"; "NaN"; "None";
   "n/a"; "nan"; "null"].

(** [.fillna("")] after such a read: a missing cell becomes the empty
    string, every other cell keeps its text. *)
Definition fillna (df : DataFrame) : DataFrame :=
  {| df_columns := df_columns df;
     df_rows := fmap (M:=list) (fmap (λ c : string, if decide (c ∈ na_values) then "" else c))
                  (df_rows df) |}.

Section Excel.
Context {the_lower : StrLower} {Ext : Type}.
Variable self : ExcelManager.

(** [self.data[col]]: the frame must be loaded and have the column. *)
Definition data_getitem (col : string) : M Ext DataFrame :=
  λ w, match data w with
       | None => (Raise (TypeError "'NoneType' object is not subscriptable"), w)
       | Some df =>
           if decide (col ∈ df_columns df) then (Ok df, w)
           else (Raise (KeyError col), w)
       end.

(** [self.data.at[index, col]] read. *)
Definition data_at (index : nat) (col : string) : M Ext string :=
  λ w, match data w with
       | None => (Raise (AttributeError "at"), w)
       | Some df => (at_get df index col, w)
       end.

(** [self.data.at[index, col] = v] *)
Definition data_at_set (index : nat) (col v : string) : M Ext unit :=
  λ w, match data w with
       | None => (Raise (AttributeError "at"), w)
       | Some df => (Ok (), set_data (Some (at_set df index col v)) w)
       end.

(** Lines 76-83: the body of the inner loop of [update_data]. *)
Definition update_cell (analysis_results : gmap string string)
    (index : nat) (target_column : string) : M Ext unit :=
  match analysis_results !! target_column with
  | None => ret ()
  | Some new_value =>
      col ←ₘ lift (getitem (columns self) target_column);
      old_value ←ₘ data_at index col;
      if decide (old_value ≠ new_value) then
        data_at_set index col new_value ;;ₘ
        log INFO (UpdatedRow index target_column old_value new_value)
      else ret ()
  end.

(** Lines 67-85: the [try] block of [update_data]. *)
Definition update_data_try (email : PyVal)
    (analysis_results : gmap string string) : M Ext unit :=
  mail ←ₘ lift (getitem (columns self) "mail");
  df ←ₘ data_getitem mail;
  key ←ₘ lift (str_lower email);
  let matching := matching_rows df mail key in
  match matching with
  | [] => log WARNING (NoMatchingRow email)
  | _ =>
      for_each matching (λ index,
        for_each (target_columns self) (update_cell analysis_results index)) ;;ₘ
      add_updated_rows (Z.of_nat (length matching))
  end.

(** [ExcelManager.update_data] *)
Definition update_data (email : PyVal) (thread_data : Thread)
    (analysis_results : gmap string string) : M Ext unit :=
  emit (EvUpdateData email) ;;ₘ
  try_except (update_data_try email analysis_results)
    (λ e, log ERROR (FailedUpdate email e) ;;ₘ incr_errors ;;ₘ raise e).

(** [ExcelManager.check_structure]: the file must exist and its header
    must hold every configured column. *)
Definition check_structure : M Ext unit :=
  λ w, match disk w !! file_path self with
       | None => (Raise (FileNotFoundError (file_path self)), w)
       | Some file =>
           (log INFO (ExcelFound (file_path self)) ;;ₘ
            let missing_columns :=
              filter (λ c, c ∉ df_columns file) (map_to_list (columns self)).*2 in
            match missing_columns with
            | [] => log INFO StructureValid
            | _ => raise (ValueError "Missing required columns in Excel file")
            end) w
       end.

(** [pd.read_excel(self.file_path, dtype=str).fillna("")]: the frame
    on disk with its missing cells emptied. *)
Definition read_excel : M Ext DataFrame :=
  λ w, match disk w !! file_path self with
       | None => (Raise (FileNotFoundError (file_path self)), w)
       | Some file => (Ok (fillna file), w)
       end.

(** [ExcelManager.load_data] *)
Definition load_data : M Ext unit :=
  try_except
    (df ←ₘ read_excel;
     (λ w, (Ok (), set_data (Some df) w)) ;;ₘ
     log INFO (LoadedRows (length (df_rows df))))
    (λ e, log ERROR (FailedLoad e) ;;ₘ raise e).

(** [self.data.to_excel(self.file_path, index=False)] *)
Definition to_excel : M Ext unit :=
  λ w, match data w with
       | None => (Raise (AttributeError "to_excel"), w)
       | Some df => (Ok (), set_disk (<[file_path self := df]> (disk w)) w)
       end.

(** [ExcelManager.save_data] *)
Definition save_data : M Ext unit :=
  emit EvSaveData ;;ₘ
  try_except
    (to_excel ;;ₘ log INFO (ExcelSaved (file_path self)))
    (λ e, log ERROR (FailedSave e) ;;ₘ raise e).
End Excel.

(** ** Backup rotation *)

(** An entry of the backup folder as [iterdir] yields it.  [entry_mtime]
    is [datetime.fromtimestamp(stat().st_mtime)], counted in microseconds
    (the resolution of [datetime]). *)
Record DirEntry := {
  entry_name : string;
  entry_is_file : bool;
  entry_mtime : Z }.

Definition microseconds_per_day : Z := 86400 * 1000000.

(** [(now - mtime).days]: [timedelta] normalises so that [days] is the
    floor of the difference over one day. *)
Definition file_age_days (now mtime : Z) : Z :=
  (now - mtime) `div` microseconds_per_day.

(** [ExcelManager.cleanup_old_backups]: the loop over [iterdir()].
    [clock k] is what [datetime.now()] returns while the entry at
    position [k] is examined.  The result is what is left in the folder,
    with the log lines written.  The file-system calls are taken to
    succeed, so the [except] branch, which logs and re-raises, is not
    entered. *)
Fixpoint cleanup_from (self : ExcelManager) (clock : nat → Z) (k : nat)
    (entries : list DirEntry) : list DirEntry * list Event :=
  match entries with
  | [] => ([], [])
  | backup_file :: rest =>
      let '(kept, logged) := cleanup_from self clock (S k) rest in
      if entry_is_file backup_file then
        if bool_decide (backup_keep_days self <
                        file_age_days (clock k) (entry_mtime backup_file))
        then (kept, EvLog INFO (DeletedOldBackup (entry_name backup_file)) :: logged)
        else (backup_file :: kept, logged)
      else (backup_file :: kept, logged)
  end.

Definition cleanup_old_backups (self : ExcelManager) (clock : nat → Z)
    (backup_dir : list DirEntry) : list DirEntry * list Event :=
  cleanup_from self clock 0 backup_dir.

(* ===================================================================== *)
(** * [src/imap/handler.py]                                              *)
(* ===================================================================== *)

(** What the handler reads from a parsed MIME entity.
    [content_type] is [get_content_type()];
    [content_disposition] is [get("Content-Disposition")];
    [from_addr] and [to_addr] are [parseaddr(msg[...])[1]]: the address,
    and the empty string for a header that is missing, holds no address
    or is not plain text ([parseaddr] then returns [('', '')]; it raises
    for no header a parsed message has). *)
Record Headers := {
  content_type : string;
  content_disposition : option string;
  subject : option string;
  from_addr : string;
  to_addr : string;
  message_id : option string }.

(** A parsed message: a leaf with its payload, or a container with its
    sub-parts in original order.  The payload of a leaf is
    [get_payload(decode=True).decode()], [None] when that raises (bytes
    that are not UTF-8). *)
Inductive EmailMessage :=
| Single (h : Headers) (payload : option string)
| Multipart (h : Headers) (parts : list EmailMessage).

Definition headers (m : EmailMessage) : Headers :=
  match m with Single h _ | Multipart h _ => h end.

(** [msg.is_multipart()] *)
Definition is_multipart (m : EmailMessage) : bool :=
  match m with Single _ _ => false | Multipart _ _ => true end.

(** [msg.walk()]: the entity itself, then its sub-parts depth-first. *)
Fixpoint walk (m : EmailMessage) : list EmailMessage :=
  match m with
  | Single _ _ => [m]
  | Multipart _ parts =>
      m :: (fix walk_all (ps : list EmailMessage) : list EmailMessage :=
              match ps with
              | [] => []
              | p :: ps' => (walk p ++ walk_all ps')%list
              end) parts
  end.

(** [part.get_payload(decode=True).decode()]: on a container
    [get_payload(decode=True)] is [None], which has no [decode]. *)
Definition decoded_payload (part : EmailMessage) : Result string :=
  match part with
  | Single _ (Some text) => Ok text
  | Single _ None => Raise (OtherException "UnicodeDecodeError")
  | Multipart _ _ => Raise (AttributeError "decode")
  end.

Definition opt_str (o : option string) : PyVal :=
  match o with Some s => PStr s | None => PNone end.

(** [content_type == ct and "attachment" not in content_disposition],
    with [content_disposition = str(part.get("Content-Disposition"))]. *)
Definition inline_of_type (ct : string) (part : EmailMessage) : bool :=
  bool_decide (content_type (headers part) = ct)
  && negb (contains "attachment"
             (py_str (opt_str (content_disposition (headers part))))).

(** Lines 151-158: the loop over [msg.walk()].  Leaving the loop without
    a [return] makes the function return [None]. *)
Fixpoint first_text_part (parts : list EmailMessage) : Result PyVal :=
  match parts with
  | [] => Ok PNone
  | part :: rest =>
      if inline_of_type "text/plain" part then
        match decoded_payload part with Ok s => Ok (PStr s) | Raise e => Raise e end
      else if inline_of_type "text/html" part then
        match decoded_payload part with Ok s => Ok (PStr s) | Raise e => Raise e end
      else first_text_part rest
  end.

(** Search criteria handed to [connection.search]. *)
Inductive Criteria :=
| ALL
| HEADER_References (message_id : PyVal).

Inductive Folder :=
| GmailSentMail
| Sent
| Named (name : string).

(** An open IMAP session: what the server answers to each command,
    a status with data, or an exception ([imaplib] raises on a [BAD]
    answer and on a broken connection).  [conn_search] gives the status
    and the ids of [messages[0].split()]; [conn_fetch] gives the status
    and the message parsed from [data[0][1]], [None] when [data[0]] is
    not a pair. *)
Record Connection := {
  conn_select : Folder → Result string;
  conn_search : Criteria → Result (string * list string);
  conn_fetch : string → Result (string * option EmailMessage) }.

(** The attributes of an [IMAPHandler]: [self.config] (the ["imap"]
    section) and [self.connection] ([None] until [connect]). *)
Record IMAPHandler := {
  imap_config : gmap string string;
  connection : option Connection }.

Section Imap.
Context {the_lower : StrLower} {Ext : Type}.
Variable self : IMAPHandler.

(** [IMAPHandler._get_email_body] *)
Definition _get_email_body (msg : EmailMessage) : M Ext PyVal :=
  try_except
    (if is_multipart msg then lift (first_text_part (walk msg))
     else s ←ₘ lift (decoded_payload msg); ret (PStr s))
    (λ e, log ERROR (FailedBody e) ;;ₘ incr_errors ;;ₘ ret (PStr "")).

Definition result_of_option {A} (what : string) (o : option A) : Result A :=
  match o with Some a => Ok a | None => Raise (TypeError what) end.

(** [IMAPHandler._parse_email].  Nothing in its [try] block raises:
    the header lookups and [parseaddr] return, and [_get_email_body]
    catches its own exceptions. *)
Definition _parse_email (msg : EmailMessage) (email_id : string) : M Ext Dict :=
  try_except
    (let subject := opt_str (subject (headers msg)) in
     let sender := from_addr (headers msg) in
     let recipient := to_addr (headers msg) in
     let message_id := opt_str (message_id (headers msg)) in
     body ←ₘ _get_email_body msg;
     ret (<["id" := PStr email_id]>
          (<["subject" := subject]>
          (<["from" := PStr sender]>
          (<["to" := PStr recipient]>
          (<["message_id" := message_id]>
          (<["body" := body]> (∅ : Dict))))))))
    (λ e, log ERROR (FailedParse email_id e) ;;ₘ incr_errors ;;ₘ ret (∅ : Dict)).

(** [self.connection.<method>]: [None] has no attributes. *)
Definition the_connection (method : string) : M Ext Connection :=
  match connection self with
  | Some conn => ret conn
  | None => raise (AttributeError method)
  end.

(** Lines 53-62 and 91-100: the loop over the ids found, the same in
    both fetch methods up to the log line.  [acc] is the list built so
    far. *)
Fixpoint fetch_loop (conn : Connection) (failed : string → LogMsg)
    (email_ids : list string) (acc : list Dict) : M Ext (list Dict) :=
  match email_ids with
  | [] => ret acc
  | email_id :: rest =>
      answer ←ₘ lift (conn_fetch conn email_id);
      if bool_decide (answer.1 ≠ "OK") then
        log ERROR (failed email_id) ;;ₘ
        fetch_loop conn failed rest acc
      else
        msg ←ₘ lift (result_of_option "'NoneType' object is not subscriptable" answer.2);
        parsed ←ₘ _parse_email msg email_id;
        incr_processed_emails ;;ₘ
        fetch_loop conn failed rest (acc ++ [parsed])%list
  end.

(** Lines 45-65: the [try] block of [fetch_sent_emails]. *)
Definition fetch_sent_emails_try : M Ext (list Dict) :=
  conn ←ₘ the_connection "select";
  host ←ₘ lift (getitem (imap_config self) "host");
  lift (conn_select conn
          (if contains "gmail" (lower host) then GmailSentMail else Sent)) ;;ₘ
  found ←ₘ lift (conn_search conn ALL);
  if bool_decide (found.1 ≠ "OK") then
    log WARNING NoSentEmails ;;ₘ ret []
  else
    sent_emails ←ₘ fetch_loop conn FailedFetch found.2 [];
    log INFO (FetchedSent (length sent_emails)) ;;ₘ
    ret sent_emails.

(** [IMAPHandler.fetch_sent_emails] *)
Definition fetch_sent_emails : M Ext (list Dict) :=
  try_except fetch_sent_emails_try
    (λ e, log ERROR (ErrorFetchingSent e) ;;ₘ incr_errors ;;ₘ ret []).

(** Lines 83-103: the [try] block of [fetch_replies]. *)
Definition fetch_replies_try (sent_email : Dict) : M Ext (list Dict) :=
  conn ←ₘ the_connection "select";
  folder ←ₘ lift (getitem (imap_config self) "folder");
  lift (conn_select conn (Named folder)) ;;ₘ
  sent_message_id ←ₘ lift (getitem sent_email "message_id");
  found ←ₘ lift (conn_search conn (HEADER_References sent_message_id));
  if bool_decide (found.1 ≠ "OK") then
    sent_id ←ₘ lift (getitem sent_email "id");
    log WARNING (NoReplies sent_id) ;;ₘ ret []
  else
    replies ←ₘ fetch_loop conn FailedFetchReply found.2 [];
    sent_id ←ₘ lift (getitem sent_email "id");
    log INFO (FoundReplies (length replies) sent_id) ;;ₘ
    ret replies.

(** [IMAPHandler.fetch_replies] *)
Definition fetch_replies (sent_email : Dict) : M Ext (list Dict) :=
  try_except (fetch_replies_try sent_email)
    (λ e, log ERROR (ErrorFetchingReplies e) ;;ₘ incr_errors ;;ₘ ret []).
End Imap.

(** The ids the loop of a fetch method runs over: those the search
    found when it was answered [OK], none otherwise (lines 46-51 and
    85-89). *)
Definition found_ids (answer : Result (string * list string)) : list string :=
  match answer with
  | Ok (status, email_ids) => if bool_decide (status = "OK") then email_ids else []
  | Raise _ => []
  end.

(** The messages the loop over [email_ids] fetches and parses, with
    their ids: a fetch answered with another status is passed over
    (line 56), and the loop ends at the first fetch that raises or that
    hands out no message (lines 54 and 58). *)
Fixpoint fetched_messages (conn : Connection) (email_ids : list string)
    : list (string * EmailMessage) :=
  match email_ids with
  | [] => []
  | email_id :: rest =>
      match conn_fetch conn email_id with
      | Ok (status, fetched) =>
          if bool_decide (status = "OK") then
            match fetched with
            | Some msg => (email_id, msg) :: fetched_messages conn rest
            | None => []
            end
          else fetched_messages conn rest
      | Raise _ => []
      end
  end.

(* ===================================================================== *)
(** * [src/lm_studio_client.py] and the duck-typed collaborators         *)
(* ===================================================================== *)

(** A method of a collaborator of [process_emails] acts on the services
    ([ext]) and, for the mailbox client, on the shared counters; it has
    no handle on the table or on the disk. *)
Definition Service (Ext A : Type) : Type :=
  ProcessingStats * Ext → Result A * (ProcessingStats * Ext).

Definition call {Ext A} (method : Service Ext A) : M Ext A :=
  λ w, let '(r, (s, x)) := method (stats w, ext w) in
       (r, {| stats := s; data := data w; disk := disk w;
              trace := trace w; ext := x |}).

(** A method that only talks to its service. *)
Definition Request (Ext A : Type) : Type := Ext → Result A * Ext.

Definition request {Ext A} (method : Request Ext A) : M Ext A :=
  λ w, let '(r, x) := method (ext w) in
       (r, {| stats := stats w; data := data w; disk := disk w;
              trace := trace w; ext := x |}).

(** The two attributes [process_emails] looks up on its [imap_handler]
    argument; [None] is an attribute the object does not have. *)
Record ImapObject {Ext : Type} := {
  get_email_threads : option (Service Ext (list Thread));
  mark_as_read : option (PyVal → Service Ext unit) }.
Arguments ImapObject Ext : clear implicits.

(** The attribute [process_emails] looks up on its [lm_studio_client]
    argument.  An analysis result is a flat mapping from field names to
    values, taken as strings like the cells they overwrite. *)
Record LMObject {Ext : Type} := {
  analyze_email : option (PyVal → option PyVal → Request Ext (gmap string string)) }.
Arguments LMObject Ext : clear implicits.

(** The names class [IMAPHandler] defines (handler.py, lines 12-176). *)
Definition IMAPHandler_defines : list string :=
  ["__init__"; "connect"; "fetch_sent_emails"; "fetch_replies";
   "_parse_email"; "_get_email_body"; "disconnect"].

(** The attributes [IMAPHandler.__init__] sets on an instance. *)
Definition IMAPHandler_attributes : list string :=
  ["config"; "stats"; "connection"; "logger"].

(** The names class [LMStudioClient] defines (lm_studio_client.py). *)
Definition LMStudioClient_defines : list string :=
  ["__init__"; "analyze_text"; "health_check"].

Definition LMStudioClient_attributes : list string :=
  ["base_url"; "api_key"; "timeout"; "logger"; "headers"].

(** Attribute lookup on an instance of a class with the given names:
    the implementation when the name is there, [None] otherwise. *)
Definition lookup_method {A} (defines attributes : list string) (name : string)
    (impl : option A) : option A :=
  if bool_decide (name ∈ (defines ++ attributes)%list) then impl else None.

(** An [IMAPHandler] instance as [process_emails] sees it. *)
Definition IMAPHandler_object {Ext} : ImapObject Ext :=
  {| get_email_threads :=
       lookup_method IMAPHandler_defines IMAPHandler_attributes "get_email_threads" None;
     mark_as_read :=
       lookup_method IMAPHandler_defines IMAPHandler_attributes "mark_as_read" None |}.

(** An [LMStudioClient] instance as [process_emails] sees it. *)
Definition LMStudioClient_object {Ext} : LMObject Ext :=
  {| analyze_email :=
       lookup_method LMStudioClient_defines LMStudioClient_attributes "analyze_email" None |}.

(* ===================================================================== *)
(** * [main.py]                                                          *)
(* ===================================================================== *)

(** The ["excel"] section of the configuration; [None] is an absent
    key. *)
Record ExcelSection := {
  xs_path : option string;
  xs_backup : option (option bool * option Z);
  xs_columns : option (gmap string string);
  xs_target_columns : option (list string) }.

(** The document [yaml.safe_load] returns: the five required groups. *)
Record Config := {
  cfg_excel : option ExcelSection;
  cfg_imap : option (gmap string string);
  cfg_lm_studio : option (gmap string string);
  cfg_logging : option (gmap string string);
  cfg_user : option (gmap string string) }.

(** What a run finds outside the process: the configuration file
    (absent, unparsable, or a document) and the environment variables. *)
Inductive ConfigFile :=
| NoConfigFile
| BadYaml
| Yaml (config : Config).

Record Startup := {
  config_file : ConfigFile;
  environ : gmap string string }.

(** [os.getenv(name, fallback)] *)
Definition getenv (env : gmap string string) (name fallback : string) : string :=
  default fallback (env !! name).

Definition absent {A} (name : string) (section : option A) : list string :=
  match section with Some _ => [] | None => [name] end.

(** [[section for section in required_sections if section not in config]] *)
Definition missing_sections (c : Config) : list string :=
  (absent "excel" (cfg_excel c) ++ absent "imap" (cfg_imap c) ++
   absent "lm_studio" (cfg_lm_studio c) ++ absent "logging" (cfg_logging c) ++
   absent "user" (cfg_user c))%list.

Section Main.
Context {the_lower : StrLower} {Ext : Type}.

(** [load_config] *)
Definition load_config (start : Startup) : M Ext Config :=
  match config_file start with
  | NoConfigFile => raise (FileNotFoundError "config/config.yaml")
  | BadYaml => raise YAMLError
  | Yaml config =>
      match cfg_excel config, cfg_imap config, cfg_lm_studio config,
            cfg_logging config, cfg_user config with
      | Some excel, Some imap, Some lm_studio, Some _, Some _ =>
          let env := environ start in
          let imap :=
            <["password" := getenv env "ZOHO_APP_PASSWORD" (default "" (imap !! "password"))]>
            (<["username" := getenv env "ZOHO_EMAIL" (default "" (imap !! "username"))]> imap) in
          let excel_path := getenv env "EXCEL_FILE_PATH" (default "" (xs_path excel)) in
          let lm_studio :=
            <["version" := getenv env "LMSTUDIO_VERSION" (default "" (lm_studio !! "version"))]>
            (<["port" := getenv env "LMSTUDIO_PORT" (default "1234" (lm_studio !! "port"))]>
            (<["host" := getenv env "LMSTUDIO_HOST" (default "localhost" (lm_studio !! "host"))]>
             lm_studio)) in
          λ w,
            if bool_decide (excel_path = "") || negb (bool_decide (is_Some (disk w !! excel_path)))
            then (Raise (FileNotFoundError excel_path), w)
            else (Ok {| cfg_excel := Some {| xs_path := Some excel_path;
                                             xs_backup := xs_backup excel;
                                             xs_columns := xs_columns excel;
                                             xs_target_columns := xs_target_columns excel |};
                        cfg_imap := Some imap;
                        cfg_lm_studio := Some lm_studio;
                        cfg_logging := cfg_logging config;
                        cfg_user := cfg_user config |}, w)
      | _, _, _, _, _ =>
          raise (ValueError (String.concat ", " (missing_sections config)))
      end
  end.

Definition key {A} (name : string) (o : option A) : M Ext A :=
  match o with Some a => ret a | None => raise (KeyError name) end.

(** [ExcelManager.__init__] *)
Definition ExcelManager_init (config : Config) : M Ext ExcelManager :=
  excel ←ₘ key "excel" (cfg_excel config);
  path ←ₘ key "path" (xs_path excel);
  backup ←ₘ key "backup" (xs_backup excel);
  cols ←ₘ key "columns" (xs_columns excel);
  targets ←ₘ key "target_columns" (xs_target_columns excel);
  (λ w, (Ok (), set_data None w)) ;;ₘ
  ret {| file_path := path;
         backup_enabled := default true backup.1;
         backup_keep_days := default 7 backup.2;
         columns := cols;
         target_columns := targets |}.

(** [IMAPHandler.__init__] *)
Definition IMAPHandler_init (config : Config) : M Ext IMAPHandler :=
  imap ←ₘ key "imap" (cfg_imap config);
  ret {| imap_config := imap; connection := None |}.

(** [LMStudioClient.__init__]: the two keys it requires. *)
Definition LMStudioClient_init (config : Config) : M Ext unit :=
  lm_studio ←ₘ key "lm_studio" (cfg_lm_studio config);
  lift (getitem lm_studio "base_url") ;;ₘ
  lift (getitem lm_studio "api_key") ;;ₘ
  ret ().

(** [obj.name]: [AttributeError] when the object has no such
    attribute. *)
Definition getattr {A} (name : string) (o : option A) : M Ext A :=
  match o with Some a => ret a | None => raise (AttributeError name) end.

Variable imap_handler : ImapObject Ext.
Variable lm_studio_client : LMObject Ext.

(** Lines 97-116: the body of the inner loop of [process_emails];
    [continue] is an early [ret]. *)
Definition process_message (excel_manager : ExcelManager)
    (thread : Thread) (message : Dict) : M Ext unit :=
  if truthy (default PNone (message !! "processed")) then ret ()
  else
    analyze ←ₘ getattr "analyze_email" (analyze_email lm_studio_client);
    email_body ←ₘ lift (getitem message "body");
    emit (EvAnalyzeEmail email_body (th_context thread)) ;;ₘ
    analysis_result ←ₘ request (analyze email_body (th_context thread));
    match analysis_result !! "error" with
    | Some err => log ERROR (AnalysisFailed err)
    | None =>
        email ←ₘ lift (getitem message "from");
        update_data excel_manager email thread analysis_result ;;ₘ
        mark ←ₘ getattr "mark_as_read" (mark_as_read imap_handler);
        message_id ←ₘ lift (getitem message "message_id");
        emit (EvMarkAsRead message_id) ;;ₘ
        call (mark message_id) ;;ₘ
        incr_processed_emails
    end.

(** Lines 95-116: the [try] block of [process_emails]. *)
Definition process_emails_try (excel_manager : ExcelManager) : M Ext unit :=
  get ←ₘ getattr "get_email_threads" (get_email_threads imap_handler);
  threads ←ₘ call get;
  for_each threads (λ thread,
    messages ←ₘ key "messages" (th_messages thread);
    for_each messages (process_message excel_manager thread)).

(** [process_emails] *)
Definition process_emails (excel_manager : ExcelManager) : M Ext unit :=
  log INFO StartingProcessing ;;ₘ
  log INFO ProcessingAsUser ;;ₘ
  try_except (process_emails_try excel_manager)
    (λ e, log ERROR (ErrorDuringProcessing e) ;;ₘ incr_errors ;;ₘ raise e).

(** Lines 131-140 of [main]: everything before [process_emails]. *)
Definition main_setup (start : Startup) : M Ext ExcelManager :=
  config ←ₘ load_config start;
  excel_manager ←ₘ ExcelManager_init config;
  IMAPHandler_init config ;;ₘ
  LMStudioClient_init config ;;ₘ
  check_structure excel_manager ;;ₘ
  load_data excel_manager ;;ₘ
  ret excel_manager.

(** Lines 130-149 of [main]: the [try] block. *)
Definition main_try (start : Startup) : M Ext unit :=
  excel_manager ←ₘ main_setup start;
  process_emails excel_manager ;;ₘ
  save_data excel_manager ;;ₘ
  (λ w, emit (EvLogSummary (stats w)) w) ;;ₘ
  log INFO ProcessingCompleted.

(** [main] with the collaborators given: the exit code of the process
    and the world it leaves.  [setup_logging] writes its first line and
    [stats = ProcessingStats()] starts the counters at zero. *)
Definition main_with (start : Startup) (w : World Ext) : Z * World Ext :=
  match (log INFO LoggingInitialized ;;ₘ
         (λ w, (Ok (), set_stats ProcessingStats_init w)) ;;ₘ
         try_except (main_try start)
           (λ e, (if is_FileNotFoundError e
                  then log CRITICAL (CriticalError e)
                  else log ERROR (UnexpectedError e)) ;;ₘ
                 raise e)) w with
  | (Ok _, w') => (0, w')
  | (Raise _, w') => (1, w')
  end.
End Main.

(** [main] as the repository runs it: with an [IMAPHandler] and an
    [LMStudioClient]. *)
Definition main {the_lower : StrLower} {Ext} (start : Startup) (w : World Ext) : Z * World Ext :=
  main_with IMAPHandler_object LMStudioClient_object start w.


(* ===================================================================== *)
(** * Predicates used by the statements                                  *)
(* ===================================================================== *)

(** Every row of the frame has a cell in every column of the header,
    as every frame [read_excel] builds has. *)
Definition well_formed (df : DataFrame) : Prop :=
  ∀ r c, r ∈ df_rows df → c ∈ df_columns df → is_Some (r !! c).

(** The table in memory is a well-formed frame with the given header
    and number of rows. *)
Definition table_shape {Ext} (cols : list string) (n : nat) (w : World Ext) : Prop :=
  ∃ df, data w = Some df ∧ df_columns df = cols ∧ length (df_rows df) = n ∧
        well_formed df.

(** A part the loop of [_get_email_body] accepts. *)
Definition is_text_part (part : EmailMessage) : bool :=
  inline_of_type "text/plain" part || inline_of_type "text/html" part.

(** What one pass of the inner loop of [update_data] can touch: the
    table and the trace, never the counters, the disk or the services. *)
Definition table_only {Ext} (w w' : World Ext) : Prop :=
  stats w' = stats w ∧ disk w' = disk w ∧ ext w' = ext w ∧
  (is_Some (data w) → is_Some (data w')).

(** The world after the [except] branch of a fetch method: one line
    logged, one error counted. *)
Definition after_except {Ext} (line : LogMsg) (w : World Ext) : World Ext :=
  {| stats := {| processed_emails := processed_emails (stats w);
                 updated_rows := updated_rows (stats w);
                 errors := errors (stats w) + 1 |};
     data := data w;
     disk := disk w;
     trace := trace w ++ [EvLog ERROR line];
     ext := ext w |}.

(** The world after one more event in the trace. *)
Definition emitted {Ext} (ev : Event) (w : World Ext) : World Ext :=
  {| stats := stats w; data := data w; disk := disk w;
     trace := trace w ++ [ev]; ext := ext w |}.

(** The world after one more line in the log. *)
Definition logged {Ext} (lvl : Level) (line : LogMsg) (w : World Ext) : World Ext :=
  emitted (EvLog lvl line) w.


(** The world in which the [try] block of [process_emails] starts. *)
Definition entered {Ext} (w : World Ext) : World Ext :=
  logged INFO ProcessingAsUser (logged INFO StartingProcessing w).

(** [w'] comes after [w] in a run that wrote nothing to the disk and
    never entered [save_data]. *)
Definition quiet {Ext} (w w' : World Ext) : Prop :=
  disk w' = disk w ∧
  ∃ evs, trace w' = (trace w ++ evs)%list ∧ Forall (λ ev, is_save ev = false) evs.

(** An action that, however it ends, leaves a [quiet] world. *)
Definition Quiet {Ext A} (m : M Ext A) : Prop :=
  ∀ w r w', m w = (r, w') → quiet w w'.

(** The world [main] hands to its [try] block: [setup_logging] has
    written its line and the counters are new. *)
Definition started {Ext} (w : World Ext) : World Ext :=
  {| stats := ProcessingStats_init; data := data w; disk := disk w;
     trace := trace w ++ [EvLog INFO LoggingInitialized]; ext := ext w |}.

(* ===================================================================== *)
(** * Concrete inputs                                                    *)
(* ===================================================================== *)

(** A manager for a workbook with a mail column and one target field. *)
Definition ex_manager : ExcelManager :=
  {| file_path := "contacts.xlsx";
     backup_enabled := true;
     backup_keep_days := 7;
     columns := <["mail" := "Mail"]> (<["status" := "Status"]> ∅);
     target_columns := ["status"] |}.

Definition ex_row (mail status : string) : gmap string string :=
  <["Mail" := mail]> (<["Status" := status]> ∅).

(** Three rows; the first and the third hold the same address up to
    case. *)
Definition ex_table : DataFrame :=
  {| df_columns := ["Mail"; "Status"];
     df_rows := [ex_row "Ann@Example.org" "new";
                 ex_row "bob@example.org" "new";
                 ex_row "ann@example.org" "replied"] |}.

Definition ex_world : World unit :=
  {| stats := ProcessingStats_init;
     data := Some ex_table;
     disk := <["contacts.xlsx" := ex_table]> ∅;
     trace := [];
     ext := () |}.

Definition ex_thread : Thread :=
  {| th_messages := Some []; th_context := None |}.

Definition ex_analysis : gmap string string := <["status" := "replied"]> ∅.

Definition ex_headers (ct : string) : Headers :=
  {| content_type := ct;
     content_disposition := None;
     subject := Some "Offer";
     from_addr := "ann@example.org";
     to_addr := "me@example.org";
     message_id := Some "<1@example.org>" |}.

Definition ex_plain : EmailMessage :=
  Single (ex_headers "text/plain") (Some "plain body").

Definition ex_html : EmailMessage :=
  Single (ex_headers "text/html") (Some "<p>html body</p>").

(** A [multipart/alternative] message with the plain part first. *)
Definition ex_plain_first : EmailMessage :=
  Multipart (ex_headers "multipart/alternative") [ex_plain; ex_html].

(** The same two parts with the HTML part first. *)
Definition ex_html_first : EmailMessage :=
  Multipart (ex_headers "multipart/alternative") [ex_html; ex_plain].

Definition ex_handler (conn : option Connection) : IMAPHandler :=
  {| imap_config := <["host" := "imap.example.org"]> (<["folder" := "INBOX"]> ∅);
     connection := conn |}.

(** A server that answers [NO] to every search. *)
Definition ex_conn_search_no : Connection :=
  {| conn_select := λ _, Ok "OK";
     conn_search := λ _, Ok ("NO", []);
     conn_fetch := λ _, Ok ("OK", Some ex_plain) |}.

(** A server that finds two messages and answers [NO] to the fetch of
    the first. *)
Definition ex_conn_fetch_no : Connection :=
  {| conn_select := λ _, Ok "OK";
     conn_search := λ _, Ok ("OK", ["1"; "2"]);
     conn_fetch := λ email_id,
       if bool_decide (email_id = "1") then Ok ("NO", None)
       else Ok ("OK", Some ex_plain) |}.

(** A server that finds two messages and drops the connection at the
    fetch of the second. *)
Definition ex_conn_fetch_raises : Connection :=
  {| conn_select := λ _, Ok "OK";
     conn_search := λ _, Ok ("OK", ["1"; "2"]);
     conn_fetch := λ email_id,
       if bool_decide (email_id = "1") then Ok ("OK", Some ex_plain)
       else Raise (OtherException "imaplib.IMAP4.abort") |}.

Definition ex_sent_email : Dict :=
  <["id" := PStr "7"]> (<["message_id" := PStr "<7@example.org>"]> ∅).

Definition day : Z := microseconds_per_day.

(** A backup folder examined at time [100 * day]: a file last modified
    eight days and one hour before, a file last modified seven days and
    twenty-three hours before, and a sub-folder older than both. *)
Definition ex_backup_dir : list DirEntry :=
  [ {| entry_name := "contacts_backup_1.xlsx"; entry_is_file := true;
       entry_mtime := 92 * day - 3600 * 1000000 |};
    {| entry_name := "contacts_backup_2.xlsx"; entry_is_file := true;
       entry_mtime := 92 * day + 3600 * 1000000 |};
    {| entry_name := "archive"; entry_is_file := false;
       entry_mtime := 10 * day |} ].

Definition ex_clock : nat → Z := λ _, 100 * day.

(** Stand-ins for the collaborators that do have the methods
    [process_emails] calls: a mailbox with one thread of one message,
    and an analysis service with a fixed answer. *)
Definition ex_message : Dict :=
  <["from" := PStr "ANN@example.org"]>
  (<["body" := PStr "Thank you, we accept."]>
  (<["message_id" := PStr "<9@example.org>"]> ∅)).

Definition ex_imap : ImapObject unit :=
  {| get_email_threads :=
       Some (λ sx, (Ok [{| th_messages := Some [ex_message]; th_context := None |}], sx));
     mark_as_read := Some (λ _ sx, (Ok (), sx)) |}.

Definition ex_lm (answer : gmap string string) : LMObject unit :=
  {| analyze_email := Some (λ _ _ x, (Ok answer, x)) |}.


(** A manager whose target field has no entry in the column mapping. *)
Definition ex_manager_unmapped : ExcelManager :=
  {| file_path := "contacts.xlsx";
     backup_enabled := true;
     backup_keep_days := 7;
     columns := <["mail" := "Mail"]> ∅;
     target_columns := ["status"] |}.

(** A configuration file with the five groups, and no environment
    variable set. *)
Definition ex_startup : Startup :=
  {| config_file := Yaml
       {| cfg_excel := Some {| xs_path := Some "contacts.xlsx";
                               xs_backup := Some (Some true, Some 7);
                               xs_columns := Some (columns ex_manager);
                               xs_target_columns := Some ["status"] |};
          cfg_imap := Some (<["host" := "imap.example.org"]> ∅);
          cfg_lm_studio := Some (<["base_url" := "http://localhost:1234"]>
                                 (<["api_key" := "key"]> ∅));
          cfg_logging := Some ∅;
          cfg_user := Some ∅ |};
     environ := ∅ |}.

(** The world a process starts in: the workbook on disk, nothing
    loaded, nothing logged. *)
Definition ex_initial : World unit :=
  {| stats := ProcessingStats_init;
     data := None;
     disk := <["contacts.xlsx" := ex_table]> ∅;
     trace := [];
     ext := () |}.

(** A mailbox stand-in whose [mark_as_read] loses the connection. *)
Definition ex_imap_mark_fails : ImapObject unit :=
  {| get_email_threads := get_email_threads ex_imap;
     mark_as_read := Some (λ _ sx, (Raise (OtherException "imaplib.IMAP4.abort"), sx)) |}.


(* ===================================================================== *)
(** * Further predicates and inputs                                      *)
(* ===================================================================== *)

(** The cell of row [j] in column [d], when the frame has one. *)
Definition cell (df : DataFrame) (j : nat) (d : string) : option string :=
  df_rows df !! j ≫= (.!! d).

(** A relation between worlds that an action respects however it
    ends. *)
Definition Respects {Ext A} (R : World Ext → World Ext → Prop) (m : M Ext A) : Prop :=
  ∀ w r w', m w = (r, w') → R w w'.

(** The counters are as they were. *)
Definition same_stats {Ext} (w w' : World Ext) : Prop := stats w' = stats w.


(** The fetch of this id is answered with status [OK]. *)
Definition fetch_is_ok (conn : Connection) (email_id : string) : bool :=
  match conn_fetch conn email_id with
  | Ok (status, _) => bool_decide (status = "OK")
  | Raise _ => false
  end.

Definition is_log (ev : Event) : bool :=
  match ev with EvLog _ _ => true | _ => false end.

(** [w'] comes after [w] in a run that did nothing an observer can see
    but write log lines. *)
Definition only_logs {Ext} (w w' : World Ext) : Prop :=
  ∃ evs, trace w' = (trace w ++ evs)%list ∧ Forall (λ ev, is_log ev = true) evs.

(** [message.get("processed")] is truthy. *)
Definition flagged_processed (message : Dict) : bool :=
  truthy (default PNone (message !! "processed")).

(** Lines 96-116 of [main.py]: one pass of the outer loop of
    [process_emails], the body [process_emails_try] runs for every
    thread. *)
Definition process_thread {the_lower : StrLower} {Ext}
    (imap_handler : ImapObject Ext) (lm_studio_client : LMObject Ext)
    (excel_manager : ExcelManager) (thread : Thread) : M Ext unit :=
  messages ←ₘ key "messages" (th_messages thread);
  for_each messages (process_message imap_handler lm_studio_client excel_manager thread).

(* ===================================================================== *)
(** * [src/utils/retry.py]                                               *)
(* ===================================================================== *)

(** What the wrapper does that can be seen from outside: it calls the
    wrapped function, writes log lines and sleeps. *)
Inductive RetryEvent {D : Type} :=
| RetryCall (n : nat)
| RetryWarning (attempts : Z) (e : exn) (delay : D)
| RetryError (max_attempts : Z)
| RetrySleep (delay : D).
Arguments RetryEvent D : clear implicits.

Definition is_retry_call {D} (ev : RetryEvent D) : bool :=
  match ev with RetryCall _ => true | _ => false end.

(** The delays slept, in order. *)
Definition slept {D} (evs : list (RetryEvent D)) : list D :=
  omap (λ ev, match ev with RetrySleep d => Some d | _ => None end) evs.

Section Retry.
Context {A D : Type}.

(** The free variables of [wrapper]: the arguments of the enclosing
    decorator factory, whose [def] line the file lacks.
    [exception_to_check e] is [isinstance(e, exception_to_check)];
    [times] is the product of [delay *= backoff_factor]; [logger] is
    whether a logger was given. *)
Variable max_attempts : Z.
Variable exception_to_check : exn → bool.
Variable base_delay backoff_factor : D.
Variable times : D → D → D.
Variable logger : bool.

(** [time.sleep(delay)]: it returns after the delay, or raises
    ([ValueError] for a negative delay or one that is not a number). *)
Variable sleep : D → Result unit.

(** [func n] is what the [n]-th call of the wrapped function does,
    counting from zero. *)
Variable func : nat → Result A.

(** The delay after [n] multiplications. *)
Definition delay_after (n : nat) : D :=
  Nat.iter n (λ delay, times delay backoff_factor) base_delay.

(** Lines 16-30: the [while] loop, entered with the given [attempts] and
    [delay].  Every pass that goes on adds one to [attempts], so
    [max_attempts] passes are enough; [fuel] bounds the passes and
    [None] is a loop cut short by it.  Leaving the loop by its condition
    ends the function, which then returns [None]: [Ok None].  An
    exception of [time.sleep] is raised inside the [except] clause and
    leaves the wrapper. *)
Fixpoint wrapper_loop (fuel : nat) (attempts : Z) (delay : D)
    : option (Result (option A) * list (RetryEvent D)) :=
  if bool_decide (attempts < max_attempts)%Z then
    match fuel with
    | O => None
    | S fuel' =>
        match func (Z.to_nat attempts) with
        | Ok a => Some (Ok (Some a), [RetryCall (Z.to_nat attempts)])
        | Raise e =>
            if exception_to_check e then
              let attempts' := attempts + 1 in
              let warning :=
                if logger then [RetryWarning attempts' e delay] else [] in
              if bool_decide (max_attempts ≤ attempts')%Z then
                Some (Raise e,
                      (RetryCall (Z.to_nat attempts) :: warning ++
                       if logger then [RetryError max_attempts] else [])%list)
              else
                match sleep delay with
                | Raise e' =>
                    Some (Raise e', (RetryCall (Z.to_nat attempts) :: warning)%list)
                | Ok _ =>
                    match wrapper_loop fuel' attempts' (times delay backoff_factor) with
                    | Some (r, evs) =>
                        Some (r, (RetryCall (Z.to_nat attempts) :: warning ++
                                  RetrySleep delay :: evs)%list)
                    | None => None
                    end
                end
            else Some (Raise e, [RetryCall (Z.to_nat attempts)])
        end
    end
  else Some (Ok None, []).

(** [wrapper]: lines 14-30. *)
Definition wrapper : option (Result (option A) * list (RetryEvent D)) :=
  wrapper_loop (Z.to_nat max_attempts) 0 base_delay.

(** The [k] calls from call [n] on raise exceptions that are retried. *)
Definition retried_from (n k : nat) : Prop :=
  ∀ i, (i < k)%nat → ∃ e, func (n + i)%nat = Raise e ∧ exception_to_check e = true.

(** The [k] sleeps after the calls from call [n] on return. *)
Definition sleeps_from (n k : nat) : Prop :=
  ∀ i, (i < k)%nat → sleep (delay_after (n + i)) = Ok ().
End Retry.

(* ===================================================================== *)
(** * [IMAPHandler.connect] and [IMAPHandler.disconnect]                 *)
(* ===================================================================== *)

Inductive SessionLine :=
| ConnectedLine
| ConnectFailedLine (e : exn)
| DisconnectedLine
| DisconnectFailedLine (e : exn).

(** What the two methods do that can be seen from outside: the commands
    that reach the server and the log lines. *)
Inductive SessionEvent :=
| SessOpen (host port : string)
| SessLogin (username password : string)
| SessClose
| SessLogout
| SessLog (lvl : Level) (line : SessionLine).

#[global] Instance SessionLine_eq_dec : EqDecision SessionLine.
Proof. solve_decision. Defined.
#[global] Instance SessionEvent_eq_dec : EqDecision SessionEvent.
Proof. solve_decision. Defined.

(** What [imaplib.IMAP4_SSL(host, port)] gives: the session, and what
    the server answers to [login]. *)
Record Server := {
  server_connection : Connection;
  server_login : string → string → Result unit }.

(** Lines 30-32: the [try] block of [connect].  The handler comes back
    with the method's assignment to [self.connection], also when a later
    line raises. *)
Definition connect_try (IMAP4_SSL : string → string → Result Server)
    (self : IMAPHandler) : Result unit * IMAPHandler * list SessionEvent :=
  match getitem (imap_config self) "host" with
  | Raise e => (Raise e, self, [])
  | Ok host =>
  match getitem (imap_config self) "port" with
  | Raise e => (Raise e, self, [])
  | Ok port =>
  match IMAP4_SSL host port with
  | Raise e => (Raise e, self, [SessOpen host port])
  | Ok server =>
  let self' := {| imap_config := imap_config self;
                  connection := Some (server_connection server) |} in
  match getitem (imap_config self) "username" with
  | Raise e => (Raise e, self', [SessOpen host port])
  | Ok username =>
  match getitem (imap_config self) "password" with
  | Raise e => (Raise e, self', [SessOpen host port])
  | Ok password =>
  match server_login server username password with
  | Raise e => (Raise e, self', [SessOpen host port; SessLogin username password])
  | Ok _ => (Ok (), self', [SessOpen host port; SessLogin username password;
                            SessLog INFO ConnectedLine])
  end end end end end end.

(** [IMAPHandler.connect]: only an [imaplib.IMAP4.error], which
    [is_IMAP4_error] recognises, is logged before it goes on to the
    caller. *)
Definition connect (is_IMAP4_error : exn → bool)
    (IMAP4_SSL : string → string → Result Server)
    (self : IMAPHandler) : Result unit * IMAPHandler * list SessionEvent :=
  match connect_try IMAP4_SSL self with
  | (Raise e, self', evs) =>
      if is_IMAP4_error e
      then (Raise e, self', (evs ++ [SessLog ERROR (ConnectFailedLine e)])%list)
      else (Raise e, self', evs)
  | done => done
  end.

(** [IMAPHandler.disconnect].  [close_answer] and [logout_answer] are
    what the server answers to the two commands. *)
Definition disconnect (close_answer logout_answer : Result unit)
    (self : IMAPHandler) : Result unit * list SessionEvent :=
  match connection self with
  | None => (Ok (), [])
  | Some _ =>
      match close_answer with
      | Raise e => (Ok (), [SessClose; SessLog ERROR (DisconnectFailedLine e)])
      | Ok _ =>
          match logout_answer with
          | Raise e =>
              (Ok (), [SessClose; SessLogout; SessLog ERROR (DisconnectFailedLine e)])
          | Ok _ => (Ok (), [SessClose; SessLogout; SessLog INFO DisconnectedLine])
          end
      end
  end.

(* ===================================================================== *)
(** * [LMStudioClient.analyze_text] and [LMStudioClient.health_check]    *)
(* ===================================================================== *)

(** The attributes [LMStudioClient.__init__] sets. *)
Record LMStudioClient := {
  base_url : string;
  api_key : string;
  timeout : Z }.

(** A request as [requests] sends it: the URL, the [Authorization]
    header, the JSON payload of a [post] ([None] for a [get]) and the
    timeout. *)
Record HttpRequest := {
  req_url : string;
  req_authorization : string;
  req_json : option (string * string);
  req_timeout : Z }.

(** A response: its status code and what [response.json()] gives. *)
Record HttpResponse := {
  status_code : Z;
  json : Result (gmap string string) }.

Inductive ClientLine :=
| AnalysisSuccessful (result : gmap string string)
| AnalysisError (e : exn)
| HealthCheckSuccessful
| HealthCheckFailed (e : exn).

Definition HTTPError : exn := OtherException "requests.exceptions.HTTPError".

(** [response.raise_for_status()]: an [HTTPError] for the client and
    server error codes. *)
Definition raise_for_status (response : HttpResponse) : Result unit :=
  if bool_decide (400 ≤ status_code response < 600)%Z
  then Raise HTTPError
  else Ok ().

Section Client.
Variable self : LMStudioClient.

(** What the network does with a request: a response, or an
    exception. *)
Variable send : HttpRequest → Result HttpResponse.

(** [isinstance(e, requests.exceptions.RequestException)] *)
Variable is_RequestException : exn → bool.

Definition request_to (path : string) (payload : option (string * string)) : HttpRequest :=
  {| req_url := base_url self ++ path;
     req_authorization := "Bearer " ++ api_key self;
     req_json := payload;
     req_timeout := timeout self |}.

(** [except requests.exceptions.RequestException as e]: the handler for
    such an exception, none for another. *)
Definition except_RequestException {A} (r : Result A * list (Level * ClientLine))
    (handler : exn → Result A * list (Level * ClientLine))
    : Result A * list (Level * ClientLine) :=
  match r with
  | (Raise e, logged) =>
      if is_RequestException e
      then let '(r', logged') := handler e in (r', (logged ++ logged')%list)
      else (Raise e, logged)
  | done => done
  end.

(** [LMStudioClient.analyze_text] *)
Definition analyze_text (text model : string)
    : Result (gmap string string) * list (Level * ClientLine) :=
  except_RequestException
    (match send (request_to "/analyze" (Some (text, model))) with
     | Raise e => (Raise e, [])
     | Ok response =>
         match raise_for_status response with
         | Raise e => (Raise e, [])
         | Ok _ =>
             match json response with
             | Raise e => (Raise e, [])
             | Ok result => (Ok result, [(INFO, AnalysisSuccessful result)])
             end
         end
     end)
    (λ e, (Raise e, [(ERROR, AnalysisError e)])).

(** [LMStudioClient.health_check] *)
Definition health_check : Result bool * list (Level * ClientLine) :=
  except_RequestException
    (match send (request_to "/health" None) with
     | Raise e => (Raise e, [])
     | Ok response =>
         match raise_for_status response with
         | Raise e => (Raise e, [])
         | Ok _ => (Ok true, [(INFO, HealthCheckSuccessful)])
         end
     end)
    (λ e, (Ok false, [(ERROR, HealthCheckFailed e)])).
End Client.

(* ===================================================================== *)
(** * Further sample inputs                                              *)
(* ===================================================================== *)

(** The workbook at hand lacks the ["Status"] column. *)
Definition ex_short_table : DataFrame :=
  {| df_columns := ["Mail"]; df_rows := [] |}.

Definition ex_short_world : World unit :=
  {| stats := ProcessingStats_init;
     data := None;
     disk := <["contacts.xlsx" := ex_short_table]> ∅;
     trace := [];
     ext := () |}.

(** A message with an image as its only part. *)
Definition ex_image_only : EmailMessage :=
  Multipart (ex_headers "multipart/mixed")
    [Single (ex_headers "image/png") (Some "PNG")].

(** A plain part whose bytes are not UTF-8, followed by an HTML part. *)
Definition ex_undecodable : EmailMessage :=
  Single (ex_headers "text/plain") None.

Definition ex_undecodable_first : EmailMessage :=
  Multipart (ex_headers "multipart/alternative") [ex_undecodable; ex_html].


(** A server that finds two messages and hands out both. *)
Definition ex_conn_ok : Connection :=
  {| conn_select := λ _, Ok "OK";
     conn_search := λ _, Ok ("OK", ["1"; "2"]);
     conn_fetch := λ _, Ok ("OK", Some ex_plain) |}.

(** A configuration file without the ["imap"] and ["user"] groups. *)
Definition ex_startup_incomplete : Startup :=
  {| config_file := Yaml
       {| cfg_excel := Some {| xs_path := Some "contacts.xlsx";
                               xs_backup := None;
                               xs_columns := Some (columns ex_manager);
                               xs_target_columns := Some ["status"] |};
          cfg_imap := None;
          cfg_lm_studio := Some ∅;
          cfg_logging := Some ∅;
          cfg_user := None |};
     environ := ∅ |}.

(** The environment names another workbook than the file does. *)
Definition ex_startup_env : Startup :=
  {| config_file := config_file ex_startup;
     environ := <["EXCEL_FILE_PATH" := "other.xlsx"]> ∅ |}.

Definition ex_initial_env : World unit :=
  {| stats := ProcessingStats_init;
     data := None;
     disk := <["other.xlsx" := ex_table]> ∅;
     trace := [];
     ext := () |}.

(** A mailbox with one thread of two messages, the first one flagged
    processed. *)
Definition ex_flagged : Dict := <["processed" := PBool true]> ex_message.

Definition ex_imap_flagged : ImapObject unit :=
  {| get_email_threads :=
       Some (λ sx, (Ok [{| th_messages := Some [ex_flagged; ex_message];
                           th_context := None |}], sx));
     mark_as_read := Some (λ _ sx, (Ok (), sx)) |}.

(** A mailbox with three threads whose [mark_as_read] loses the
    connection; the first thread holds one message, flagged
    processed. *)
Definition ex_imap_threads_mark_fails : ImapObject unit :=
  {| get_email_threads :=
       Some (λ sx, (Ok [{| th_messages := Some [ex_flagged]; th_context := None |};
                        {| th_messages := Some [ex_flagged; ex_message; ex_message];
                           th_context := None |};
                        {| th_messages := Some [ex_message]; th_context := None |}], sx));
     mark_as_read := mark_as_read ex_imap_mark_fails |}.

(** A wrapped function that fails with a connection error on its first
    [failures] calls. *)
Definition ex_ConnectionError : exn := OtherException "ConnectionError".

Definition ex_flaky (failures : nat) (n : nat) : Result string :=
  if bool_decide (n < failures)%nat then Raise ex_ConnectionError else Ok "done".

(** One connection error, then an exception of another class. *)
Definition ex_flaky_then_invalid (n : nat) : Result string :=
  if bool_decide (n < 1)%nat then Raise ex_ConnectionError
  else Raise (ValueError "bad answer").

Definition ex_retryable (e : exn) : bool := bool_decide (e = ex_ConnectionError).

(** [time.sleep] on a delay counted in seconds. *)
Definition ex_sleep (delay : Z) : Result unit :=
  if bool_decide (delay < 0)%Z
  then Raise (ValueError "sleep length must be non-negative")
  else Ok ().

(** A handler with a full ["imap"] section, and a server that accepts
    or refuses the login. *)
Definition ex_session_handler : IMAPHandler :=
  {| imap_config := <["host" := "imap.example.org"]> (<["port" := "993"]>
                    (<["username" := "me"]> (<["password" := "secret"]> ∅)));
     connection := None |}.

Definition ex_IMAP4_error : exn := OtherException "imaplib.IMAP4.error".

Definition ex_server (accepts : bool) : string → string → Result Server :=
  λ _ _, Ok {| server_connection := ex_conn_ok;
               server_login := λ _ _, if accepts then Ok () else Raise ex_IMAP4_error |}.

Definition ex_is_IMAP4_error (e : exn) : bool := bool_decide (e = ex_IMAP4_error).

(** A client, and a network that answers every request with the given
    status. *)
Definition ex_client : LMStudioClient :=
  {| base_url := "http://localhost:1234"; api_key := "key"; timeout := 30 |}.

Definition ex_send (status : Z) : HttpRequest → Result HttpResponse :=
  λ _, Ok {| status_code := status; json := Ok ex_analysis |}.

Definition ex_is_RequestException (e : exn) : bool := bool_decide (e = HTTPError).
(* ===================================================================== *)
(** * Reasoning about the monad                                          *)
(* ===================================================================== *)

Local Open Scope Z_scope.

Ltac munfold :=
  unfold bind, ret, raise, lift, try_except, log, emit, incr_errors,
    incr_processed_emails, add_updated_rows, set_stats, set_data, set_disk in *.

(** Destructs the first monadic call that blocks a hypothesis. *)
Ltac step_in H :=
  match type of H with
  | context [match ?m ?w with (_, _) => _ end] =>
      let r := fresh "r" in
      let w' := fresh "w" in
      let E := fresh "E" in
      destruct (m w) as [r w'] eqn:E; destruct r
  end.

Section MonadFacts.
Context {Ext : Type}.
Implicit Types w : World Ext.

Lemma bind_ok {A B} (m : M Ext A) (k : A → M Ext B) w a w' :
  m w = (Ok a, w') → bind m k w = k a w'.
Proof. intros H. unfold bind. by rewrite H. Qed.

Lemma bind_raise {A B} (m : M Ext A) (k : A → M Ext B) w e w' :
  m w = (Raise e, w') → bind m k w = (Raise e, w').
Proof. intros H. unfold bind. by rewrite H. Qed.

Lemma try_except_ok {A} (m : M Ext A) h w a w' :
  m w = (Ok a, w') → try_except m h w = (Ok a, w').
Proof. intros H. unfold try_except. by rewrite H. Qed.

Lemma try_except_raise {A} (m : M Ext A) h w e w' :
  m w = (Raise e, w') → try_except m h w = h e w'.
Proof. intros H. unfold try_except. by rewrite H. Qed.

(** A relation between worlds that every iteration respects is
    respected by the loop, however it ends. *)
Lemma for_each_preserves {A} (R : World Ext → World Ext → Prop)
    (body : A → M Ext unit) :
  (∀ w, R w w) →
  (∀ w1 w2 w3, R w1 w2 → R w2 w3 → R w1 w3) →
  ∀ xs,
  (∀ x w r w', x ∈ xs → body x w = (r, w') → R w w') →
  ∀ w r w', for_each xs body w = (r, w') → R w w'.
Proof.
  intros Hrefl Htrans xs. induction xs as [|x xs IH]; intros Hbody w r w' H.
  - cbn in H. unfold ret in H. injection H as <- <-. apply Hrefl.
  - cbn in H. unfold bind in H.
    destruct (body x w) as [[[]|e] w1] eqn:E.
    + eapply Htrans.
      * eapply Hbody; [left | exact E].
      * eapply IH; [|exact H]. intros y v r0 v' Hy. apply Hbody. by right.
    + injection H as <- <-. eapply Hbody; [left | exact E].
Qed.
End MonadFacts.

(* ===================================================================== *)
(** * The tabular store                                                  *)
(* ===================================================================== *)

Section ExcelFacts.
Context {the_lower : StrLower}.
Context {Ext : Type}.
Variable self : ExcelManager.
Implicit Types w : World Ext.

Lemma matching_from_nil i rows col key :
  matching_from i rows col key = [] ↔
  ∀ r, r ∈ rows → lower <$> r !! col ≠ Some key.
Proof.
  revert i. induction rows as [|r rows IH]; intros i; cbn.
  - split; [|done]. intros _ r Hr. by apply elem_of_nil in Hr.
  - case_bool_decide as Hm.
    + split; [done|]. intros H. exfalso. apply (H r); [left | done].
    + rewrite IH. split.
      * intros H r' Hr'. apply elem_of_cons in Hr' as [->|Hr']; auto.
      * intros H r' Hr'. apply H. by right.
Qed.

Lemma matching_from_lookup i rows col key n :
  n ∈ matching_from i rows col key ↔
  ∃ r, rows !! (n - i)%nat = Some r ∧ (i ≤ n)%nat ∧ lower <$> r !! col = Some key.
Proof.
  revert i. induction rows as [|r rows IH]; intros i; cbn.
  - split; [intros H; by apply elem_of_nil in H | intros (r & H & _); done].
  - assert (Hstep : n ∈ matching_from (S i) rows col key ↔
              ∃ r', (r :: rows) !! (n - i)%nat = Some r' ∧ (S i ≤ n)%nat ∧
                    lower <$> r' !! col = Some key).
    { rewrite IH. split; intros (r' & Hl & Hle & Hk); exists r'; split_and!; try done.
      - replace (n - i)%nat with (S (n - S i)) by lia. done.
      - replace (n - i)%nat with (S (n - S i)) in Hl by lia. done. }
    case_bool_decide as Hm.
    + rewrite elem_of_cons, Hstep. split.
      * intros [->|(r' & Hl & Hle & Hk)].
        -- exists r. replace (i - i)%nat with 0%nat by lia. done.
        -- exists r'. split_and!; [done | lia | done].
      * intros (r' & Hl & Hle & Hk).
        destruct (decide (n = i)) as [->|Hne]; [by left | right].
        exists r'. split_and!; [done | lia | done].
    + rewrite Hstep. split.
      * intros (r' & Hl & Hle & Hk). exists r'. split_and!; [done | lia | done].
      * intros (r' & Hl & Hle & Hk).
        destruct (decide (n = i)) as [->|Hne].
        -- replace (i - i)%nat with 0%nat in Hl by lia. cbn in Hl.
           injection Hl as ->. done.
        -- exists r'. split_and!; [done | lia | done].
Qed.

Lemma table_only_refl w : table_only w w.
Proof. by repeat split. Qed.

Lemma table_only_trans w1 w2 w3 :
  table_only w1 w2 → table_only w2 w3 → table_only w1 w3.
Proof.
  intros (?&?&?&?) (?&?&?&?). repeat split; try congruence. auto.
Qed.

Lemma update_cell_table_only analysis index target w r w' :
  update_cell self analysis index target w = (r, w') → table_only w w'.
Proof.
  unfold update_cell. destruct (analysis !! target) as [new|]; munfold.
  - unfold data_at, data_at_set.
    destruct (getitem (columns self) target) as [col|e]; cbn.
    + destruct (data w) as [df|] eqn:Hd; cbn.
      * destruct (at_get df index col) as [old|e]; cbn.
        -- case_decide; cbn.
           ++ rewrite Hd. cbn. intros [= <- <-]. repeat split; cbn; eauto.
           ++ intros [= <- <-]. apply table_only_refl.
        -- intros [= <- <-]. apply table_only_refl.
      * intros [= <- <-]. apply table_only_refl.
    + intros [= <- <-]. apply table_only_refl.
  - intros [= <- <-]. apply table_only_refl.
Qed.

Lemma update_rows_table_only analysis matching w r w' :
  for_each matching (λ index,
    for_each (target_columns self) (update_cell self analysis index)) w = (r, w') →
  table_only w w'.
Proof.
  apply (for_each_preserves table_only);
    [apply table_only_refl | apply table_only_trans |].
  intros index v r0 v' _.
  apply (for_each_preserves table_only);
    [apply table_only_refl | apply table_only_trans |].
  intros target u r1 u' _. apply update_cell_table_only.
Qed.
End ExcelFacts.

Section ExcelClaims.
Context {the_lower : StrLower}.
Context {Ext : Type}.
Variable self : ExcelManager.
Implicit Types w : World Ext.

Lemma at_get_at_set_eq df index col old v :
  at_get df index col = Ok old → at_get (at_set df index col v) index col = Ok v.
Proof.
  unfold at_get, at_set, getitem. cbn. case_decide; [|done].
  rewrite list_lookup_alter, decide_True by done.
  destruct (df_rows df !! index) as [r|]; [|done]. cbn.
  intros _. by rewrite lookup_insert_eq.
Qed.

Lemma at_get_at_set_ne df index col v j d :
  (j, d) ≠ (index, col) →
  at_get (at_set df index col v) j d = at_get df j d.
Proof.
  intros Hne. unfold at_get, at_set, getitem. cbn. case_decide; [|done].
  destruct (decide (j = index)) as [->|Hj].
  - rewrite list_lookup_alter, decide_True by done.
    destruct (df_rows df !! index) as [r|]; [|done]. cbn.
    rewrite lookup_insert_ne; [done|]. congruence.
  - rewrite list_lookup_alter_ne by done. done.
Qed.

(** With a loaded table, a configured mail column and a [str] email
    that some row matches, the [try] block of [update_data] runs
    [update_cell] for every matched row and every configured target
    field, in order, and then adds the number of matched rows. *)
Lemma update_data_try_matched email analysis w df mail k :
  data w = Some df →
  columns self !! "mail" = Some mail →
  mail ∈ df_columns df →
  str_lower email = Ok k →
  matching_rows df mail k ≠ [] →
  update_data_try self email analysis w =
  (for_each (matching_rows df mail k) (λ index,
     for_each (target_columns self) (update_cell self analysis index)) ;;ₘ
   add_updated_rows (Z.of_nat (length (matching_rows df mail k)))) w.
Proof.
  intros Hd Hm Hin Hk Hne. unfold update_data_try, getitem, data_getitem.
  rewrite Hm, Hk. unfold bind at 1, lift at 1. unfold bind at 1.
  rewrite Hd. rewrite decide_True by done. unfold bind at 1, lift at 1.
  destruct (matching_rows df mail k); done.
Qed.

(** A loop whose every pass returns and keeps an invariant returns and
    keeps it. *)
Lemma for_each_returns {A} (I : World Ext → Prop) (xs : list A)
    (body : A → M Ext unit) :
  (∀ x w, x ∈ xs → I w → ∃ w', body x w = (Ok (), w') ∧ I w') →
  ∀ w, I w → ∃ w', for_each xs body w = (Ok (), w') ∧ I w'.
Proof.
  induction xs as [|x xs IH]; intros Hbody w Hw; cbn.
  - by exists w.
  - destruct (Hbody x w) as (w1 & Hx & Hw1); [left | done |].
    rewrite (bind_ok _ _ _ _ _ Hx). apply IH; [|done].
    intros y v Hy. apply Hbody. by right.
Qed.

Lemma at_set_well_formed df index col v :
  well_formed df → well_formed (at_set df index col v).
Proof.
  intros Hwf r c Hr Hc. unfold at_set in *. cbn in *.
  apply list_elem_of_lookup in Hr as [j Hj].
  rewrite list_lookup_alter in Hj. case_decide as Hij.
  - destruct (df_rows df !! index) as [r0|] eqn:Hr0; [|done].
    injection Hj as <-. destruct (decide (col = c)) as [->|Hne].
    + rewrite lookup_insert_eq. by eexists.
    + rewrite lookup_insert_ne by done. eapply Hwf; [|done].
      by eapply list_elem_of_lookup_2.
  - eapply Hwf; [|done]. by eapply list_elem_of_lookup_2.
Qed.

(** One pass of the inner loop returns when the row exists and the
    target field, if the analysis result holds it, is mapped to a column
    of the table. *)
Lemma update_cell_returns analysis cols n index target w :
  (index < n)%nat →
  (is_Some (analysis !! target) →
   ∃ col, columns self !! target = Some col ∧ col ∈ cols) →
  table_shape cols n w →
  ∃ w', update_cell self analysis index target w = (Ok (), w') ∧
        table_shape cols n w'.
Proof.
  intros Hindex Hmapped (df & Hd & Hcols & Hlen & Hwf). unfold update_cell.
  destruct (analysis !! target) as [new|]; [|exists w; split; [done | by exists df]].
  destruct Hmapped as (col & Hcol & Hin); [by eexists|].
  unfold getitem. rewrite Hcol. unfold bind at 1, lift at 1.
  unfold bind at 1, data_at. rewrite Hd. unfold at_get.
  rewrite decide_True by (by rewrite Hcols).
  destruct (lookup_lt_is_Some_2 (df_rows df) index) as [r Hr]; [lia|].
  rewrite Hr. destruct (Hwf r col) as [old Hold];
    [by eapply list_elem_of_lookup_2 | by rewrite Hcols |].
  unfold getitem. rewrite Hold. case_decide.
  - unfold bind at 1, data_at_set. rewrite Hd. eexists. split; [done|].
    exists (at_set df index col new). cbn.
    split_and!; [done | done | by rewrite length_alter | by apply at_set_well_formed].
  - exists w. split; [done | by exists df].
Qed.

(** [update_data] returns normally on a well-formed loaded table with
    the mail column, for a [str] email and a configuration that maps
    every target field the analysis result holds to a column of the
    table. *)
Lemma update_data_returns (E : string) thread analysis w df mail :
  data w = Some df →
  well_formed df →
  columns self !! "mail" = Some mail →
  mail ∈ df_columns df →
  (∀ target, target ∈ target_columns self → is_Some (analysis !! target) →
     ∃ col, columns self !! target = Some col ∧ col ∈ df_columns df) →
  ∃ w', update_data self (PStr E) thread analysis w = (Ok (), w').
Proof.
  intros Hd Hwf Hm Hin Hmapped.
  destruct (decide (matching_rows df mail (lower E) = [])) as [Hnil|Hne].
  { unfold update_data, update_data_try, getitem, data_getitem.
    rewrite Hm. munfold. cbn. rewrite Hd. rewrite decide_True by done.
    rewrite Hnil. by eexists. }
  unfold update_data. unfold bind at 1, emit at 1.
  set (w0 := {| stats := stats w; data := data w; disk := disk w;
                trace := (trace w ++ [EvUpdateData (PStr E)])%list; ext := ext w |}).
  unfold try_except.
  rewrite (update_data_try_matched (PStr E) analysis w0 df mail (lower E)) by done.
  destruct (for_each_returns
              (table_shape (df_columns df) (length (df_rows df)))
              (matching_rows df mail (lower E))
              (λ index, for_each (target_columns self) (update_cell self analysis index)))
    with (w := w0) as (w1 & Hloop & _).
  - intros index v Hindex Hv.
    apply (for_each_returns (table_shape (df_columns df) (length (df_rows df))));
      [|done].
    intros target u Htarget Hu. apply update_cell_returns; [|by auto|done].
    apply matching_from_lookup in Hindex as (r & Hr & _ & _).
    apply lookup_lt_Some in Hr. lia.
  - by exists df.
  - rewrite (bind_ok _ _ _ _ _ Hloop). by eexists.
Qed.

(** C4.  For a loaded table with the configured mail column and an
    email [E] that no row matches (no row's lowercased mail cell is
    the lowercased [E]), [update_data] returns without raising, and
    leaves the table, the counters (so [updated_rows]) and the disk as
    they were; it only logs the warning. *)
Theorem update_data_unknown_email (E : string) thread analysis w df mail :
  data w = Some df →
  columns self !! "mail" = Some mail →
  mail ∈ df_columns df →
  (∀ r, r ∈ df_rows df → lower <$> r !! mail ≠ Some (lower E)) →
  update_data self (PStr E) thread analysis w =
    (Ok (), {| stats := stats w; data := data w; disk := disk w;
               trace := trace w ++ [EvUpdateData (PStr E);
                                    EvLog WARNING (NoMatchingRow (PStr E))];
               ext := ext w |}).
Proof.
  intros Hd Hm Hin Hno.
  apply (matching_from_nil 0) in Hno.
  unfold update_data, update_data_try, getitem, data_getitem, matching_rows.
  rewrite Hm. munfold. cbn. rewrite Hd. rewrite decide_True by done.
  rewrite Hno. cbn. by rewrite <- app_assoc.
Qed.

(** One pass of the inner loop of [update_data], for a row [index] and
    a target field that the analysis result holds and the
    configuration maps to a column of the table: when the new value
    equals the cell, nothing changes (no cell, no log line); when it
    differs, that cell and no other is overwritten with the new value
    and one line is logged with the old and the new value. *)
Lemma update_cell_one_pass
    analysis index target new_value col old_value df w :
  analysis !! target = Some new_value →
  columns self !! target = Some col →
  data w = Some df →
  at_get df index col = Ok old_value →
  (old_value = new_value →
     update_cell self analysis index target w = (Ok (), w)) ∧
  (old_value ≠ new_value →
     update_cell self analysis index target w =
       (Ok (), {| stats := stats w;
                  data := Some (at_set df index col new_value);
                  disk := disk w;
                  trace := trace w ++
                    [EvLog INFO (UpdatedRow index target old_value new_value)];
                  ext := ext w |}) ∧
     at_get (at_set df index col new_value) index col = Ok new_value ∧
     ∀ j d, (j, d) ≠ (index, col) →
       at_get (at_set df index col new_value) j d = at_get df j d).
Proof.
  intros Ha Hc Hd Hold. unfold update_cell, getitem, data_at, data_at_set.
  rewrite Ha, Hc. munfold. cbn. rewrite Hd, Hold. split.
  - intros ->. by rewrite decide_False by auto.
  - intros Hne. rewrite decide_True by done. cbn. rewrite Hd. cbn.
    split_and!; [done | by eapply at_get_at_set_eq |].
    intros j d Hjd. by apply at_get_at_set_ne.
Qed.

(** One pass of the inner loop that returns either leaves the world as
    it is, the cell then holding already the value there is to write,
    or overwrites one cell that held another value and logs the two
    values. *)
Lemma update_cell_pass analysis index target w w' df :
  update_cell self analysis index target w = (Ok (), w') →
  data w = Some df →
  (w' = w ∧
   ∀ new col, analysis !! target = Some new → columns self !! target = Some col →
              at_get df index col = Ok new) ∨
  (∃ col old new,
     analysis !! target = Some new ∧ columns self !! target = Some col ∧
     at_get df index col = Ok old ∧ old ≠ new ∧
     w' = {| stats := stats w;
             data := Some (at_set df index col new);
             disk := disk w;
             trace := trace w ++ [EvLog INFO (UpdatedRow index target old new)];
             ext := ext w |}).
Proof.
  intros Hrun Hd. unfold update_cell in Hrun.
  destruct (analysis !! target) as [new|] eqn:Han.
  - unfold getitem in Hrun. destruct (columns self !! target) as [col|] eqn:Hcol.
    + unfold bind at 1, lift at 1 in Hrun. unfold bind at 1, data_at in Hrun.
      rewrite Hd in Hrun. destruct (at_get df index col) as [old|e] eqn:Hold.
      * case_decide as Hne.
        -- right. exists col, old, new. unfold bind, data_at_set, log, emit in Hrun.
           rewrite Hd in Hrun. cbn in Hrun. injection Hrun as <-. done.
        -- left. injection Hrun as <-. split; [done|].
           intros new' col' [= <-] [= <-]. rewrite Hold. f_equal.
           by destruct (decide (old = new)) as [->|]; [|exfalso; auto].
      * done.
    + unfold bind, lift in Hrun. done.
  - left. injection Hrun as <-. split; [done|]. done.
Qed.

(** C5.  In a call of [update_data] that returns normally, take a
    matched row [index] and a listed target field that the analysis
    result holds and the configuration maps to a column, the only
    listed field written to that column.  When the value of the
    analysis result equals the cell, the cell keeps it and no change of
    it is logged; when it differs, the cell is overwritten with the new
    value and the change is logged, with the old and the new value. *)
Theorem update_data_overwrites_only_changes
    (E : string) thread analysis w w' df mail index target new_value col old_value :
  update_data self (PStr E) thread analysis w = (Ok (), w') →
  data w = Some df →
  columns self !! "mail" = Some mail →
  index ∈ matching_rows df mail (lower E) →
  target ∈ target_columns self →
  analysis !! target = Some new_value →
  columns self !! target = Some col →
  at_get df index col = Ok old_value →
  (∀ t, t ∈ target_columns self → is_Some (analysis !! t) →
        columns self !! t = Some col → t = target) →
  ∃ df' evs, data w' = Some df' ∧ trace w' = (trace w ++ evs)%list ∧
    at_get df' index col = Ok new_value ∧
    (old_value = new_value →
       ∀ o n, EvLog INFO (UpdatedRow index target o n) ∉ evs) ∧
    (old_value ≠ new_value →
       EvLog INFO (UpdatedRow index target old_value new_value) ∈ evs ∧
       ∀ o n, EvLog INFO (UpdatedRow index target o n) ∈ evs →
              o = old_value ∧ n = new_value).
Proof.
  intros Hrun Hd Hm Hindex Htarget Han Hcol Hold Honly.
  set (ev := λ o n, EvLog INFO (UpdatedRow index target o n)).
  (* the pass for [index] and [target] has not run / has run *)
  set (A := λ (df0 : DataFrame) (evs : list Event),
         at_get df0 index col = Ok old_value ∧ ∀ o n, ev o n ∉ evs).
  set (B := λ (df0 : DataFrame) (evs : list Event),
         at_get df0 index col = Ok new_value ∧
         (old_value = new_value → ∀ o n, ev o n ∉ evs) ∧
         (old_value ≠ new_value →
            ev old_value new_value ∈ evs ∧
            ∀ o n, ev o n ∈ evs → o = old_value ∧ n = new_value)).
  set (I := λ (P : DataFrame → list Event → Prop) (u : World Ext),
         ∃ df0 evs, data u = Some df0 ∧ trace u = (trace w ++ evs)%list ∧ P df0 evs).
  set (AB := λ df0 evs, A df0 evs ∨ B df0 evs).
  assert (Hstep : ∀ j t u u', t ∈ target_columns self →
    update_cell self analysis j t u = (Ok (), u') →
    (I AB u → I AB u') ∧ (I B u → I B u') ∧
    (j = index → t = target → I AB u → I B u')).
  { intros j t u u' Ht Hcell.
    assert (Hcases : ∀ P, I P u →
      ∃ df0 evs, data u = Some df0 ∧ trace u = (trace w ++ evs)%list ∧ P df0 evs ∧
        ((u' = u ∧ (j = index → t = target → at_get df0 index col = Ok new_value)) ∨
         (∃ c old new, analysis !! t = Some new ∧ columns self !! t = Some c ∧
            at_get df0 j c = Ok old ∧ old ≠ new ∧
            data u' = Some (at_set df0 j c new) ∧
            trace u' = (trace w ++ evs ++ [EvLog INFO (UpdatedRow j t old new)])%list))).
    { intros P (df0 & evs & Hd0 & Htr & HP). exists df0, evs.
      split_and!; [done | done | done |].
      destruct (update_cell_pass _ _ _ _ _ _ Hcell Hd0)
        as [[-> Hread] | (c & old & new & Han' & Hc' & Hold' & Hne & ->)].
      - left. split; [done|]. intros -> ->. by apply Hread.
      - right. exists c, old, new. cbn. rewrite Htr, <- app_assoc. done. }
    assert (Hwrite : ∀ df0 evs c old new,
      analysis !! t = Some new → columns self !! t = Some c →
      at_get df0 j c = Ok old → old ≠ new →
      (AB df0 evs → AB (at_set df0 j c new)
                       (evs ++ [EvLog INFO (UpdatedRow j t old new)])%list) ∧
      (B df0 evs → B (at_set df0 j c new)
                     (evs ++ [EvLog INFO (UpdatedRow j t old new)])%list) ∧
      (j = index → t = target → AB df0 evs →
         B (at_set df0 j c new) (evs ++ [EvLog INFO (UpdatedRow j t old new)])%list)).
    { intros df0 evs c old new Han' Hc' Hold' Hne.
      destruct (decide ((j, c) = (index, col))) as [[= -> ->]|Hother].
      - (* the cell of [index] and [target] is written *)
        assert (t = target) as -> by (apply Honly; [done | by eexists | done]).
        rewrite Han in Han'. injection Han' as <-.
        assert (HA : A df0 evs → B (at_set df0 index col new_value)
                       (evs ++ [ev old new_value])%list).
        { intros [Hget Hnone]. rewrite Hold' in Hget. injection Hget as ->.
          split; [by eapply at_get_at_set_eq|]. split; [done|]. intros _. split.
          - apply elem_of_app. right. left.
          - intros o n Hin. apply elem_of_app in Hin as [Hin | Hin].
            + by apply Hnone in Hin.
            + apply list_elem_of_singleton in Hin. by injection Hin as -> ->. }
        assert (HB : B df0 evs → False).
        { intros (Hget & _). rewrite Hold' in Hget. by injection Hget. }
        split_and!.
        + intros [HA' | HB']; [right; by apply HA | by destruct HB].
        + intros HB'. by destruct HB.
        + intros _ _ [HA' | HB']; [by apply HA | by destruct HB].
      - (* another cell is written *)
        assert (Hev : ∀ o n, ev o n ∈ (evs ++ [EvLog INFO (UpdatedRow j t old new)])%list ↔
                             ev o n ∈ evs).
        { intros o n. rewrite elem_of_app, list_elem_of_singleton. split; [|by left].
          intros [Hin | Heq]; [done|]. exfalso. unfold ev in Heq.
          injection Heq as <- <- _ _. apply Hother. f_equal. congruence. }
        assert (Hget : at_get (at_set df0 j c new) index col = at_get df0 index col).
        { apply at_get_at_set_ne. congruence. }
        assert (HA : A df0 evs → A (at_set df0 j c new)
                       (evs ++ [EvLog INFO (UpdatedRow j t old new)])%list).
        { intros [Hg Hnone]. split; [by rewrite Hget|]. intros o n. rewrite Hev. apply Hnone. }
        assert (HB : B df0 evs → B (at_set df0 j c new)
                       (evs ++ [EvLog INFO (UpdatedRow j t old new)])%list).
        { intros (Hg & Heq & Hne'). split; [by rewrite Hget|]. split.
          - intros Ho o n. rewrite Hev. by apply Heq.
          - intros Ho. destruct (Hne' Ho) as [Hin Hall]. split; [by apply Hev|].
            intros o n. rewrite Hev. apply Hall. }
        split_and!.
        + intros [HA' | HB']; [left; by apply HA | right; by apply HB].
        + done.
        + intros -> -> _. exfalso. apply Hother. f_equal. congruence. }
    split_and!.
    - intros HI. destruct (Hcases AB HI) as (df0 & evs & Hd0 & Htr & HP & Hc).
      destruct Hc as [[-> _] | (c & old & new & Han' & Hc' & Hold' & Hne & Hd' & Htr')].
      + done.
      + exists (at_set df0 j c new), (evs ++ [EvLog INFO (UpdatedRow j t old new)])%list.
        destruct (Hwrite df0 evs c old new Han' Hc' Hold' Hne) as (Hkeep & _ & _).
        split_and!; [done | done |]. by apply Hkeep.
    - intros HI. destruct (Hcases B HI) as (df0 & evs & Hd0 & Htr & HP & Hc).
      destruct Hc as [[-> _] | (c & old & new & Han' & Hc' & Hold' & Hne & Hd' & Htr')].
      + done.
      + exists (at_set df0 j c new), (evs ++ [EvLog INFO (UpdatedRow j t old new)])%list.
        destruct (Hwrite df0 evs c old new Han' Hc' Hold' Hne) as (_ & Hkeep & _).
        split_and!; [done | done |]. by apply Hkeep.
    - intros Hj Ht' HI. destruct (Hcases AB HI) as (df0 & evs & Hd0 & Htr & HP & Hc).
      destruct Hc as [[-> Hread] | (c & old & new & Han' & Hc' & Hold' & Hne & Hd' & Htr')].
      + exists df0, evs. split_and!; [done | done |].
        specialize (Hread Hj Ht').
        destruct HP as [[Hget Hnone] | HB]; [|done].
        rewrite Hget in Hread. injection Hread as Heq.
        split; [by rewrite Hget, Heq|]. split; [done|]. intros Hne. done.
      + exists (at_set df0 j c new), (evs ++ [EvLog INFO (UpdatedRow j t old new)])%list.
        destruct (Hwrite df0 evs c old new Han' Hc' Hold' Hne) as (_ & _ & Hnew).
        split_and!; [done | done |]. by apply Hnew. }
  (* the loop over the target fields, for one row *)
  assert (Hinner : ∀ j ts, (∀ t, t ∈ ts → t ∈ target_columns self) →
    ∀ u u', for_each ts (update_cell self analysis j) u = (Ok (), u') →
    (I AB u → I AB u') ∧ (I B u → I B u') ∧
    (j = index → target ∈ ts → I AB u → I B u')).
  { intros j ts. induction ts as [|t ts IH]; intros Hts u u' Hloop; cbn in Hloop.
    - injection Hloop as <-. split_and!; [done | done |]. intros _ Hin.
      by apply elem_of_nil in Hin.
    - unfold bind in Hloop.
      destruct (update_cell self analysis j t u) as [[[]|e] u1] eqn:Hcell; [|done].
      destruct (Hstep j t u u1 (Hts t ltac:(left)) Hcell) as (Hab & Hb & Hnew).
      destruct (IH (λ t' Ht', Hts t' ltac:(by right)) u1 u' Hloop) as (Hab' & Hb' & Hnew').
      split_and!; [by auto | by auto |].
      intros Hj Hin HI. apply elem_of_cons in Hin as [<- | Hin].
      + apply Hb'. by apply Hnew.
      + apply Hnew'; [done | done |]. by apply Hab. }
  (* the loop over the matched rows *)
  assert (Houter : ∀ js u u',
    for_each js (λ j, for_each (target_columns self) (update_cell self analysis j)) u
      = (Ok (), u') →
    (I AB u → I AB u') ∧ (I B u → I B u') ∧ (index ∈ js → I AB u → I B u')).
  { intros js. induction js as [|j js IH]; intros u u' Hloop; cbn in Hloop.
    - injection Hloop as <-. split_and!; [done | done |]. intros Hin.
      by apply elem_of_nil in Hin.
    - unfold bind in Hloop.
      destruct (for_each (target_columns self) _ u) as [[[]|e] u1] eqn:Hrow; [|done].
      destruct (Hinner j (target_columns self) (λ t Ht, Ht) u u1 Hrow) as (Hab & Hb & Hnew).
      destruct (IH u1 u' Hloop) as (Hab' & Hb' & Hnew').
      split_and!; [by auto | by auto |].
      intros Hin HI. apply elem_of_cons in Hin as [<- | Hin].
      + apply Hb'. by apply Hnew.
      + apply Hnew'; [done|]. by apply Hab. }
  unfold update_data in Hrun.
  unfold bind at 1, emit at 1 in Hrun. unfold try_except in Hrun.
  set (w0 := {| stats := stats w; data := data w; disk := disk w;
                trace := (trace w ++ [EvUpdateData (PStr E)])%list; ext := ext w |}) in *.
  destruct (update_data_try self (PStr E) analysis w0) as [[[]|e1] w1] eqn:Htry;
    [|munfold; done].
  injection Hrun as <-.
  assert (Hin : mail ∈ df_columns df).
  { destruct (decide (mail ∈ df_columns df)) as [|Hnin]; [done|]. exfalso.
    unfold update_data_try, getitem, data_getitem in Htry.
    rewrite Hm in Htry. munfold. cbn in Htry. rewrite Hd in Htry.
    rewrite decide_False in Htry by done. done. }
  assert (Hne : matching_rows df mail (lower E) ≠ []).
  { intros Hnil. rewrite Hnil in Hindex. by apply elem_of_nil in Hindex. }
  rewrite (update_data_try_matched (PStr E) analysis w0 df mail (lower E)) in Htry by done.
  unfold bind at 1 in Htry.
  destruct (for_each _ _ w0) as [[[]|e] w2] eqn:Hloop; [|done].
  unfold add_updated_rows in Htry. injection Htry as <-.
  destruct (Houter _ _ _ Hloop) as (_ & _ & Hdone).
  destruct Hdone as (df' & evs & Hd' & Htr & Hget & Hsame & Hdiff).
  - done.
  - exists df, [EvUpdateData (PStr E)]. split_and!; [done | done |]. left. split; [done|].
    intros o n Hin'. by apply list_elem_of_singleton in Hin'.
  - exists df', evs. split_and!; done.
Qed.

(** C6.  A call of [update_data] that returns normally and matched at
    least one row has added exactly the number of matched rows to
    [updated_rows] (rows are matched by a key that need not be
    unique), whatever happened to the cells; the other two counters
    are as before. *)
Theorem update_data_counts_matched_rows email thread analysis w w' df mail k :
  update_data self email thread analysis w = (Ok (), w') →
  data w = Some df →
  columns self !! "mail" = Some mail →
  str_lower email = Ok k →
  matching_rows df mail k ≠ [] →
  updated_rows (stats w') =
    updated_rows (stats w) + Z.of_nat (length (matching_rows df mail k)) ∧
  processed_emails (stats w') = processed_emails (stats w) ∧
  errors (stats w') = errors (stats w).
Proof.
  intros Hrun Hd Hm Hk Hne.
  unfold update_data in Hrun.
  unfold bind at 1, emit at 1 in Hrun.
  set (w0 := {| stats := stats w; data := data w; disk := disk w;
                trace := (trace w ++ [EvUpdateData email])%list; ext := ext w |}) in *.
  assert (Hin : mail ∈ df_columns df).
  { destruct (decide (mail ∈ df_columns df)) as [|Hnin]; [done|]. exfalso.
    unfold try_except, update_data_try, getitem, data_getitem in Hrun.
    rewrite Hm in Hrun. munfold. cbn in Hrun. rewrite Hd in Hrun.
    rewrite decide_False in Hrun by done. done. }
  unfold try_except in Hrun.
  rewrite (update_data_try_matched email analysis w0 df mail k) in Hrun by done.
  unfold bind at 1 in Hrun.
  destruct (for_each _ _ w0) as [[[]|e] w1] eqn:Hloop.
  - apply update_rows_table_only in Hloop as (Hs & _).
    unfold add_updated_rows in Hrun. injection Hrun as <-. cbn.
    rewrite Hs. done.
  - munfold. done.
Qed.
End ExcelClaims.

Section ExcelSamples.
(* The sample inputs are ASCII text and are run with [lower_A_Z_only]. *)
#[local] Existing Instance lower_A_Z_only.

Lemma update_data_unknown_email_witness :
  update_data ex_manager (PStr "carol@example.org") ex_thread ex_analysis ex_world =
    (Ok (), {| stats := stats ex_world; data := data ex_world;
               disk := disk ex_world;
               trace := trace ex_world ++
                 [EvUpdateData (PStr "carol@example.org");
                  EvLog WARNING (NoMatchingRow (PStr "carol@example.org"))];
               ext := ext ex_world |}).
Proof.
  apply (update_data_unknown_email ex_manager "carol@example.org" ex_thread
           ex_analysis ex_world ex_table "Mail").
  - reflexivity.
  - reflexivity.
  - left.
  - apply (matching_from_nil 0). vm_compute. reflexivity.
Defined.

Lemma update_data_overwrites_only_changes_witness :
  ∃ df' evs,
    data (update_data ex_manager (PStr "ANN@example.org") ex_thread ex_analysis
            ex_world).2 = Some df' ∧
    trace (update_data ex_manager (PStr "ANN@example.org") ex_thread ex_analysis
             ex_world).2 = (trace ex_world ++ evs)%list ∧
    at_get df' 0 "Status" = Ok "replied" ∧
    EvLog INFO (UpdatedRow 0 "status" "new" "replied") ∈ evs ∧
    at_get df' 2 "Status" = Ok "replied" ∧
    (∀ o n, EvLog INFO (UpdatedRow 2 "status" o n) ∉ evs).
Proof.
  assert (Honly : ∀ t, t ∈ target_columns ex_manager → is_Some (ex_analysis !! t) →
                       columns ex_manager !! t = Some "Status" → t = "status").
  { intros t Ht _ _. by apply list_elem_of_singleton in Ht. }
  destruct (update_data_overwrites_only_changes ex_manager "ANN@example.org" ex_thread
              ex_analysis ex_world
              (update_data ex_manager (PStr "ANN@example.org") ex_thread ex_analysis
                 ex_world).2
              ex_table "Mail" 0 "status" "replied" "Status" "new")
    as (df0 & evs0 & Hd0 & Ht0 & Hcell0 & _ & Hdiff);
    [vm_compute; reflexivity | reflexivity | reflexivity | vm_compute; left | left
    | reflexivity | reflexivity | reflexivity | exact Honly |].
  destruct (update_data_overwrites_only_changes ex_manager "ANN@example.org" ex_thread
              ex_analysis ex_world
              (update_data ex_manager (PStr "ANN@example.org") ex_thread ex_analysis
                 ex_world).2
              ex_table "Mail" 2 "status" "replied" "Status" "replied")
    as (df2 & evs2 & Hd2 & Ht2 & Hcell2 & Hsame & _);
    [vm_compute; reflexivity | reflexivity | reflexivity | vm_compute; right; left | left
    | reflexivity | reflexivity | reflexivity | exact Honly |].
  rewrite Hd0 in Hd2. injection Hd2 as <-.
  rewrite Ht0 in Ht2. apply app_inv_head in Ht2 as <-.
  exists df0, evs0. split_and!; [done | done | done | | done | by apply Hsame].
  apply Hdiff. discriminate.
Defined.

Lemma update_data_counts_matched_rows_witness :
  let w' := (update_data ex_manager (PStr "ANN@example.org") ex_thread
               ex_analysis ex_world).2 in
  updated_rows (stats w') = updated_rows (stats ex_world) + 2 ∧
  processed_emails (stats w') = processed_emails (stats ex_world) ∧
  errors (stats w') = errors (stats ex_world).
Proof.
  cbv zeta.
  edestruct (update_data_counts_matched_rows ex_manager (PStr "ANN@example.org")
               ex_thread ex_analysis ex_world
               (update_data ex_manager (PStr "ANN@example.org") ex_thread
                  ex_analysis ex_world).2 ex_table "Mail" "ann@example.org")
    as (Hupdated & Hprocessed & Herrors).
  - vm_compute. reflexivity.
  - reflexivity.
  - reflexivity.
  - reflexivity.
  - vm_compute. discriminate.
  - split_and!; [exact Hupdated | exact Hprocessed | exact Herrors].
Defined.
End ExcelSamples.

(* ===================================================================== *)
(** * The mailbox client                                                 *)
(* ===================================================================== *)

Section BodyFacts.
Context {Ext : Type}.
Implicit Types w : World Ext.

(** The loop returns the payload of the first part it accepts. *)
Lemma first_text_part_app pre part post :
  (∀ p, p ∈ pre → is_text_part p = false) →
  is_text_part part = true →
  first_text_part (pre ++ part :: post) =
    match decoded_payload part with Ok s => Ok (PStr s) | Raise e => Raise e end.
Proof.
  intros Hpre Hpart. induction pre as [|p pre IH]; cbn.
  - unfold is_text_part in Hpart.
    destruct (inline_of_type "text/plain" part); [done|].
    cbn in Hpart. by rewrite Hpart.
  - assert (Hp : is_text_part p = false) by (apply Hpre; left).
    unfold is_text_part in Hp. apply orb_false_iff in Hp as [-> ->].
    apply IH. intros q Hq. apply Hpre. by right.
Qed.

(** C2, as the code has it.  For a multipart message, [_get_email_body]
    returns the decoded payload of the first part, in the depth-first
    walk, that is a non-attachment [text/plain] or [text/html] part: the
    plain-text body when such a plain part comes before every
    non-attachment HTML part, the HTML body when an HTML part comes
    first. *)
Theorem get_email_body_first_text_part msg pre part post text w :
  is_multipart msg = true →
  walk msg = (pre ++ part :: post)%list →
  (∀ p, p ∈ pre → inline_of_type "text/plain" p = false ∧
                  inline_of_type "text/html" p = false) →
  inline_of_type "text/plain" part = true ∨ inline_of_type "text/html" part = true →
  decoded_payload part = Ok text →
  _get_email_body msg w = (Ok (PStr text), w).
Proof.
  intros Hmulti Hwalk Hpre Hpart Htext.
  unfold _get_email_body. rewrite Hmulti, Hwalk.
  rewrite first_text_part_app, Htext.
  - done.
  - intros p Hp. destruct (Hpre p Hp) as [H1 H2].
    unfold is_text_part. by rewrite H1, H2.
  - unfold is_text_part. destruct Hpart as [-> | ->]; [done | apply orb_true_r].
Qed.

(** [_get_email_body] never raises, and touches nothing but the error
    counter and the log. *)
Lemma get_email_body_returns msg w :
  ∃ v w', _get_email_body msg w = (Ok v, w') ∧
          processed_emails (stats w') = processed_emails (stats w) ∧
          updated_rows (stats w') = updated_rows (stats w) ∧
          errors (stats w) ≤ errors (stats w') ∧
          data w' = data w ∧ disk w' = disk w.
Proof.
  unfold _get_email_body. munfold.
  destruct (is_multipart msg).
  - destruct (first_text_part (walk msg)) as [v|e]; cbn.
    + exists v, w. split_and!; done || lia.
    + eexists _, _. split_and!; [done | done | done | cbn; lia | done | done].
  - destruct (decoded_payload msg) as [s|e]; cbn.
    + exists (PStr s), w. split_and!; done || lia.
    + eexists _, _. split_and!; [done | done | done | cbn; lia | done | done].
Qed.

(** [_parse_email] never raises either. *)
Lemma parse_email_returns msg email_id w :
  ∃ d w', _parse_email msg email_id w = (Ok d, w') ∧
          processed_emails (stats w') = processed_emails (stats w) ∧
          updated_rows (stats w') = updated_rows (stats w) ∧
          errors (stats w) ≤ errors (stats w') ∧
          data w' = data w ∧ disk w' = disk w.
Proof.
  unfold _parse_email. munfold. cbn.
  destruct (get_email_body_returns msg w) as (v & w' & Hb & ?).
  munfold. rewrite Hb. eexists _, w'. split; [done|]. done.
Qed.
End BodyFacts.

Section BodySamples.
(* The sample inputs are ASCII text and are run with [lower_A_Z_only]. *)
#[local] Existing Instance lower_A_Z_only.

Lemma get_email_body_first_text_part_witness :
  _get_email_body ex_plain_first ex_world = (Ok (PStr "plain body"), ex_world).
Proof.
  apply (get_email_body_first_text_part (Ext:=unit) ex_plain_first
           [ex_plain_first] ex_plain [ex_html] "plain body" ex_world).
  - reflexivity.
  - reflexivity.
  - intros p Hp. apply list_elem_of_singleton in Hp as ->. split; reflexivity.
  - left. reflexivity.
  - reflexivity.
Defined.

(** C2 as the specification states it fails: with the HTML part first, both
    parts inline and decodable, the HTML body comes back, not the plain
    one. *)
Lemma get_email_body_html_first :
  is_multipart ex_html_first = true ∧
  ex_plain ∈ walk ex_html_first ∧ ex_html ∈ walk ex_html_first ∧
  inline_of_type "text/plain" ex_plain = true ∧
  inline_of_type "text/html" ex_html = true ∧
  decoded_payload ex_plain = Ok "plain body" ∧
  (_get_email_body ex_html_first ex_world).1 = Ok (PStr "<p>html body</p>") ∧
  (_get_email_body ex_html_first ex_world).1 ≠ Ok (PStr "plain body").
Proof.
  split_and!; try reflexivity.
  - cbn. right; right; left.
  - cbn. right; left.
  - vm_compute. discriminate.
Qed.
End BodySamples.

Section FetchFacts.
Context {the_lower : StrLower}.
Context {Ext : Type}.
Variable self : IMAPHandler.
Implicit Types w : World Ext.

(** The loop adds one to [processed_emails] for every message it
    appends, and only then. *)
Lemma fetch_loop_counts conn failed email_ids :
  ∀ acc w l w',
  fetch_loop (Ext:=Ext) conn failed email_ids acc w = (Ok l, w') →
  processed_emails (stats w') + Z.of_nat (length acc) =
    processed_emails (stats w) + Z.of_nat (length l).
Proof.
  induction email_ids as [|email_id rest IH]; intros acc w l w' H; cbn in H.
  - unfold ret in H. by injection H as <- <-.
  - unfold bind at 1, lift at 1 in H.
    destruct (conn_fetch conn email_id) as [[status fetched]|e]; [|done]. cbn in H.
    case_bool_decide.
    + apply IH in H. cbn in H. done.
    + unfold bind, result_of_option in H.
      destruct fetched as [msg|]; [|done]. cbv beta iota in H.
      destruct (parse_email_returns msg email_id w) as (d & w1 & Hp & Hproc & _).
      rewrite Hp in H. unfold incr_processed_emails in H. cbv beta iota in H.
      apply IH in H. cbn in H. rewrite length_app in H. cbn in H. lia.
Qed.

(** A fetch answered with a status other than [OK] is logged and the
    loop goes on with the next id. *)
Lemma fetch_loop_skips_not_ok conn failed email_id rest acc w status fetched :
  conn_fetch conn email_id = Ok (status, fetched) →
  status ≠ "OK" →
  fetch_loop conn failed (email_id :: rest) acc w =
    fetch_loop conn failed rest acc (logged ERROR (failed email_id) w).
Proof.
  intros Hf Hs. cbn. unfold bind at 1, lift at 1. rewrite Hf. cbn.
  rewrite bool_decide_true by done. done.
Qed.

(** However the loop ends, it has added one to [processed_emails] for
    every message it fetched and parsed. *)
Lemma fetch_loop_counts_fetched conn failed email_ids :
  ∀ acc w r w',
  fetch_loop (Ext:=Ext) conn failed email_ids acc w = (r, w') →
  processed_emails (stats w') =
    processed_emails (stats w) + Z.of_nat (length (fetched_messages conn email_ids)).
Proof.
  induction email_ids as [|email_id rest IH]; intros acc w r w' H; cbn in H |- *.
  - unfold ret in H. injection H as <- <-. lia.
  - unfold bind at 1, lift at 1 in H.
    destruct (conn_fetch conn email_id) as [[status fetched]|e].
    2: { injection H as <- <-. cbn. lia. }
    cbn in H. case_bool_decide as Hstatus.
    + rewrite bool_decide_false by done. apply IH in H. cbn in H. done.
    + rewrite bool_decide_true by (by destruct (decide (status = "OK"))).
      unfold bind, result_of_option in H.
      destruct fetched as [msg|].
      2: { injection H as <- <-. cbn. lia. }
      cbv beta iota in H.
      destruct (parse_email_returns msg email_id w) as (d & w1 & Hp & Hproc & _).
      rewrite Hp in H. unfold incr_processed_emails in H. cbv beta iota in H.
      apply IH in H. cbn in H |- *. lia.
Qed.

(** C10.  A call of [fetch_sent_emails], and likewise of
    [fetch_replies], that gets as far as its search adds one to
    [processed_emails] for every message it fetches and parses, however
    the call ends: the counted messages stay counted when a later fetch
    raises and the call returns the empty list.  When the [try] block
    runs to its end the list returned holds exactly the counted
    messages.  No analysis has taken place; the orchestrator adds to
    the same counter (see [process_message]). *)
Theorem fetch_counts_processed_emails conn w :
  connection self = Some conn →
  (∀ host,
     imap_config self !! "host" = Some host →
     is_Ok (conn_select conn (if contains "gmail" (lower host)
                              then GmailSentMail else Sent)) = true →
     processed_emails (stats (fetch_sent_emails self w).2) =
       processed_emails (stats w) +
       Z.of_nat (length (fetched_messages conn (found_ids (conn_search conn ALL))))) ∧
  (∀ folder sent_email sent_message_id,
     imap_config self !! "folder" = Some folder →
     is_Ok (conn_select conn (Named folder)) = true →
     sent_email !! "message_id" = Some sent_message_id →
     processed_emails (stats (fetch_replies self sent_email w).2) =
       processed_emails (stats w) +
       Z.of_nat (length (fetched_messages conn
                           (found_ids (conn_search conn
                                         (HEADER_References sent_message_id)))))) ∧
  (∀ l w', fetch_sent_emails_try self w = (Ok l, w') →
     fetch_sent_emails self w = (Ok l, w') ∧
     processed_emails (stats w') =
       processed_emails (stats w) + Z.of_nat (length l)) ∧
  (∀ sent_email l w', fetch_replies_try self sent_email w = (Ok l, w') →
     fetch_replies self sent_email w = (Ok l, w') ∧
     processed_emails (stats w') =
       processed_emails (stats w) + Z.of_nat (length l)).
Proof.
  intros Hc. split_and!.
  - intros host Hh Hsel.
    unfold fetch_sent_emails, fetch_sent_emails_try, the_connection, getitem, try_except.
    rewrite Hc, Hh. unfold bind at 1, ret at 1. unfold bind at 1, lift at 1.
    unfold bind at 1, lift at 1.
    destruct (conn_select conn _); [|done].
    unfold bind at 1, lift at 1.
    destruct (conn_search conn ALL) as [[status ids]|e]; cbn; [|lia].
    case_bool_decide as Hstatus.
    + rewrite bool_decide_false by done. cbn. lia.
    + rewrite bool_decide_true by (by destruct (decide (status = "OK"))).
      unfold bind at 1.
      destruct (fetch_loop _ _ _ _ w) as [[sent|e] w1] eqn:Hloop;
        apply fetch_loop_counts_fetched in Hloop; cbn; done.
  - intros folder sent_email mid Hf Hsel Hmid.
    unfold fetch_replies, fetch_replies_try, the_connection, getitem, try_except.
    rewrite Hc, Hf, Hmid. unfold bind at 1, ret at 1. unfold bind at 1, lift at 1.
    unfold bind at 1, lift at 1.
    destruct (conn_select conn _); [|done].
    unfold bind at 1, lift at 1. unfold bind at 1, lift at 1.
    destruct (conn_search conn _) as [[status ids]|e]; cbn; [|lia].
    case_bool_decide as Hstatus.
    + rewrite bool_decide_false by done.
      destruct (sent_email !! "id"); cbn; lia.
    + rewrite bool_decide_true by (by destruct (decide (status = "OK"))).
      unfold bind at 1.
      destruct (fetch_loop _ _ _ _ w) as [[replies|e] w1] eqn:Hloop;
        apply fetch_loop_counts_fetched in Hloop; [|cbn; done].
      unfold bind at 1, lift at 1.
      destruct (sent_email !! "id"); cbn; done.
  - intros l w' H. split; [by apply try_except_ok|].
    unfold fetch_sent_emails_try, the_connection in H. rewrite Hc in H.
    unfold bind at 1, ret at 1 in H. unfold bind at 1, lift at 1 in H.
    destruct (getitem _ "host") as [host|]; [|done].
    unfold bind at 1, lift at 1 in H.
    destruct (conn_select conn _); [|done].
    unfold bind at 1, lift at 1 in H.
    destruct (conn_search conn ALL) as [[status ids]|]; [|done]. cbn in H.
    case_bool_decide.
    + munfold. injection H as <- <-. cbn. lia.
    + unfold bind at 1 in H.
      destruct (fetch_loop _ _ _ _ w) as [[sent|e] w1] eqn:Hloop; [|done].
      apply fetch_loop_counts in Hloop. munfold. injection H as <- <-.
      cbn in *. lia.
  - intros sent_email l w' H. split; [by apply try_except_ok|].
    unfold fetch_replies_try, the_connection in H. rewrite Hc in H.
    unfold bind at 1, ret at 1 in H. unfold bind at 1, lift at 1 in H.
    destruct (getitem _ "folder") as [folder|]; [|done].
    unfold bind at 1, lift at 1 in H.
    destruct (conn_select conn _); [|done].
    unfold bind at 1, lift at 1 in H.
    destruct (getitem sent_email "message_id") as [mid|]; [|done].
    unfold bind at 1, lift at 1 in H.
    destruct (conn_search conn _) as [[status ids]|]; [|done]. cbn in H.
    case_bool_decide.
    + unfold bind at 1, lift at 1 in H.
      destruct (getitem sent_email "id") as [sid|]; [|done].
      munfold. injection H as <- <-. cbn. lia.
    + unfold bind at 1 in H.
      destruct (fetch_loop _ _ _ _ w) as [[replies|e] w1] eqn:Hloop; [|done].
      apply fetch_loop_counts in Hloop.
      unfold bind at 1, lift at 1 in H.
      destruct (getitem sent_email "id") as [sid|]; [|done].
      munfold. injection H as <- <-. cbn in *. lia.
Qed.

(** C7, as the code has it.  Every exception raised inside the [try]
    block of [fetch_sent_emails], and likewise of [fetch_replies], is
    caught: the call returns the empty list, adds one to [errors] and
    logs the exception; no call ever propagates an exception.  A search
    that answers with a status other than [OK] is no such failure: the
    call returns the empty list after a warning and leaves the counters
    as they were; in [fetch_replies] the warning reads
    [sent_email['id']], so without that key the call ends in the
    [except] branch after all. *)
Theorem fetch_catches_exceptions w :
  (∀ e w1, fetch_sent_emails_try self w = (Raise e, w1) →
     fetch_sent_emails self w = (Ok [], after_except (ErrorFetchingSent e) w1)) ∧
  (∀ sent_email e w1, fetch_replies_try self sent_email w = (Raise e, w1) →
     fetch_replies self sent_email w =
       (Ok [], after_except (ErrorFetchingReplies e) w1)) ∧
  (∃ l w', fetch_sent_emails self w = (Ok l, w')) ∧
  (∀ sent_email, ∃ l w', fetch_replies self sent_email w = (Ok l, w')) ∧
  (∀ conn host status ids,
     connection self = Some conn →
     imap_config self !! "host" = Some host →
     is_Ok (conn_select conn (if contains "gmail" (lower host)
                              then GmailSentMail else Sent)) = true →
     conn_search conn ALL = Ok (status, ids) →
     status ≠ "OK" →
     fetch_sent_emails self w = (Ok [], logged WARNING NoSentEmails w)) ∧
  (∀ conn folder sent_email sent_message_id status ids,
     connection self = Some conn →
     imap_config self !! "folder" = Some folder →
     is_Ok (conn_select conn (Named folder)) = true →
     sent_email !! "message_id" = Some sent_message_id →
     conn_search conn (HEADER_References sent_message_id) = Ok (status, ids) →
     status ≠ "OK" →
     fetch_replies self sent_email w =
       match sent_email !! "id" with
       | Some sent_id => (Ok [], logged WARNING (NoReplies sent_id) w)
       | None => (Ok [], after_except (ErrorFetchingReplies (KeyError "id")) w)
       end).
Proof.
  split_and!.
  - intros e w1 H. unfold fetch_sent_emails. rewrite (try_except_raise _ _ _ _ _ H).
    done.
  - intros sent_email e w1 H. unfold fetch_replies.
    rewrite (try_except_raise _ _ _ _ _ H). done.
  - unfold fetch_sent_emails, try_except.
    destruct (fetch_sent_emails_try self w) as [[l|e] w1]; munfold; eauto.
  - intros sent_email. unfold fetch_replies, try_except.
    destruct (fetch_replies_try self sent_email w) as [[l|e] w1]; munfold; eauto.
  - intros conn host status ids Hc Hh Hsel Hsearch Hstatus.
    unfold fetch_sent_emails, fetch_sent_emails_try, the_connection, getitem.
    rewrite Hc, Hh. munfold. cbn.
    destruct (conn_select conn _); [|done].
    rewrite Hsearch. cbn. rewrite bool_decide_true by done. done.
  - intros conn folder sent_email mid status ids Hc Hf Hsel Hmid Hsearch Hstatus.
    unfold fetch_replies, fetch_replies_try, the_connection, getitem.
    rewrite Hc, Hf, Hmid. munfold. cbn.
    destruct (conn_select conn _); [|done].
    rewrite Hsearch. cbn. rewrite bool_decide_true by done.
    destruct (sent_email !! "id"); done.
Qed.
End FetchFacts.

Section FetchSamples.
(* The sample inputs are ASCII text and are run with [lower_A_Z_only]. *)
#[local] Existing Instance lower_A_Z_only.

Lemma fetch_counts_processed_emails_witness :
  (let run := fetch_sent_emails (ex_handler (Some ex_conn_fetch_raises)) ex_world in
   run.1 = Ok [] ∧
   processed_emails (stats run.2) = processed_emails (stats ex_world) + 1) ∧
  (let run := fetch_replies (ex_handler (Some ex_conn_fetch_no)) ex_sent_email ex_world in
   processed_emails (stats run.2) = processed_emails (stats ex_world) + 1).
Proof.
  destruct (fetch_counts_processed_emails (Ext:=unit)
              (ex_handler (Some ex_conn_fetch_raises)) ex_conn_fetch_raises ex_world
              eq_refl) as (Hsent & _).
  destruct (fetch_counts_processed_emails (Ext:=unit)
              (ex_handler (Some ex_conn_fetch_no)) ex_conn_fetch_no ex_world
              eq_refl) as (_ & Hreplies & _).
  cbv zeta. split_and!.
  - vm_compute. reflexivity.
  - exact (Hsent "imap.example.org" eq_refl eq_refl).
  - exact (Hreplies "INBOX" ex_sent_email (PStr "<7@example.org>") eq_refl eq_refl eq_refl).
Defined.

Lemma fetch_catches_exceptions_witness :
  fetch_sent_emails (ex_handler (Some ex_conn_fetch_raises)) ex_world =
    (Ok [], after_except (ErrorFetchingSent (OtherException "imaplib.IMAP4.abort"))
              (fetch_sent_emails_try (ex_handler (Some ex_conn_fetch_raises)) ex_world).2) ∧
  (after_except (ErrorFetchingSent (OtherException "imaplib.IMAP4.abort"))
     (fetch_sent_emails_try (ex_handler (Some ex_conn_fetch_raises)) ex_world).2).(stats) =
    {| processed_emails := 1; updated_rows := 0; errors := 1 |} ∧
  fetch_replies (ex_handler (Some ex_conn_search_no)) ex_sent_email ex_world =
    (Ok [], logged WARNING (NoReplies (PStr "7")) ex_world) ∧
  fetch_replies (ex_handler (Some ex_conn_search_no))
    (<["message_id" := PStr "<7@example.org>"]> ∅) ex_world =
    (Ok [], after_except (ErrorFetchingReplies (KeyError "id")) ex_world).
Proof.
  destruct (fetch_catches_exceptions (Ext:=unit)
              (ex_handler (Some ex_conn_fetch_raises)) ex_world) as [Hsent _].
  destruct (fetch_catches_exceptions (Ext:=unit)
              (ex_handler (Some ex_conn_search_no)) ex_world)
    as (_ & _ & _ & _ & _ & Hreplies).
  split_and!.
  - apply Hsent. vm_compute. reflexivity.
  - reflexivity.
  - exact (Hreplies ex_conn_search_no "INBOX" ex_sent_email (PStr "<7@example.org>")
             "NO" [] eq_refl eq_refl eq_refl eq_refl eq_refl ltac:(discriminate)).
  - exact (Hreplies ex_conn_search_no "INBOX" (<["message_id" := PStr "<7@example.org>"]> ∅)
             (PStr "<7@example.org>") "NO" [] eq_refl eq_refl eq_refl eq_refl eq_refl
             ltac:(discriminate)).
Defined.

(** C7 as the specification states it fails on the status answers.  A search
    answered [NO] gives the empty list with [errors] as it was; a fetch
    answered [NO] for one message of two gives a list that is not
    empty, again with [errors] as it was. *)
Lemma fetch_not_ok_status_counts_no_error :
  (let run := fetch_sent_emails (ex_handler (Some ex_conn_search_no)) ex_world in
   run.1 = Ok [] ∧ errors (stats run.2) = errors (stats ex_world) ∧
   errors (stats run.2) ≠ errors (stats ex_world) + 1) ∧
  (let run := fetch_replies (ex_handler (Some ex_conn_search_no)) ex_sent_email ex_world in
   run.1 = Ok [] ∧ errors (stats run.2) = errors (stats ex_world)) ∧
  (let run := fetch_sent_emails (ex_handler (Some ex_conn_fetch_no)) ex_world in
   run.1 ≠ Ok [] ∧ errors (stats run.2) = errors (stats ex_world) ∧
   EvLog ERROR (FailedFetch "1") ∈ trace run.2).
Proof.
  assert (E : trace (fetch_sent_emails (ex_handler (Some ex_conn_fetch_no)) ex_world).2 =
              [EvLog ERROR (FailedFetch "1"); EvLog INFO (FetchedSent 1)])
    by (vm_compute; reflexivity).
  cbv zeta. rewrite E. clear E.
  split_and!; try (vm_compute; reflexivity); try (vm_compute; discriminate).
  left.
Qed.
End FetchSamples.

(* ===================================================================== *)
(** * Backup rotation                                                    *)
(* ===================================================================== *)

(** The age is the number of whole days elapsed. *)
Lemma file_age_days_spec now mtime d :
  file_age_days now mtime = d ↔
  d * microseconds_per_day ≤ now - mtime < (d + 1) * microseconds_per_day.
Proof.
  unfold file_age_days, microseconds_per_day. split.
  - intros <-. pose proof (Z.div_mod (now - mtime) (86400 * 1000000)).
    pose proof (Z.mod_pos_bound (now - mtime) (86400 * 1000000)). lia.
  - intros H. symmetry. apply (Z.div_unique_pos _ _ d (now - mtime - d * (86400 * 1000000))); lia.
Qed.

Lemma cleanup_from_kept self clock entries :
  ∀ i entry,
  entry ∈ (cleanup_from self clock i entries).1 ↔
  ∃ j, entries !! j = Some entry ∧
       ¬ (entry_is_file entry = true ∧
          backup_keep_days self <
            file_age_days (clock (i + j)%nat) (entry_mtime entry)).
Proof.
  induction entries as [|e entries IH]; intros i entry; cbn.
  - split; [intros H; by apply elem_of_nil in H | intros (j & H & _); done].
  - destruct (cleanup_from self clock (S i) entries) as [kept logged] eqn:E.
    specialize (IH (S i) entry). rewrite E in IH. cbn in IH.
    assert (Htail : entry ∈ kept ↔
              ∃ j, (e :: entries) !! S j = Some entry ∧
                   ¬ (entry_is_file entry = true ∧
                      backup_keep_days self <
                        file_age_days (clock (i + S j)%nat) (entry_mtime entry))).
    { rewrite IH. split; intros (j & Hj & Hold); exists j; split; try done.
      - by replace (i + S j)%nat with (S i + j)%nat by lia.
      - by replace (i + S j)%nat with (S i + j)%nat in Hold by lia. }
    assert (Hsplit : ∀ P : nat → Prop, (∃ j, P j) ↔ P 0%nat ∨ ∃ j, P (S j)).
    { intros P. split.
      - intros ([|j] & Hj); [by left | right; by exists j].
      - intros [H0 | (j & Hj)]; [by exists 0%nat | by exists (S j)]. }
    rewrite (Hsplit (λ j, _ !! j = Some entry ∧ _)). rewrite <- Htail. cbn.
    replace (i + 0)%nat with i by lia.
    destruct (entry_is_file e) eqn:Hfile.
    + case_bool_decide as Hold; cbn.
      * split; [by right|]. intros [[[= <-] Hkeep] | H]; [|done].
        exfalso. apply Hkeep. done.
      * rewrite elem_of_cons. split.
        -- intros [-> | H]; [left | by right]. split; [done|]. intros [_ H]. done.
        -- intros [[[= <-] _] | H]; [by left | by right].
    + cbn. rewrite elem_of_cons. split.
      * intros [-> | H]; [left | by right]. split; [done|].
        intros [H _]. congruence.
      * intros [[[= <-] _] | H]; [by left | by right].
Qed.

(** C9.  [cleanup_old_backups] removes from the backup folder exactly
    the files whose age in whole days since last modification is
    strictly greater than [keep_days]: an entry of the folder is still
    there afterwards if and only if it is not such a file, so every
    file of age at most [keep_days] is kept; and nothing appears that
    was not there. *)
Theorem cleanup_old_backups_deletes_exactly_old_files self clock backup_dir k entry :
  NoDup (entry_name <$> backup_dir) →
  backup_dir !! k = Some entry →
  (entry ∈ (cleanup_old_backups self clock backup_dir).1 ↔
   ¬ (entry_is_file entry = true ∧
      backup_keep_days self < file_age_days (clock k) (entry_mtime entry))) ∧
  (∀ e, e ∈ (cleanup_old_backups self clock backup_dir).1 → e ∈ backup_dir).
Proof.
  intros Hnodup Hk. unfold cleanup_old_backups. split.
  - rewrite cleanup_from_kept. cbn. split.
    + intros (j & Hj & Hkeep).
      assert (j = k) as ->; [|done].
      eapply NoDup_lookup; [exact Hnodup | |].
      * rewrite list_lookup_fmap, Hj. done.
      * rewrite list_lookup_fmap, Hk. done.
    + intros Hkeep. by exists k.
  - intros e He. apply cleanup_from_kept in He as (j & Hj & _).
    by eapply list_elem_of_lookup_2.
Qed.

Lemma cleanup_old_backups_deletes_exactly_old_files_witness :
  let old := {| entry_name := "contacts_backup_1.xlsx"; entry_is_file := true;
                entry_mtime := 92 * day - 3600 * 1000000 |} in
  let recent := {| entry_name := "contacts_backup_2.xlsx"; entry_is_file := true;
                   entry_mtime := 92 * day + 3600 * 1000000 |} in
  file_age_days (ex_clock 0) (entry_mtime old) = 8 ∧
  (old ∉ (cleanup_old_backups ex_manager ex_clock ex_backup_dir).1) ∧
  file_age_days (ex_clock 1) (entry_mtime recent) = 7 ∧
  recent ∈ (cleanup_old_backups ex_manager ex_clock ex_backup_dir).1.
Proof.
  cbv zeta.
  assert (Hnodup : NoDup (entry_name <$> ex_backup_dir)).
  { cbn. repeat (apply NoDup_cons; split;
      [rewrite ?elem_of_cons, elem_of_nil; intros H; decompose [or] H; done|]).
    apply NoDup_nil_2. }
  split_and!.
  - reflexivity.
  - destruct (cleanup_old_backups_deletes_exactly_old_files ex_manager ex_clock
                ex_backup_dir 0 _ Hnodup eq_refl) as [Hiff _].
    rewrite Hiff. intros H. apply H. split; [reflexivity|]. vm_compute. reflexivity.
  - reflexivity.
  - destruct (cleanup_old_backups_deletes_exactly_old_files ex_manager ex_clock
                ex_backup_dir 1 _ Hnodup eq_refl) as [Hiff _].
    rewrite Hiff. intros [_ H]. vm_compute in H. discriminate.
Defined.

(* ===================================================================== *)
(** * Runs that do not save                                              *)
(* ===================================================================== *)

Section QuietFacts.
Context {the_lower : StrLower}.
Context {Ext : Type}.
Implicit Types w : World Ext.

Lemma quiet_refl w : quiet w w.
Proof. split; [done|]. exists []. by rewrite app_nil_r. Qed.

Lemma quiet_trans w1 w2 w3 : quiet w1 w2 → quiet w2 w3 → quiet w1 w3.
Proof.
  intros (Hd1 & evs1 & Ht1 & Hf1) (Hd2 & evs2 & Ht2 & Hf2). split; [congruence|].
  exists (evs1 ++ evs2)%list. split.
  - by rewrite Ht2, Ht1, app_assoc.
  - by apply Forall_app.
Qed.

Lemma Quiet_ret {A} (a : A) : Quiet (Ext:=Ext) (ret a).
Proof. intros w r w' [= <- <-]. apply quiet_refl. Qed.

Lemma Quiet_raise {A} e : Quiet (Ext:=Ext) (A:=A) (raise e).
Proof. intros w r w' [= <- <-]. apply quiet_refl. Qed.

Lemma Quiet_lift {A} (x : Result A) : Quiet (Ext:=Ext) (lift x).
Proof. intros w r w' [= <- <-]. apply quiet_refl. Qed.

Lemma Quiet_bind {A B} (m : M Ext A) (k : A → M Ext B) :
  Quiet m → (∀ a, Quiet (k a)) → Quiet (bind m k).
Proof.
  intros Hm Hk w r w' H. unfold bind in H.
  destruct (m w) as [[a|e] w1] eqn:E.
  - eapply quiet_trans; [eapply Hm, E | eapply Hk, H].
  - injection H as <- <-. eapply Hm, E.
Qed.

Lemma Quiet_try_except {A} (m : M Ext A) h :
  Quiet m → (∀ e, Quiet (h e)) → Quiet (try_except m h).
Proof.
  intros Hm Hh w r w' H. unfold try_except in H.
  destruct (m w) as [[a|e] w1] eqn:E.
  - injection H as <- <-. eapply Hm, E.
  - eapply quiet_trans; [eapply Hm, E | eapply Hh, H].
Qed.

Lemma Quiet_for_each {A} (xs : list A) (body : A → M Ext unit) :
  (∀ x, Quiet (body x)) → Quiet (for_each xs body).
Proof.
  intros Hbody. induction xs as [|x xs IH]; cbn.
  - apply Quiet_ret.
  - apply Quiet_bind; [apply Hbody | intros _; apply IH].
Qed.

Lemma Quiet_emit ev : is_save ev = false → Quiet (Ext:=Ext) (emit ev).
Proof.
  intros Hev w r w' [= <- <-]. split; [done|]. exists [ev]. split; [done|].
  by apply Forall_singleton.
Qed.

Lemma Quiet_log lvl line : Quiet (Ext:=Ext) (log lvl line).
Proof. by apply Quiet_emit. Qed.

(** An action that leaves the disk and the trace alone. *)
Lemma Quiet_silent {A} (m : M Ext A) :
  (∀ w r w', m w = (r, w') → disk w' = disk w ∧ trace w' = trace w) → Quiet m.
Proof.
  intros Hm w r w' H. destruct (Hm w r w' H) as [Hd Ht]. split; [done|].
  exists []. by rewrite app_nil_r.
Qed.

Lemma Quiet_incr_errors : Quiet (Ext:=Ext) incr_errors.
Proof. apply Quiet_silent. by intros w r w' [= <- <-]. Qed.

Lemma Quiet_incr_processed_emails : Quiet (Ext:=Ext) incr_processed_emails.
Proof. apply Quiet_silent. by intros w r w' [= <- <-]. Qed.

Lemma Quiet_add_updated_rows n : Quiet (Ext:=Ext) (add_updated_rows n).
Proof. apply Quiet_silent. by intros w r w' [= <- <-]. Qed.

Lemma Quiet_call {A} (method : Service Ext A) : Quiet (call method).
Proof.
  apply Quiet_silent. intros w r w'. unfold call.
  destruct (method (stats w, ext w)) as [r0 [s x]]. by intros [= <- <-].
Qed.

Lemma Quiet_request {A} (method : Request Ext A) : Quiet (request method).
Proof.
  apply Quiet_silent. intros w r w'. unfold request.
  destruct (method (ext w)) as [r0 x]. by intros [= <- <-].
Qed.

Lemma Quiet_key {A} name (o : option A) : Quiet (Ext:=Ext) (key name o).
Proof. destruct o; [apply Quiet_ret | apply Quiet_raise]. Qed.

Lemma Quiet_getattr {A} name (o : option A) : Quiet (Ext:=Ext) (getattr name o).
Proof. destruct o; [apply Quiet_ret | apply Quiet_raise]. Qed.

Lemma Quiet_data_getitem col : Quiet (Ext:=Ext) (data_getitem col).
Proof.
  apply Quiet_silent. intros w r w'. unfold data_getitem.
  destruct (data w); [case_decide|]; by intros [= <- <-].
Qed.

Lemma Quiet_data_at index col : Quiet (Ext:=Ext) (data_at index col).
Proof.
  apply Quiet_silent. intros w r w'. unfold data_at.
  destruct (data w); by intros [= <- <-].
Qed.

Lemma Quiet_data_at_set index col v : Quiet (Ext:=Ext) (data_at_set index col v).
Proof.
  apply Quiet_silent. intros w r w'. unfold data_at_set.
  destruct (data w); by intros [= <- <-].
Qed.

Lemma Quiet_read_excel self : Quiet (Ext:=Ext) (read_excel self).
Proof.
  apply Quiet_silent. intros w r w'. unfold read_excel.
  destruct (disk w !! file_path self); by intros [= <- <-].
Qed.
End QuietFacts.

Create HintDb quiet.

#[local] Hint Resolve Quiet_ret Quiet_raise Quiet_lift Quiet_log Quiet_incr_errors
  Quiet_incr_processed_emails Quiet_add_updated_rows Quiet_call Quiet_request
  Quiet_key Quiet_getattr Quiet_data_getitem Quiet_data_at Quiet_data_at_set
  Quiet_read_excel : quiet.

(** Splits a composite action into its calls. *)
Ltac quiet_step :=
  first
    [ solve [eauto with quiet]
    | apply Quiet_emit; reflexivity
    | apply Quiet_bind; [|intros ?]
    | apply Quiet_try_except; [|intros ?]
    | apply Quiet_for_each; intros ?
    | match goal with
      | |- Quiet (match ?x with _ => _ end) => destruct x
      | |- Quiet (if ?x then _ else _) => destruct x
      end ].

Ltac solve_quiet := repeat quiet_step.

Section QuietProgram.
Context {the_lower : StrLower}.
Context {Ext : Type}.
Variable imap_handler : ImapObject Ext.
Variable lm_studio_client : LMObject Ext.
Implicit Types w : World Ext.

Lemma Quiet_update_data self email thread analysis :
  Quiet (Ext:=Ext) (update_data self email thread analysis).
Proof.
  unfold update_data, update_data_try. solve_quiet.
  all: unfold update_cell; solve_quiet.
Qed.

Lemma Quiet_check_structure self : Quiet (Ext:=Ext) (check_structure self).
Proof.
  intros w r w'. unfold check_structure.
  destruct (disk w !! file_path self) as [file|].
  - revert w r w'. change (Quiet (Ext:=Ext)
      (log INFO (ExcelFound (file_path self)) ;;ₘ
       match filter (λ c, c ∉ df_columns file) (map_to_list (columns self)).*2 with
       | [] => log INFO StructureValid
       | _ => raise (ValueError "Missing required columns in Excel file")
       end)).
    solve_quiet.
  - intros [= <- <-]. apply quiet_refl.
Qed.

Lemma Quiet_load_data self : Quiet (Ext:=Ext) (load_data self).
Proof.
  unfold load_data. solve_quiet.
  apply Quiet_silent. by intros w r w' [= <- <-].
Qed.

Lemma Quiet_load_config start : Quiet (Ext:=Ext) (load_config start).
Proof.
  unfold load_config. destruct (config_file start) as [| |config]; solve_quiet.
  apply Quiet_silent. intros w r w'. case_match; by intros [= <- <-].
Qed.

Lemma Quiet_main_setup start : Quiet (Ext:=Ext) (main_setup start).
Proof.
  unfold main_setup, ExcelManager_init, IMAPHandler_init, LMStudioClient_init.
  pose proof Quiet_load_config. pose proof Quiet_check_structure.
  pose proof Quiet_load_data.
  solve_quiet.
  all: apply Quiet_silent; by intros w r w' [= <- <-].
Qed.

Lemma Quiet_process_message excel thread message :
  Quiet (process_message imap_handler lm_studio_client excel thread message).
Proof.
  unfold process_message. pose proof Quiet_update_data. solve_quiet.
Qed.

Lemma Quiet_process_emails excel :
  Quiet (process_emails imap_handler lm_studio_client excel).
Proof.
  unfold process_emails, process_emails_try. pose proof Quiet_process_message.
  solve_quiet.
Qed.
End QuietProgram.

(* ===================================================================== *)
(** * The orchestrator and [main]                                        *)
(* ===================================================================== *)

Lemma not_save_not_in (evs : list Event) :
  Forall (λ ev, is_save ev = false) evs → EvSaveData ∉ evs.
Proof.
  intros Hall Hin. rewrite Forall_forall in Hall. by apply Hall in Hin.
Qed.

Section Orchestrator.
Context {the_lower : StrLower}.
Context {Ext : Type}.
Variable imap_handler : ImapObject Ext.
Variable lm_studio_client : LMObject Ext.
Implicit Types w : World Ext.

(** The [except] branch of [process_emails]. *)
Lemma process_emails_reraises excel w e w2 :
  process_emails_try imap_handler lm_studio_client excel (entered w) = (Raise e, w2) →
  process_emails imap_handler lm_studio_client excel w =
    (Raise e, after_except (ErrorDuringProcessing e) w2).
Proof.
  intros H. unfold process_emails.
  unfold bind at 1, log at 1, emit at 1. unfold bind at 1, log at 1, emit at 1.
  unfold try_except. unfold entered, logged, emitted in H. cbn in *. rewrite H.
  done.
Qed.

(** [main] gets the exception of [process_emails] and exits with 1. *)
Lemma main_with_process_emails_raises start w excel w1 e w2 :
  main_setup start (started w) = (Ok excel, w1) →
  process_emails imap_handler lm_studio_client excel w1 = (Raise e, w2) →
  main_with imap_handler lm_studio_client start w =
    (1, if is_FileNotFoundError e then logged CRITICAL (CriticalError e) w2
        else logged ERROR (UnexpectedError e) w2).
Proof.
  intros Hsetup Hproc. unfold main_with.
  unfold bind at 1, log at 1, emit at 1. unfold bind at 1.
  unfold set_stats at 1. cbn [stats data disk trace ext].
  change {| stats := ProcessingStats_init; data := data w; disk := disk w;
            trace := (trace w ++ [EvLog INFO LoggingInitialized])%list;
            ext := ext w |} with (started w).
  unfold try_except, main_try. rewrite (bind_ok _ _ _ _ _ Hsetup).
  rewrite (bind_raise _ _ _ _ _ Hproc).
  destruct (is_FileNotFoundError e); done.
Qed.

(** Up to a raise in [process_emails], and through the line [main] logs
    for it, a run saves nothing. *)
Lemma raise_path_quiet start w excel w1 e w2 lvl line :
  main_setup start (started w) = (Ok excel, w1) →
  process_emails imap_handler lm_studio_client excel w1 = (Raise e, w2) →
  quiet w (logged lvl line w2).
Proof.
  intros Hsetup Hproc.
  apply quiet_trans with (started w).
  { split; [done|]. exists [EvLog INFO LoggingInitialized]. split; [done|].
    by apply Forall_singleton. }
  apply quiet_trans with w1; [by eapply Quiet_main_setup|].
  apply quiet_trans with w2; [by eapply Quiet_process_emails|].
  split; [done|]. exists [EvLog lvl line]. split; [done|]. by apply Forall_singleton.
Qed.

(** C8.  When [main] has reached [process_emails] and an exception is
    raised inside its [try] block, [process_emails] counts one error,
    logs and re-raises the same exception; [main] then exits with code
    1, [save_data] is never entered and the disk, so the workbook file,
    is as it was before the run. *)
Theorem process_emails_exception_aborts_without_saving start w excel w1 e w2 :
  main_setup start (started w) = (Ok excel, w1) →
  process_emails_try imap_handler lm_studio_client excel (entered w1) = (Raise e, w2) →
  process_emails imap_handler lm_studio_client excel w1 =
    (Raise e, after_except (ErrorDuringProcessing e) w2) ∧
  errors (stats (after_except (ErrorDuringProcessing e) w2)) = errors (stats w2) + 1 ∧
  (main_with imap_handler lm_studio_client start w).1 = 1 ∧
  disk (main_with imap_handler lm_studio_client start w).2 = disk w ∧
  ∃ evs, trace (main_with imap_handler lm_studio_client start w).2 = (trace w ++ evs)%list ∧
         EvSaveData ∉ evs.
Proof.
  intros Hsetup Htry.
  pose proof (process_emails_reraises excel w1 e w2 Htry) as Hproc.
  split; [exact Hproc|]. split; [done|].
  rewrite (main_with_process_emails_raises start w excel w1 e _ Hsetup Hproc).
  split; [done|].
  assert (Hq : quiet w (if is_FileNotFoundError e
                        then logged CRITICAL (CriticalError e)
                               (after_except (ErrorDuringProcessing e) w2)
                        else logged ERROR (UnexpectedError e)
                               (after_except (ErrorDuringProcessing e) w2))).
  { destruct (is_FileNotFoundError e); by eapply raise_path_quiet. }
  destruct Hq as (Hdisk & evs & Htrace & Hall).
  split; [exact Hdisk|]. exists evs. split; [exact Htrace|].
  by apply not_save_not_in.
Qed.

End Orchestrator.

Section Repository.
Context {the_lower : StrLower}.
Context {Ext : Type}.
Implicit Types w : World Ext.

(** With an [IMAPHandler] the [try] block of [process_emails] stops at
    its first attribute lookup. *)
Lemma process_emails_try_attribute_error (lm : LMObject Ext) excel w :
  process_emails_try IMAPHandler_object lm excel w =
    (Raise (AttributeError "get_email_threads"), w).
Proof. reflexivity. Qed.

(** When everything before [process_emails] raises, [main] exits with
    code 1 as well. *)
Lemma main_with_setup_raises (imap : ImapObject Ext) (lm : LMObject Ext) start w e w1 :
  main_setup start (started w) = (Raise e, w1) →
  (main_with imap lm start w).1 = 1.
Proof.
  intros Hsetup. unfold main_with.
  unfold bind at 1, log at 1, emit at 1. unfold bind at 1.
  unfold set_stats at 1. cbn [stats data disk trace ext].
  change {| stats := ProcessingStats_init; data := data w; disk := disk w;
            trace := (trace w ++ [EvLog INFO LoggingInitialized])%list;
            ext := ext w |} with (started w).
  unfold try_except, main_try. rewrite (bind_raise _ _ _ _ _ Hsetup).
  unfold bind, raise. destruct (is_FileNotFoundError e); done.
Qed.

(** C1.  Class [IMAPHandler] defines neither [get_email_threads] nor
    [mark_as_read].  So in every run in which [main] reaches
    [process_emails], the lookup of [get_email_threads] raises
    [AttributeError]; the [except] branch of [process_emails] counts one
    error and re-raises; [main] logs it and exits with code 1;
    [save_data] is never entered and the disk is as before.  No run of
    [main] exits with code 0. *)
Theorem main_stops_at_get_email_threads start w :
  (("get_email_threads" ∉ (IMAPHandler_defines ++ IMAPHandler_attributes)%list) ∧
   ("mark_as_read" ∉ (IMAPHandler_defines ++ IMAPHandler_attributes)%list)) ∧
  (get_email_threads (IMAPHandler_object (Ext:=Ext)) = None ∧
   mark_as_read (IMAPHandler_object (Ext:=Ext)) = None) ∧
  (∀ excel w1,
     main_setup start (started w) = (Ok excel, w1) →
     let e := AttributeError "get_email_threads" in
     let w2 := after_except (ErrorDuringProcessing e) (entered w1) in
     process_emails IMAPHandler_object LMStudioClient_object excel w1 = (Raise e, w2) ∧
     errors (stats w2) = errors (stats w1) + 1 ∧
     main start w = (1, logged ERROR (UnexpectedError e) w2) ∧
     disk (main start w).2 = disk w ∧
     ∃ evs, trace (main start w).2 = (trace w ++ evs)%list ∧ EvSaveData ∉ evs) ∧
  (main start w).1 = 1.
Proof.
  split.
  { split; apply (bool_decide_eq_false_1 _); reflexivity. }
  split; [split; reflexivity|].
  assert (Hreach : ∀ excel w1,
     main_setup start (started w) = (Ok excel, w1) →
     let e := AttributeError "get_email_threads" in
     let w2 := after_except (ErrorDuringProcessing e) (entered w1) in
     process_emails IMAPHandler_object LMStudioClient_object excel w1 = (Raise e, w2) ∧
     errors (stats w2) = errors (stats w1) + 1 ∧
     main start w = (1, logged ERROR (UnexpectedError e) w2) ∧
     disk (main start w).2 = disk w ∧
     ∃ evs, trace (main start w).2 = (trace w ++ evs)%list ∧ EvSaveData ∉ evs).
  { intros excel w1 Hsetup e w2.
    pose proof (process_emails_try_attribute_error LMStudioClient_object excel (entered w1))
      as Htry.
    apply process_emails_reraises in Htry as Hproc.
    split; [exact Hproc|]. split; [done|].
    assert (Hmain : main start w = (1, logged ERROR (UnexpectedError e) w2)).
    { unfold main.
      by rewrite (main_with_process_emails_raises _ _ start w excel w1 e _ Hsetup Hproc). }
    split; [exact Hmain|]. rewrite Hmain.
    destruct (raise_path_quiet _ _ start w excel w1 e w2 ERROR (UnexpectedError e)
                Hsetup Hproc) as (Hdisk & evs & Htrace & Hall).
    split; [exact Hdisk|]. exists evs. split; [exact Htrace|].
    by apply not_save_not_in. }
  split; [exact Hreach|].
  destruct (main_setup start (started w)) as [[excel|e] w1] eqn:Hsetup.
  - destruct (Hreach excel w1 eq_refl) as (_ & _ & -> & _). done.
  - unfold main. by eapply main_with_setup_raises.
Qed.
End Repository.

Section RunSamples.
(* The sample inputs are ASCII text and are run with [lower_A_Z_only]. *)
#[local] Existing Instance lower_A_Z_only.

Lemma main_stops_at_get_email_threads_witness :
  is_Ok (main_setup ex_startup (started ex_initial)).1 = true ∧
  (main ex_startup ex_initial).1 = 1 ∧
  errors (stats (main ex_startup ex_initial).2) = 1 ∧
  disk (main ex_startup ex_initial).2 = disk ex_initial.
Proof.
  destruct (main_stops_at_get_email_threads ex_startup ex_initial)
    as (_ & _ & Hreach & Hexit).
  edestruct Hreach as (_ & Herr & Hmain & Hdisk & _); [vm_compute; reflexivity|].
  split; [vm_compute; reflexivity|]. split; [exact Hexit|]. split; [|exact Hdisk].
  rewrite Hmain. exact Herr.
Defined.

Lemma process_emails_exception_aborts_without_saving_witness :
  let run := main_with ex_imap_mark_fails (ex_lm ex_analysis) ex_startup ex_initial in
  run.1 = 1 ∧ disk run.2 = disk ex_initial ∧
  data run.2 = Some (at_set ex_table 0 "Status" "replied") ∧
  errors (stats run.2) = 1.
Proof.
  cbv zeta.
  edestruct (process_emails_exception_aborts_without_saving (Ext:=unit)
               ex_imap_mark_fails (ex_lm ex_analysis) ex_startup ex_initial)
    as (_ & _ & Hexit & Hdisk & _).
  - vm_compute. reflexivity.
  - vm_compute. reflexivity.
  - split; [exact Hexit|]. split; [exact Hdisk|]. split; vm_compute; reflexivity.
Defined.



(** One message fetched, then one message analysed, recorded and marked
    read: [processed_emails] is two for one processed e-mail. *)
Example processed_emails_counts_fetches_too :
  let fetched := (fetch_sent_emails (ex_handler (Some ex_conn_fetch_no)) ex_world).2 in
  let run := process_message ex_imap (ex_lm ex_analysis) ex_manager ex_thread
               ex_message fetched in
  run.1 = Ok () ∧ processed_emails (stats run.2) = 2 ∧
  length (filter (λ ev, ev = EvMarkAsRead (PStr "<9@example.org>")) (trace run.2)) = 1%nat.
Proof. cbv zeta. split_and!; vm_compute; reflexivity. Qed.
End RunSamples.


(* ===================================================================== *)
(** * Loading, checking and saving the workbook                          *)
(* ===================================================================== *)

Section Workbook.
Context {the_lower : StrLower}.
Context {Ext : Type}.
Variable self : ExcelManager.
Implicit Types w : World Ext.

Lemma missing_columns_nil (file : DataFrame) :
  filter (λ c, c ∉ df_columns file) (map_to_list (columns self)).*2 = [] ↔
  ∀ name col, columns self !! name = Some col → col ∈ df_columns file.
Proof.
  split.
  - intros Hnil name col Hcol.
    destruct (decide (col ∈ df_columns file)) as [|Hnot]; [done|]. exfalso.
    assert (Hin : col ∈ filter (λ c, c ∉ df_columns file) (map_to_list (columns self)).*2).
    { apply list_elem_of_filter. split; [done|].
      apply list_elem_of_fmap. exists (name, col). split; [done|].
      by apply elem_of_map_to_list. }
    rewrite Hnil in Hin. by apply elem_of_nil in Hin.
  - intros Hall.
    destruct (filter _ _) as [|c rest] eqn:Hf; [done|]. exfalso.
    assert (Hin : c ∈ c :: rest) by left. rewrite <- Hf in Hin.
    apply list_elem_of_filter in Hin as [Hnot Hin]. apply Hnot.
    apply list_elem_of_fmap in Hin as ([name col] & -> & Hin).
    apply elem_of_map_to_list in Hin. by eapply Hall.
Qed.

(** [check_structure] only reads and logs. *)
Lemma check_structure_keeps_world w :
  stats (check_structure self w).2 = stats w ∧
  data (check_structure self w).2 = data w ∧
  disk (check_structure self w).2 = disk w.
Proof.
  unfold check_structure.
  destruct (disk w !! file_path self) as [file|]; [|done].
  munfold. cbn. by destruct (filter _ _).
Qed.

(** X3.  [check_structure] returns normally exactly when the file is on
    disk and its header holds every configured column; it raises
    [FileNotFoundError] without the file and [ValueError] for a missing
    column; in no case does it touch the counters, the table in memory
    or the disk. *)
Theorem check_structure_accepts_exactly_complete_headers w :
  ((check_structure self w).1 = Ok () ↔
   ∃ file, disk w !! file_path self = Some file ∧
           ∀ name col, columns self !! name = Some col → col ∈ df_columns file) ∧
  (disk w !! file_path self = None →
   (check_structure self w).1 = Raise (FileNotFoundError (file_path self))) ∧
  (∀ file name col,
     disk w !! file_path self = Some file →
     columns self !! name = Some col → col ∉ df_columns file →
     ∃ what, (check_structure self w).1 = Raise (ValueError what)) ∧
  stats (check_structure self w).2 = stats w ∧
  data (check_structure self w).2 = data w ∧
  disk (check_structure self w).2 = disk w.
Proof.
  unfold check_structure.
  destruct (disk w !! file_path self) as [file|] eqn:Hfile.
  - munfold. cbn.
    destruct (filter _ _) as [|c rest] eqn:Hf; cbn.
    + pose proof (proj1 (missing_columns_nil file) Hf) as Hall. split_and!; try done.
      * split; [intros _; by exists file | done].
      * intros file' name col [= <-] Hcol Hnot. exfalso. by eapply Hnot, Hall.
    + split_and!; try done.
      * split; [done|]. intros (file' & [= <-] & Hall).
        pose proof (proj2 (missing_columns_nil file) Hall) as Hnil. congruence.
      * intros. by eexists.
  - split_and!; try done. split; [done|]. by intros (file & [=] & _).
Qed.

(* --------------------------------------------------------------------- *)
(** ** What [update_data] writes                                         *)

Lemma cell_at_set_ne df index col v j d :
  (j, d) ≠ (index, col) → cell (at_set df index col v) j d = cell df j d.
Proof.
  intros Hne. unfold cell, at_set. cbn.
  destruct (decide (j = index)) as [->|Hj].
  - rewrite list_lookup_alter, decide_True by done.
    destruct (df_rows df !! index) as [r|]; [|done]. cbn.
    rewrite lookup_insert_ne; [done|]. congruence.
  - by rewrite list_lookup_alter_ne.
Qed.

Lemma at_get_cell df j d v : at_get df j d = Ok v → cell df j d = Some v.
Proof.
  unfold at_get, cell, getitem. case_decide; [|done].
  destruct (df_rows df !! j) as [r|]; [|done]. cbn.
  destruct (r !! d); [|done]. by intros [= ->].
Qed.

Lemma cell_at_set_eq df index col old v :
  at_get df index col = Ok old → cell (at_set df index col v) index col = Some v.
Proof.
  intros Hold. eapply at_get_cell, at_get_at_set_eq, Hold.
Qed.

(** One pass of the inner loop either leaves the world as it is or
    overwrites one existing cell and logs it. *)
Lemma update_cell_cases analysis index target w r w' df :
  update_cell self analysis index target w = (r, w') →
  data w = Some df →
  (w' = w ∧
   (r = Ok () → ∀ new col, analysis !! target = Some new →
      columns self !! target = Some col → at_get df index col = Ok new)) ∨
  (∃ col old new,
     analysis !! target = Some new ∧ columns self !! target = Some col ∧
     at_get df index col = Ok old ∧ old ≠ new ∧ r = Ok () ∧
     data w' = Some (at_set df index col new) ∧ stats w' = stats w ∧
     disk w' = disk w).
Proof.
  intros Hrun Hd. unfold update_cell in Hrun.
  destruct (analysis !! target) as [new|] eqn:Han.
  - unfold getitem in Hrun. destruct (columns self !! target) as [col|] eqn:Hcol.
    + unfold bind at 1, lift at 1 in Hrun. unfold bind at 1, data_at in Hrun.
      rewrite Hd in Hrun. destruct (at_get df index col) as [old|e] eqn:Hold.
      * case_decide as Hne.
        -- right. exists col, old, new. unfold bind, data_at_set, log, emit in Hrun.
           rewrite Hd in Hrun. cbn in Hrun. injection Hrun as <- <-. done.
        -- left. injection Hrun as <- <-. split; [done|].
           intros _ new' col' [= <-] [= <-]. rewrite Hold. f_equal.
           by destruct (decide (old = new)) as [->|]; [|exfalso; auto].
      * left. injection Hrun as <- <-. split; [done|]. done.
    + left. unfold bind, lift in Hrun. injection Hrun as <- <-. split; [done|]. done.
  - left. injection Hrun as <- <-. split; [done|]. done.
Qed.

(** The part of the table a call may write: the rows in [rows], in the
    columns some listed target field of the analysis result is mapped
    to.  Header and number of rows stay. *)
Lemma update_rows_frame analysis rows df :
  ∀ w r w',
  for_each rows (λ index,
    for_each (target_columns self) (update_cell self analysis index)) w = (r, w') →
  data w = Some df →
  ∃ df', data w' = Some df' ∧ df_columns df' = df_columns df ∧
         length (df_rows df') = length (df_rows df) ∧
         ∀ j d, (j ∉ rows ∨
                 ∀ t, t ∈ target_columns self → is_Some (analysis !! t) →
                      columns self !! t ≠ Some d) →
                cell df' j d = cell df j d.
Proof.
  set (R := λ w w' : World Ext,
    ∀ df, data w = Some df →
    ∃ df', data w' = Some df' ∧ df_columns df' = df_columns df ∧
           length (df_rows df') = length (df_rows df) ∧
           ∀ j d, (j ∉ rows ∨
                   ∀ t, t ∈ target_columns self → is_Some (analysis !! t) →
                        columns self !! t ≠ Some d) →
                  cell df' j d = cell df j d).
  assert (Hrefl : ∀ w, R w w).
  { intros w df0 Hd. exists df0. done. }
  assert (Htrans : ∀ w1 w2 w3, R w1 w2 → R w2 w3 → R w1 w3).
  { intros w1 w2 w3 H12 H23 df0 Hd.
    destruct (H12 df0 Hd) as (df1 & Hd1 & Hc1 & Hl1 & Hf1).
    destruct (H23 df1 Hd1) as (df2 & Hd2 & Hc2 & Hl2 & Hf2).
    exists df2. split_and!; [done | congruence | congruence |].
    intros j d Hjd. rewrite Hf2, Hf1; done. }
  intros w r w' Hrun Hd. revert df Hd. fold (R w w').
  revert w r w' Hrun. apply (for_each_preserves R); [done | done |].
  intros index w r w' Hindex.
  apply (for_each_preserves R); [done | done |].
  intros target v r0 v' Htarget Hcell df0 Hd.
  destruct (update_cell_cases _ _ _ _ _ _ _ Hcell Hd)
    as [[-> _] | (col & old & new & Han & Hcol & Hold & _ & _ & Hd' & _)].
  - by apply Hrefl.
  - exists (at_set df0 index col new). split_and!; [done | done | |].
    + cbn. by rewrite length_alter.
    + intros j d [Hj | Hd0]; apply cell_at_set_ne; intros [= -> ->].
      * done.
      * by eapply Hd0.
Qed.

(** Up to its loop the [try] block of [update_data] changes nothing;
    the loop runs over the matched rows. *)
Lemma update_data_try_cases email analysis w r w' :
  update_data_try self email analysis w = (r, w') →
  (w' = w ∧ ∃ e, r = Raise e) ∨
  (w' = logged WARNING (NoMatchingRow email) w ∧ r = Ok () ∧
   ∀ df mail key, data w = Some df → columns self !! "mail" = Some mail →
     str_lower email = Ok key → matching_rows df mail key = []) ∨
  (∃ df mail key w1 r1,
     data w = Some df ∧ columns self !! "mail" = Some mail ∧
     mail ∈ df_columns df ∧ str_lower email = Ok key ∧
     matching_rows df mail key ≠ [] ∧
     for_each (matching_rows df mail key) (λ index,
       for_each (target_columns self) (update_cell self analysis index)) w = (r1, w1) ∧
     ((∃ e, r1 = Raise e ∧ r = Raise e ∧ w' = w1) ∨
      (r1 = Ok () ∧ r = Ok () ∧
       add_updated_rows (Z.of_nat (length (matching_rows df mail key))) w1 = (Ok (), w')))).
Proof.
  intros Hrun. unfold update_data_try, getitem, data_getitem in Hrun.
  destruct (columns self !! "mail") as [mail|] eqn:Hm;
    [|left; injection Hrun as <- <-; eauto].
  unfold bind at 1, lift at 1 in Hrun. unfold bind at 1 in Hrun.
  destruct (data w) as [df|] eqn:Hd; [|left; injection Hrun as <- <-; eauto].
  case_decide as Hin; [|left; injection Hrun as <- <-; eauto].
  unfold bind at 1, lift at 1 in Hrun.
  destruct (str_lower email) as [key|] eqn:Hk; [|left; injection Hrun as <- <-; eauto].
  cbv zeta in Hrun.
  destruct (matching_rows df mail key) as [|i rest] eqn:Hmatch.
  - right; left. unfold log, emit in Hrun. injection Hrun as <- <-.
    split; [done|]. split; [done|]. intros df0 mail0 key0 [= <-] [= <-] [= <-]. done.
  - right; right. rewrite <- Hmatch in Hrun.
    unfold bind at 1 in Hrun.
    destruct (for_each _ _ w) as [[[]|e] w1] eqn:Hloop.
    + exists df, mail, key, w1, (Ok ()). rewrite Hmatch in *.
      split_and!; try done. right. unfold add_updated_rows in *.
      injection Hrun as <- <-. done.
    + exists df, mail, key, w1, (Raise e). rewrite Hmatch in *.
      split_and!; try done. left. injection Hrun as <- <-. eauto.
Qed.
End Workbook.

Section UpdateData.
Context {the_lower : StrLower}.
Context {Ext : Type}.
Variable self : ExcelManager.
Implicit Types w : World Ext.

(** X4.  A call of [update_data] that raises has counted exactly one
    error and logged the exception; [updated_rows] and
    [processed_emails] are as before and the disk is untouched. *)
Theorem update_data_failure_is_counted_once email thread analysis w e w' :
  update_data self email thread analysis w = (Raise e, w') →
  errors (stats w') = errors (stats w) + 1 ∧
  updated_rows (stats w') = updated_rows (stats w) ∧
  processed_emails (stats w') = processed_emails (stats w) ∧
  disk w' = disk w ∧
  EvLog ERROR (FailedUpdate email e) ∈ trace w'.
Proof.
  intros Hrun. unfold update_data in Hrun.
  unfold bind at 1, emit at 1 in Hrun. unfold try_except in Hrun.
  set (w0 := {| stats := stats w; data := data w; disk := disk w;
                trace := (trace w ++ [EvUpdateData email])%list; ext := ext w |}) in *.
  destruct (update_data_try self email analysis w0) as [[[]|e1] w1] eqn:Htry; [done|].
  assert (Hkept : stats w1 = stats w0 ∧ disk w1 = disk w0).
  { destruct (update_data_try_cases self _ _ _ _ _ Htry)
      as [[-> _] | [(_ & [=] & _) | (df & mail & key & w2 & r2 & _ & _ & _ & _ & _ & Hloop & Hend)]].
    - done.
    - destruct Hend as [(e2 & -> & _ & ->) | (_ & [=] & _)].
      by apply update_rows_table_only in Hloop as (? & ? & _). }
  destruct Hkept as [Hstats Hdisk].
  munfold. injection Hrun as <- <-. cbn. rewrite Hstats, Hdisk. cbn.
  split_and!; try done. apply elem_of_app. right. left.
Qed.

(** X5.  Whatever its outcome, [update_data] keeps the header and the
    number of rows of the table, every cell of a column that no listed
    target field of the analysis result is mapped to, and every cell of
    a row whose mail cell does not match the email. *)
Theorem update_data_writes_only_matched_target_cells
    email thread analysis w r w' df :
  update_data self email thread analysis w = (r, w') →
  data w = Some df →
  ∃ df', data w' = Some df' ∧
    df_columns df' = df_columns df ∧
    length (df_rows df') = length (df_rows df) ∧
    (∀ j d, (∀ t, t ∈ target_columns self → is_Some (analysis !! t) →
                  columns self !! t ≠ Some d) →
            cell df' j d = cell df j d) ∧
    (∀ mail key j d, columns self !! "mail" = Some mail →
       str_lower email = Ok key → j ∉ matching_rows df mail key →
       cell df' j d = cell df j d).
Proof.
  intros Hrun Hd. unfold update_data in Hrun.
  unfold bind at 1, emit at 1 in Hrun. unfold try_except in Hrun.
  set (w0 := {| stats := stats w; data := data w; disk := disk w;
                trace := (trace w ++ [EvUpdateData email])%list; ext := ext w |}) in *.
  assert (Htry : ∀ r1 w1, update_data_try self email analysis w0 = (r1, w1) →
    ∃ df', data w1 = Some df' ∧ df_columns df' = df_columns df ∧
      length (df_rows df') = length (df_rows df) ∧
      (∀ j d, (∀ t, t ∈ target_columns self → is_Some (analysis !! t) →
                    columns self !! t ≠ Some d) →
              cell df' j d = cell df j d) ∧
      (∀ mail key j d, columns self !! "mail" = Some mail →
         str_lower email = Ok key → j ∉ matching_rows df mail key →
         cell df' j d = cell df j d)).
  { intros r1 w1 Htry.
    destruct (update_data_try_cases self _ _ _ _ _ Htry)
      as [[-> _] | [(-> & _) | (df0 & mail & key & w2 & r2 & Hd0 & Hm & _ & Hk & _ & Hloop & Hend)]].
    - exists df. done.
    - exists df. done.
    - cbn in Hd0. rewrite Hd in Hd0. injection Hd0 as <-.
      destruct (update_rows_frame self _ _ _ _ _ _ Hloop Hd)
        as (df' & Hd' & Hcols & Hlen & Hframe).
      exists df'. split.
      { destruct Hend as [(e2 & _ & _ & ->) | (_ & _ & Hadd)]; [done|].
        unfold add_updated_rows in Hadd. by injection Hadd as <-. }
      split_and!; [done | done | |].
      + intros j d Hfree. apply Hframe. by right.
      + intros mail' key' j d Hm' Hk' Hj. apply Hframe. left. congruence. }
  destruct (update_data_try self email analysis w0) as [[[]|e1] w1] eqn:Hres.
  - injection Hrun as <- <-. by eapply Htry.
  - destruct (Htry _ _ eq_refl) as (df' & Hd' & Hrest).
    munfold. injection Hrun as <- <-. exists df'. done.
Qed.

(** X6.  After a call of [update_data] that returns normally, every
    matched row holds, in the column a listed target field is mapped
    to, the value the analysis result gives for that field, provided
    the listed fields mapped to that column all carry this value. *)
Theorem update_data_stores_analysis_values
    (E : string) thread analysis w w' df mail index target value col :
  update_data self (PStr E) thread analysis w = (Ok (), w') →
  data w = Some df →
  columns self !! "mail" = Some mail →
  index ∈ matching_rows df mail (lower E) →
  target ∈ target_columns self →
  analysis !! target = Some value →
  columns self !! target = Some col →
  (∀ t v, t ∈ target_columns self → columns self !! t = Some col →
          analysis !! t = Some v → v = value) →
  ∃ df', data w' = Some df' ∧ cell df' index col = Some value.
Proof.
  intros Hrun Hd Hm Hindex Htarget Han Hcol Hsame.
  set (P := λ w : World Ext, ∃ df, data w = Some df ∧ cell df index col = Some value).
  set (L := λ w : World Ext, is_Some (data w)).
  (* one pass: keeps [P], keeps the table loaded, and establishes [P]
     when it is the pass for [index] and [target] *)
  assert (Hstep : ∀ j t u r u', t ∈ target_columns self →
    update_cell self analysis j t u = (r, u') → L u →
    L u' ∧ (P u → P u') ∧ (r = Ok () → j = index → t = target → P u')).
  { intros j t u r u' Ht Hcell [df0 Hd0].
    destruct (update_cell_cases self _ _ _ _ _ _ _ Hcell Hd0)
      as [[-> Hread] | (c & old & new & Han' & Hc' & Hold & _ & -> & Hd' & _)].
    - split; [by exists df0|]. split; [done|].
      intros Hr -> ->. exists df0. split; [done|].
      eapply at_get_cell, Hread; done.
    - split; [by eexists|]. split.
      + intros (df1 & Hd1 & Hv). rewrite Hd0 in Hd1. injection Hd1 as <-.
        eexists. split; [exact Hd'|].
        destruct (decide ((index, col) = (j, c))) as [[= <- <-]|Hne].
        * rewrite (Hsame t new Ht Hc' Han'). by eapply cell_at_set_eq.
        * by rewrite cell_at_set_ne.
      + intros _ -> ->. rewrite Han in Han'. injection Han' as <-.
        rewrite Hcol in Hc'. injection Hc' as <-.
        eexists. split; [exact Hd'|]. by eapply cell_at_set_eq. }
  (* the loop over the target fields, for one row *)
  assert (Hinner : ∀ j ts, (∀ t, t ∈ ts → t ∈ target_columns self) →
    ∀ u u', for_each ts (update_cell self analysis j) u = (Ok (), u') → L u →
    L u' ∧ (P u ∨ (j = index ∧ target ∈ ts) → P u')).
  { intros j ts. induction ts as [|t ts IH]; intros Hts u u' Hloop Hu; cbn in Hloop.
    - injection Hloop as <-. split; [done|]. intros [HP | [_ Hin]]; [done|].
      by apply elem_of_nil in Hin.
    - unfold bind in Hloop.
      destruct (update_cell self analysis j t u) as [[[]|e] u1] eqn:Hcell; [|done].
      destruct (Hstep j t u _ u1 (Hts t ltac:(left)) Hcell Hu) as (Hu1 & Hkeep & Hnew).
      destruct (IH (λ t' Ht', Hts t' ltac:(by right)) u1 u' Hloop Hu1) as [Hu' Hrest].
      split; [done|]. intros [HP | [-> Hin]]; apply Hrest.
      + left. by apply Hkeep.
      + apply elem_of_cons in Hin as [<- | Hin]; [left; by apply Hnew | right; done]. }
  (* the loop over the matched rows *)
  assert (Houter : ∀ js u u',
    for_each js (λ j, for_each (target_columns self) (update_cell self analysis j)) u
      = (Ok (), u') → L u →
    L u' ∧ (P u ∨ index ∈ js → P u')).
  { intros js. induction js as [|j js IH]; intros u u' Hloop Hu; cbn in Hloop.
    - injection Hloop as <-. split; [done|]. intros [HP | Hin]; [done|].
      by apply elem_of_nil in Hin.
    - unfold bind in Hloop.
      destruct (for_each (target_columns self) _ u) as [[[]|e] u1] eqn:Hrow; [|done].
      destruct (Hinner j (target_columns self) (λ t Ht, Ht) u u1 Hrow Hu) as [Hu1 Hrow'].
      destruct (IH u1 u' Hloop Hu1) as [Hu' Hrest].
      split; [done|]. intros [HP | Hin]; apply Hrest.
      + left. apply Hrow'. by left.
      + apply elem_of_cons in Hin as [<- | Hin]; [left; apply Hrow'; by right | by right]. }
  unfold update_data in Hrun.
  unfold bind at 1, emit at 1 in Hrun. unfold try_except in Hrun.
  set (w0 := {| stats := stats w; data := data w; disk := disk w;
                trace := (trace w ++ [EvUpdateData (PStr E)])%list; ext := ext w |}) in *.
  destruct (update_data_try self (PStr E) analysis w0) as [[[]|e1] w1] eqn:Htry;
    [|munfold; done].
  injection Hrun as <-.
  destruct (update_data_try_cases self _ _ _ _ _ Htry)
    as [(_ & e & [=]) | [(_ & _ & Hnone) | (df0 & mail0 & key & w2 & r2 & Hd0 & Hm0 & _ & Hk & _ & Hloop & Hend)]].
  - exfalso. rewrite (Hnone df mail (lower E) Hd Hm eq_refl) in Hindex.
    by apply elem_of_nil in Hindex.
  - cbn in Hd0. rewrite Hd in Hd0. injection Hd0 as <-.
    rewrite Hm in Hm0. injection Hm0 as <-. injection Hk as <-.
    destruct Hend as [(e2 & _ & [=] & _) | (-> & _ & Hadd)].
    destruct (Houter _ _ _ Hloop ltac:(by exists df)) as [_ HP].
    destruct HP as (df' & Hd' & Hv); [by right|].
    exists df'. split; [|done].
    unfold add_updated_rows in Hadd. by injection Hadd as <-.
Qed.
End UpdateData.

(* ===================================================================== *)
(** * More on backup rotation                                            *)
(* ===================================================================== *)

Lemma cleanup_from_sublist self clock entries :
  ∀ i, (cleanup_from self clock i entries).1 `sublist_of` entries ∧
       length entries =
         (length (cleanup_from self clock i entries).1 +
          length (cleanup_from self clock i entries).2)%nat.
Proof.
  induction entries as [|e entries IH]; intros i; cbn.
  - split; [constructor | done].
  - destruct (IH (S i)) as [Hsub Hlen].
    destruct (cleanup_from self clock (S i) entries) as [kept logged]. cbn in *.
    destruct (entry_is_file e); [case_bool_decide|]; cbn.
    + split; [by apply sublist_cons | lia].
    + split; [by apply sublist_skip | lia].
    + split; [by apply sublist_skip | lia].
Qed.

(** X7.  [cleanup_old_backups] leaves the entries it keeps in their
    order, writes one log line for every entry it removes, never
    removes an entry that is not a file and, with [keep_days] at least
    zero, never removes a file modified less than a day before it is
    examined. *)
Theorem cleanup_old_backups_removes_only_aged_files self clock backup_dir :
  (cleanup_old_backups self clock backup_dir).1 `sublist_of` backup_dir ∧
  length backup_dir =
    (length (cleanup_old_backups self clock backup_dir).1 +
     length (cleanup_old_backups self clock backup_dir).2)%nat ∧
  (∀ entry, entry ∈ backup_dir → entry_is_file entry = false →
     entry ∈ (cleanup_old_backups self clock backup_dir).1) ∧
  (∀ k entry, backup_dir !! k = Some entry → 0 ≤ backup_keep_days self →
     clock k - entry_mtime entry < microseconds_per_day →
     entry ∈ (cleanup_old_backups self clock backup_dir).1).
Proof.
  unfold cleanup_old_backups.
  destruct (cleanup_from_sublist self clock backup_dir 0%nat) as [Hsub Hlen].
  split; [exact Hsub|]. split; [exact Hlen|]. split.
  - intros entry Hin Hdir. apply list_elem_of_lookup in Hin as [k Hk].
    apply cleanup_from_kept. exists k. split; [done|]. intros [Hfile _]. congruence.
  - intros k entry Hk Hkeep Hfresh. apply cleanup_from_kept. exists k.
    split; [done|]. intros [_ Hold]. cbn in Hold.
    assert (file_age_days (clock k) (entry_mtime entry) ≤ 0); [|lia].
    unfold file_age_days. unfold microseconds_per_day in *.
    destruct (Z_lt_le_dec (clock k - entry_mtime entry) 0) as [Hneg|Hpos].
    + assert ((clock k - entry_mtime entry) `div` (86400 * 1000000) < 0); [|lia].
      apply Z.div_lt_upper_bound; lia.
    + rewrite Z.div_small by lia. done.
Qed.

(** X8.  A longer retention never removes more: what is kept with a
    smaller [keep_days] is kept, in the same order, with a larger
    one. *)
Theorem cleanup_old_backups_monotone self self' clock backup_dir :
  backup_keep_days self ≤ backup_keep_days self' →
  (cleanup_old_backups self clock backup_dir).1 `sublist_of`
  (cleanup_old_backups self' clock backup_dir).1.
Proof.
  intros Hle. unfold cleanup_old_backups. generalize 0%nat.
  induction backup_dir as [|e entries IH]; intros i; cbn.
  - constructor.
  - specialize (IH (S i)).
    destruct (cleanup_from self clock (S i) entries) as [kept logged].
    destruct (cleanup_from self' clock (S i) entries) as [kept' logged'].
    cbn in *. destruct (entry_is_file e); [|by apply sublist_skip].
    repeat case_bool_decide; cbn.
    + done.
    + by apply sublist_cons.
    + lia.
    + by apply sublist_skip.
Qed.

(* ===================================================================== *)
(** * More on message parsing                                            *)
(* ===================================================================== *)

Section Parsing.
Context {Ext : Type}.
Implicit Types w : World Ext.

Lemma first_text_part_none parts :
  (∀ p, p ∈ parts → is_text_part p = false) → first_text_part parts = Ok PNone.
Proof.
  induction parts as [|p parts IH]; intros Hall; cbn; [done|].
  assert (Hp : is_text_part p = false) by (apply Hall; left).
  unfold is_text_part in Hp. apply orb_false_iff in Hp as [-> ->].
  apply IH. intros q Hq. apply Hall. by right.
Qed.

(** X9.  For a multipart message without any non-attachment
    [text/plain] or [text/html] part, [_get_email_body] returns [None]:
    it counts no error and logs nothing. *)
Theorem get_email_body_without_text_part msg w :
  is_multipart msg = true →
  (∀ p, p ∈ walk msg → is_text_part p = false) →
  _get_email_body msg w = (Ok PNone, w).
Proof.
  intros Hmulti Hnone. unfold _get_email_body, try_except, lift.
  by rewrite Hmulti, first_text_part_none.
Qed.

(** X10.  When the first non-attachment text part of a multipart
    message cannot be decoded, [_get_email_body] gives the empty string
    and counts one error; the parts after it are not tried. *)
Theorem get_email_body_undecodable_first_part msg pre part post e w :
  is_multipart msg = true →
  walk msg = (pre ++ part :: post)%list →
  (∀ p, p ∈ pre → is_text_part p = false) →
  is_text_part part = true →
  decoded_payload part = Raise e →
  _get_email_body msg w = (Ok (PStr ""), after_except (FailedBody e) w).
Proof.
  intros Hmulti Hwalk Hpre Hpart Hfail.
  unfold _get_email_body, try_except, lift.
  rewrite Hmulti, Hwalk, first_text_part_app, Hfail by done. done.
Qed.

End Parsing.

(* ===================================================================== *)
(** * More on fetching                                                   *)
(* ===================================================================== *)

Section Fetching.
Context {the_lower : StrLower}.
Context {Ext : Type}.
Variable self : IMAPHandler.
Implicit Types w : World Ext.

(** X12.  A handler as [__init__] leaves it, on which [connect] was not
    called, fetches nothing: both fetch methods return the empty list
    and count one error, the [AttributeError] of [None.select]. *)
Theorem fetch_without_connect config (w0 w1 w : World Ext) sent_email :
  IMAPHandler_init config w0 = (Ok self, w1) →
  fetch_sent_emails self w =
    (Ok [], after_except (ErrorFetchingSent (AttributeError "select")) w) ∧
  fetch_replies self sent_email w =
    (Ok [], after_except (ErrorFetchingReplies (AttributeError "select")) w).
Proof.
  intros Hinit.
  assert (Hnone : connection self = None).
  { unfold IMAPHandler_init, key in Hinit.
    destruct (cfg_imap config); munfold; [|done]. by injection Hinit as <- _. }
  unfold fetch_sent_emails, fetch_sent_emails_try, fetch_replies, fetch_replies_try,
    the_connection.
  rewrite Hnone. done.
Qed.

Lemma fetch_loop_length conn failed email_ids :
  ∀ acc w l w',
  fetch_loop (Ext:=Ext) conn failed email_ids acc w = (Ok l, w') →
  length l = (length acc + length (filter (λ i, fetch_is_ok conn i) email_ids))%nat.
Proof.
  induction email_ids as [|email_id rest IH]; intros acc w l w' H; cbn in H.
  - unfold ret in H. injection H as <- <-. cbn. lia.
  - unfold bind at 1, lift at 1 in H.
    destruct (conn_fetch conn email_id) as [[status fetched]|e] eqn:Hfetch; [|done].
    cbn in H. case_bool_decide as Hstatus.
    + apply IH in H. rewrite filter_cons_False; [done|].
      unfold fetch_is_ok. rewrite Hfetch. by rewrite bool_decide_spec.
    + unfold bind, result_of_option in H.
      destruct fetched as [msg|]; [|done]. cbv beta iota in H.
      destruct (parse_email_returns msg email_id w) as (d & w1 & Hp & _).
      rewrite Hp in H. unfold incr_processed_emails in H. cbv beta iota in H.
      apply IH in H. rewrite filter_cons_True.
      * rewrite length_app in H. cbn in *. lia.
      * unfold fetch_is_ok. rewrite Hfetch. apply bool_decide_pack.
        by destruct (decide (status = "OK")).
Qed.

(** X13.  When the [try] block of [fetch_sent_emails] runs to its end,
    the list it returns has one entry for every id found whose fetch
    was answered [OK], and none when the search itself was not answered
    [OK]; so it is never longer than the list of ids found. *)
Theorem fetch_sent_emails_returns_one_per_ok_fetch conn w l w' :
  connection self = Some conn →
  fetch_sent_emails_try self w = (Ok l, w') →
  ∃ status email_ids,
    conn_search conn ALL = Ok (status, email_ids) ∧
    length l = (if bool_decide (status = "OK")
                then length (filter (λ i, fetch_is_ok conn i) email_ids)
                else 0%nat) ∧
    (length l ≤ length email_ids)%nat.
Proof.
  intros Hc H. unfold fetch_sent_emails_try, the_connection in H. rewrite Hc in H.
  unfold bind at 1, ret at 1 in H. unfold bind at 1, lift at 1 in H.
  destruct (getitem _ "host") as [host|]; [|done].
  unfold bind at 1, lift at 1 in H.
  destruct (conn_select conn _); [|done].
  unfold bind at 1, lift at 1 in H.
  destruct (conn_search conn ALL) as [[status ids]|]; [|done]. cbn in H.
  exists status, ids. split; [done|].
  case_bool_decide as Hstatus.
  - munfold. injection H as <- <-. rewrite bool_decide_false by done. cbn. split; lia.
  - unfold bind at 1 in H.
    destruct (fetch_loop _ _ _ _ w) as [[sent|e] w1] eqn:Hloop; [|done].
    apply fetch_loop_length in Hloop. munfold. injection H as <- <-.
    rewrite bool_decide_true by (by destruct (decide (status = "OK"))).
    cbn in Hloop. split; [done|]. rewrite Hloop. apply length_filter.
Qed.

End Fetching.

(* ===================================================================== *)
(** * Relations every step respects                                      *)
(* ===================================================================== *)

Section RespectsFacts.
Context {Ext : Type}.
Variable R : World Ext → World Ext → Prop.
Hypothesis R_refl : ∀ w, R w w.
Hypothesis R_trans : ∀ w1 w2 w3, R w1 w2 → R w2 w3 → R w1 w3.

Lemma Respects_ret {A} (a : A) : Respects R (ret a).
Proof. intros w r w' [= <- <-]. apply R_refl. Qed.

Lemma Respects_raise {A} e : Respects (A:=A) R (raise e).
Proof. intros w r w' [= <- <-]. apply R_refl. Qed.

Lemma Respects_lift {A} (x : Result A) : Respects R (lift x).
Proof. intros w r w' [= <- <-]. apply R_refl. Qed.

Lemma Respects_key {A} name (o : option A) : Respects R (key name o).
Proof. destruct o; [apply Respects_ret | apply Respects_raise]. Qed.

Lemma Respects_getattr {A} name (o : option A) : Respects R (getattr name o).
Proof. destruct o; [apply Respects_ret | apply Respects_raise]. Qed.

Lemma Respects_bind {A B} (m : M Ext A) (k : A → M Ext B) :
  Respects R m → (∀ a, Respects R (k a)) → Respects R (bind m k).
Proof.
  intros Hm Hk w r w' H. unfold bind in H.
  destruct (m w) as [[a|e] w1] eqn:E.
  - eapply R_trans; [eapply Hm, E | eapply Hk, H].
  - injection H as <- <-. eapply Hm, E.
Qed.

Lemma Respects_try_except {A} (m : M Ext A) h :
  Respects R m → (∀ e, Respects R (h e)) → Respects R (try_except m h).
Proof.
  intros Hm Hh w r w' H. unfold try_except in H.
  destruct (m w) as [[a|e] w1] eqn:E.
  - injection H as <- <-. eapply Hm, E.
  - eapply R_trans; [eapply Hm, E | eapply Hh, H].
Qed.

Lemma Respects_for_each {A} (xs : list A) (body : A → M Ext unit) :
  (∀ x, Respects R (body x)) → Respects R (for_each xs body).
Proof.
  intros Hbody. induction xs as [|x xs IH]; cbn.
  - apply Respects_ret.
  - apply Respects_bind; [apply Hbody | intros _; apply IH].
Qed.
End RespectsFacts.

(** Splits a composite action into its calls; [refl] and [trans] are
    the proofs that the relation is a preorder. *)
Ltac respects_step refl trans :=
  first
    [ assumption
    | match goal with H : ∀ _, Respects _ _ |- _ => apply H end
    | match goal with H : ∀ _ _, Respects _ _ |- _ => apply H end
    | match goal with H : ∀ _ _ _, Respects _ _ |- _ => apply H end
    | match goal with H : ∀ _ _ _ _, Respects _ _ |- _ => apply H end
    | apply (Respects_ret _ refl)
    | apply (Respects_raise _ refl)
    | apply (Respects_lift _ refl)
    | apply (Respects_key _ refl)
    | apply (Respects_getattr _ refl)
    | apply (Respects_bind _ trans); [|intros ?]
    | apply (Respects_try_except _ trans); [|intros ?]
    | apply (Respects_for_each _ refl trans); intros ?
    | match goal with
      | |- Respects _ (match ?x with _ => _ end) => destruct x
      | |- Respects _ (if ?x then _ else _) => destruct x
      end ].

Section Counters.
Context {the_lower : StrLower}.
Context {Ext : Type}.
Implicit Types w : World Ext.

Lemma same_stats_refl w : same_stats w w.
Proof. done. Qed.

Lemma same_stats_trans w1 w2 w3 : same_stats w1 w2 → same_stats w2 w3 → same_stats w1 w3.
Proof. unfold same_stats. congruence. Qed.



(** Everything [main] does before [process_emails] leaves the counters
    alone. *)
Lemma main_setup_same_stats start : Respects (Ext:=Ext) same_stats (main_setup start).
Proof.
  assert (Hemit : ∀ ev, Respects (Ext:=Ext) same_stats (emit ev)).
  { by intros ev w r w' [= <- <-]. }
  assert (Hset : ∀ d, Respects (Ext:=Ext) (A:=unit) same_stats
                        (λ w, (Ok (), set_data d w))).
  { by intros d w r w' [= <- <-]. }
  assert (Hconfig : Respects (Ext:=Ext) same_stats (load_config start)).
  { unfold load_config.
    destruct (config_file start) as [| |config];
      repeat respects_step (@same_stats_refl) (@same_stats_trans).
    intros w r w'. case_match; by intros [= <- <-]. }
  assert (Hcheck : ∀ self, Respects (Ext:=Ext) same_stats (check_structure self)).
  { intros self w r w' H.
    pose proof (check_structure_keeps_world self w) as (Hs & _).
    rewrite H in Hs. done. }
  assert (Hload : ∀ self, Respects (Ext:=Ext) same_stats (load_data self)).
  { intros self. unfold load_data, read_excel, log.
    repeat respects_step (@same_stats_refl) (@same_stats_trans).
    intros w r w'. by destruct (disk w !! file_path self); intros [= <- <-]. }
  unfold main_setup, ExcelManager_init, IMAPHandler_init, LMStudioClient_init.
  repeat respects_step (@same_stats_refl) (@same_stats_trans).
Qed.
End Counters.

(* ===================================================================== *)
(** * Configuration and start-up                                         *)
(* ===================================================================== *)

Section Startup.
Context {the_lower : StrLower}.
Context {Ext : Type}.
Implicit Types w : World Ext.


Lemma missing_sections_nil c :
  missing_sections c = [] ↔
  is_Some (cfg_excel c) ∧ is_Some (cfg_imap c) ∧ is_Some (cfg_lm_studio c) ∧
  is_Some (cfg_logging c) ∧ is_Some (cfg_user c).
Proof.
  unfold missing_sections, absent.
  destruct (cfg_excel c), (cfg_imap c), (cfg_lm_studio c), (cfg_logging c),
    (cfg_user c); cbn; split; try done;
    intros (H1 & H2 & H3 & H4 & H5);
    by (apply is_Some_None in H1 || apply is_Some_None in H2 ||
        apply is_Some_None in H3 || apply is_Some_None in H4 ||
        apply is_Some_None in H5).
Qed.

(** X15.  When the configuration document lacks any of the five
    required groups, [load_config] raises a [ValueError] whose message
    lists the missing groups, exactly those and in the order of
    [required_sections]; nothing is read from the environment or the
    disk and the world is untouched. *)
Theorem load_config_names_missing_sections start config w :
  config_file start = Yaml config →
  missing_sections config ≠ [] →
  load_config start w =
    (Raise (ValueError (String.concat ", " (missing_sections config))), w) ∧
  (∀ name, name ∈ missing_sections config ↔
     (name = "excel" ∧ cfg_excel config = None) ∨
     (name = "imap" ∧ cfg_imap config = None) ∨
     (name = "lm_studio" ∧ cfg_lm_studio config = None) ∨
     (name = "logging" ∧ cfg_logging config = None) ∨
     (name = "user" ∧ cfg_user config = None)) ∧
  missing_sections config `sublist_of` ["excel"; "imap"; "lm_studio"; "logging"; "user"].
Proof.
  intros Hfile Hmissing. split_and!.
  - unfold load_config. rewrite Hfile.
    destruct (cfg_excel config) eqn:H1, (cfg_imap config) eqn:H2,
      (cfg_lm_studio config) eqn:H3, (cfg_logging config) eqn:H4,
      (cfg_user config) eqn:H5; try done.
    exfalso. apply Hmissing. apply missing_sections_nil.
    rewrite H1, H2, H3, H4, H5. by repeat split.
  - intros name. unfold missing_sections, absent.
    destruct (cfg_excel config), (cfg_imap config), (cfg_lm_studio config),
      (cfg_logging config), (cfg_user config); cbn;
      rewrite ?elem_of_cons, ?elem_of_nil; intuition congruence.
  - unfold missing_sections, absent.
    destruct (cfg_excel config), (cfg_imap config), (cfg_lm_studio config),
      (cfg_logging config), (cfg_user config); cbn;
      repeat first [apply sublist_nil | apply sublist_skip | apply sublist_cons].
Qed.

(** How [load_config] ends normally. *)
Lemma load_config_ok_inv start w c w' :
  load_config start w = (Ok c, w') →
  w' = w ∧
  ∃ config excel path,
    config_file start = Yaml config ∧
    cfg_excel config = Some excel ∧
    path = getenv (environ start) "EXCEL_FILE_PATH" (default "" (xs_path excel)) ∧
    path ≠ "" ∧ is_Some (disk w !! path) ∧
    cfg_excel c = Some {| xs_path := Some path; xs_backup := xs_backup excel;
                          xs_columns := xs_columns excel;
                          xs_target_columns := xs_target_columns excel |} ∧
    is_Some (cfg_imap c) ∧ is_Some (cfg_lm_studio c) ∧
    cfg_logging c = cfg_logging config ∧ cfg_user c = cfg_user config.
Proof.
  unfold load_config. destruct (config_file start) as [| |config]; [done | done |].
  destruct (cfg_excel config) as [excel|] eqn:H1; [|done].
  destruct (cfg_imap config) as [imap|]; [|done].
  destruct (cfg_lm_studio config) as [lm|]; [|done].
  destruct (cfg_logging config) eqn:H4; [|done].
  destruct (cfg_user config) eqn:H5; [|done].
  cbv zeta.
  destruct (bool_decide (_ = "")) eqn:Hempty; [done|]. cbn.
  destruct (bool_decide (is_Some _)) eqn:Hthere; [|done]. cbn.
  intros [= <- <-]. split; [done|].
  eexists config, excel, _. split_and!; try done; try (by eexists).
  - by apply bool_decide_eq_false_1 in Hempty.
  - by apply bool_decide_eq_true_1 in Hthere.
Qed.

(** X16.  When [load_config] returns, the workbook path of the
    configuration it returns is the value of [EXCEL_FILE_PATH] if the
    environment has one and the path of the file otherwise; it is not
    empty and a workbook is on disk there; only the three groups with
    overrides differ from the document, and the world is untouched. *)
Theorem load_config_resolves_the_workbook_path start w c w' :
  load_config start w = (Ok c, w') →
  w' = w ∧
  ∃ config excel path,
    config_file start = Yaml config ∧ cfg_excel config = Some excel ∧
    (cfg_excel c ≫= xs_path) = Some path ∧
    path = match environ start !! "EXCEL_FILE_PATH" with
           | Some p => p
           | None => default "" (xs_path excel)
           end ∧
    path ≠ "" ∧ is_Some (disk w !! path) ∧
    (cfg_excel c ≫= xs_columns) = xs_columns excel ∧
    (cfg_excel c ≫= xs_target_columns) = xs_target_columns excel ∧
    cfg_logging c = cfg_logging config ∧ cfg_user c = cfg_user config.
Proof.
  intros H. apply load_config_ok_inv in H
    as (-> & config & excel & path & Hfile & Hexcel & Hpath & Hne & Hdisk & Hc & _ & _ & Hl & Hu).
  split; [done|]. exists config, excel, path. rewrite Hc. cbn.
  split_and!; done.
Qed.

End Startup.

(* ===================================================================== *)
(** * More on the orchestrator and [main]                                *)
(* ===================================================================== *)

Section Runs.
Context {the_lower : StrLower}.
Context {Ext : Type}.
Variable imap_handler : ImapObject Ext.
Variable lm_studio_client : LMObject Ext.
Implicit Types w : World Ext.

(** The world [main] leaves when something before [process_emails]
    raised. *)
Lemma main_with_setup_raises_world start w e w1 :
  main_setup start (started w) = (Raise e, w1) →
  main_with imap_handler lm_studio_client start w =
    (1, if is_FileNotFoundError e then logged CRITICAL (CriticalError e) w1
        else logged ERROR (UnexpectedError e) w1).
Proof.
  intros Hsetup. unfold main_with.
  unfold bind at 1, log at 1, emit at 1. unfold bind at 1.
  unfold set_stats at 1. cbn [stats data disk trace ext].
  change {| stats := ProcessingStats_init; data := data w; disk := disk w;
            trace := (trace w ++ [EvLog INFO LoggingInitialized])%list;
            ext := ext w |} with (started w).
  unfold try_except, main_try. rewrite (bind_raise _ _ _ _ _ Hsetup).
  unfold bind, raise, log, emit. destruct (is_FileNotFoundError e); done.
Qed.



End Runs.

Section RepositoryRuns.
Context {the_lower : StrLower}.
Context {Ext : Type}.
Implicit Types w : World Ext.

Lemma only_logs_refl w : only_logs w w.
Proof. exists []. by rewrite app_nil_r. Qed.

Lemma only_logs_trans w1 w2 w3 : only_logs w1 w2 → only_logs w2 w3 → only_logs w1 w3.
Proof.
  intros (evs1 & Ht1 & Hf1) (evs2 & Ht2 & Hf2).
  exists (evs1 ++ evs2)%list. split.
  - by rewrite Ht2, Ht1, app_assoc.
  - by apply Forall_app.
Qed.

Lemma only_logs_logged lvl line w : only_logs w (logged lvl line w).
Proof. exists [EvLog lvl line]. split; [done|]. by apply Forall_singleton. Qed.

Lemma main_setup_only_logs start : Respects (Ext:=Ext) only_logs (main_setup start).
Proof.
  assert (Hsilent : ∀ A (m : M Ext A),
    (∀ w r w', m w = (r, w') → trace w' = trace w) → Respects only_logs m).
  { intros A m Hm w r w' H. exists []. rewrite app_nil_r. split; [eapply Hm, H | done]. }
  assert (Hlog : ∀ lvl line, Respects (Ext:=Ext) only_logs (log lvl line)).
  { intros lvl line w r w' [= <- <-]. apply only_logs_logged. }
  assert (Hset : ∀ d, Respects (Ext:=Ext) (A:=unit) only_logs
                        (λ w, (Ok (), set_data d w))).
  { intros d. apply Hsilent. by intros w r w' [= <- <-]. }
  assert (Hconfig : Respects (Ext:=Ext) only_logs (load_config start)).
  { apply Hsilent. intros w r w' H.
    unfold load_config in H.
    destruct (config_file start) as [| |config]; try by injection H as <- <-.
    destruct (cfg_excel config), (cfg_imap config), (cfg_lm_studio config),
      (cfg_logging config), (cfg_user config); try by injection H as <- <-.
    cbv zeta in H. case_match; by injection H as <- <-. }
  assert (Hcheck : ∀ self, Respects (Ext:=Ext) only_logs (check_structure self)).
  { intros self w r w'. unfold check_structure.
    destruct (disk w !! file_path self) as [file|].
    - revert w r w'. change (Respects (Ext:=Ext) only_logs
        (log INFO (ExcelFound (file_path self)) ;;ₘ
         match filter (λ c, c ∉ df_columns file) (map_to_list (columns self)).*2 with
         | [] => log INFO StructureValid
         | _ => raise (ValueError "Missing required columns in Excel file")
         end)).
      clear Hsilent. repeat respects_step (@only_logs_refl) (@only_logs_trans).
    - intros [= <- <-]. apply only_logs_refl. }
  assert (Hread : ∀ self, Respects (Ext:=Ext) only_logs (read_excel self)).
  { intros self. apply Hsilent. intros w r w'. unfold read_excel.
    by destruct (disk w !! file_path self); intros [= <- <-]. }
  clear Hsilent.
  unfold main_setup, ExcelManager_init, IMAPHandler_init, LMStudioClient_init,
    load_data.
  repeat respects_step (@only_logs_refl) (@only_logs_trans).
Qed.

(** X18.  As the repository runs it, [main] touches nothing: whatever
    the configuration and the disk, the disk is as before, every event
    of the run is a log line (nothing is analysed, updated, marked read
    or saved), and the counters end at zero, but for one error when the
    run got as far as [process_emails]. *)
Theorem main_only_logs start w :
  disk (main start w).2 = disk w ∧
  only_logs w (main start w).2 ∧
  stats (main start w).2 =
    {| processed_emails := 0; updated_rows := 0;
       errors := if is_Ok (main_setup start (started w)).1 then 1 else 0 |}.
Proof.
  assert (Hstart : only_logs w (started w)).
  { exists [EvLog INFO LoggingInitialized]. split; [done|]. by apply Forall_singleton. }
  destruct (main_setup start (started w)) as [[excel|e] w1] eqn:Hsetup.
  - pose proof (Quiet_main_setup start _ _ _ Hsetup) as [Hdisk _].
    pose proof (main_setup_only_logs start _ _ _ Hsetup) as Hlogs.
    pose proof (main_setup_same_stats start _ _ _ Hsetup) as Hstats.
    pose proof (process_emails_reraises IMAPHandler_object LMStudioClient_object
                  excel w1 _ _
                  (process_emails_try_attribute_error LMStudioClient_object excel
                     (entered w1))) as Hproc.
    unfold main.
    rewrite (main_with_process_emails_raises _ _ start w excel w1 _ _ Hsetup Hproc).
    cbn. split; [done|]. split.
    + eapply only_logs_trans; [exact Hstart|].
      eapply only_logs_trans; [exact Hlogs|].
      exists [EvLog INFO StartingProcessing; EvLog INFO ProcessingAsUser;
              EvLog ERROR (ErrorDuringProcessing (AttributeError "get_email_threads"));
              EvLog ERROR (UnexpectedError (AttributeError "get_email_threads"))].
      split; [cbn; by rewrite <- !app_assoc|]. by repeat constructor.
    + unfold same_stats in Hstats. rewrite Hstats. done.
  - pose proof (Quiet_main_setup start _ _ _ Hsetup) as [Hdisk _].
    pose proof (main_setup_only_logs start _ _ _ Hsetup) as Hlogs.
    pose proof (main_setup_same_stats start _ _ _ Hsetup) as Hstats.
    unfold main. rewrite (main_with_setup_raises_world _ _ start w e w1 Hsetup).
    cbn. unfold same_stats in Hstats.
    destruct (is_FileNotFoundError e); cbn; rewrite Hstats; (split; [done|]);
      (split; [|done]);
      (eapply only_logs_trans; [exact Hstart|]);
      (eapply only_logs_trans; [exact Hlogs|]); apply only_logs_logged.
Qed.
End RepositoryRuns.

Section Aborting.
Context {the_lower : StrLower}.
Context {Ext : Type}.
Variable imap_handler : ImapObject Ext.
Variable lm_studio_client : LMObject Ext.
Implicit Types w : World Ext.

Lemma for_each_stops {A} (pre post : list A) (x : A) (body : A → M Ext unit)
    w w1 e w2 :
  for_each pre body w = (Ok (), w1) →
  body x w1 = (Raise e, w2) →
  for_each (pre ++ x :: post) body w = (Raise e, w2).
Proof.
  revert w. induction pre as [|y pre IH]; intros w Hpre Hx; cbn in *.
  - injection Hpre as <-. by rewrite (bind_raise _ _ _ _ _ Hx).
  - unfold bind in Hpre |- *.
    destruct (body y w) as [[[]|e0] w0]; [|done]. by apply IH.
Qed.

(** The [try] block stops at the first message that raises. *)
Lemma process_emails_try_stops
    excel w get before thread later w1 w1' pre message post w2 e w3 :
  get_email_threads imap_handler = Some get →
  call get w = (Ok (before ++ thread :: later)%list, w1) →
  for_each before (process_thread imap_handler lm_studio_client excel) w1 = (Ok (), w1') →
  th_messages thread = Some (pre ++ message :: post)%list →
  for_each pre (process_message imap_handler lm_studio_client excel thread) w1'
    = (Ok (), w2) →
  process_message imap_handler lm_studio_client excel thread message w2 = (Raise e, w3) →
  process_emails_try imap_handler lm_studio_client excel w = (Raise e, w3).
Proof.
  intros Hget Hcall Hbefore Hmsgs Hpre Hmsg. unfold process_emails_try.
  rewrite Hget. unfold getattr. unfold bind at 1, ret at 1.
  rewrite (bind_ok _ _ _ _ _ Hcall).
  change (for_each (before ++ thread :: later)
            (process_thread imap_handler lm_studio_client excel) w1 = (Raise e, w3)).
  apply (for_each_stops before later thread _ w1 w1' e w3); [done|].
  unfold process_thread. rewrite Hmsgs.
  unfold bind at 1, key at 1, ret at 1.
  by apply (for_each_stops pre post message _ w1' w2 e w3).
Qed.

(** X19.  An exception in the handling of one message, of whichever
    thread, ends [process_emails] there: with the threads before its
    thread and the messages before it in its thread handled, and this
    one raising, the call counts one error, logs and re-raises the
    exception; the world it leaves is the one the raising message left,
    whatever messages and threads come after. *)
Theorem process_emails_stops_at_first_exception
    excel w get before thread later w1 w1' pre message post w2 e w3 :
  get_email_threads imap_handler = Some get →
  call get (entered w) = (Ok (before ++ thread :: later)%list, w1) →
  for_each before (process_thread imap_handler lm_studio_client excel) w1 = (Ok (), w1') →
  th_messages thread = Some (pre ++ message :: post)%list →
  for_each pre (process_message imap_handler lm_studio_client excel thread) w1'
    = (Ok (), w2) →
  process_message imap_handler lm_studio_client excel thread message w2 = (Raise e, w3) →
  process_emails imap_handler lm_studio_client excel w =
    (Raise e, after_except (ErrorDuringProcessing e) w3).
Proof.
  intros Hget Hcall Hbefore Hmsgs Hpre Hmsg.
  apply process_emails_reraises.
  by eapply process_emails_try_stops.
Qed.
End Aborting.

Section AnalysisClient.
Context {the_lower : StrLower}.
Context {Ext : Type}.
Variable imap_handler : ImapObject Ext.
Implicit Types w : World Ext.

(** Messages flagged processed are passed over. *)
Lemma process_flagged_messages (lm : LMObject Ext) excel thread messages w :
  (∀ m, m ∈ messages → flagged_processed m = true) →
  for_each messages (process_message imap_handler lm excel thread) w = (Ok (), w).
Proof.
  induction messages as [|m messages IH]; intros Hall; cbn; [done|].
  unfold bind. unfold process_message at 1.
  assert (Hm : flagged_processed m = true) by (apply Hall; left).
  unfold flagged_processed in Hm. rewrite Hm. cbn.
  apply IH. intros m' Hm'. apply Hall. by right.
Qed.

(** X20.  Class [LMStudioClient] defines [analyze_text] and
    [health_check] but no [analyze_email].  So even with a mailbox
    object that has every method, [process_emails] handed an
    [LMStudioClient] raises [AttributeError] at the first message
    of the first thread that is not flagged processed, before anything
    is analysed, recorded or marked; a mailbox whose messages are all
    flagged processed gets through. *)
Theorem process_emails_needs_analyze_email excel w get threads w1 :
  get_email_threads imap_handler = Some get →
  call get (entered w) = (Ok threads, w1) →
  ("analyze_email" ∉ (LMStudioClient_defines ++ LMStudioClient_attributes)%list) ∧
  (∀ thread later pre message post,
     threads = thread :: later →
     th_messages thread = Some (pre ++ message :: post)%list →
     (∀ m, m ∈ pre → flagged_processed m = true) →
     flagged_processed message = false →
     process_emails imap_handler LMStudioClient_object excel w =
       (Raise (AttributeError "analyze_email"),
        after_except (ErrorDuringProcessing (AttributeError "analyze_email")) w1)) ∧
  ((∀ thread, thread ∈ threads →
      ∃ messages, th_messages thread = Some messages ∧
                  ∀ m, m ∈ messages → flagged_processed m = true) →
   process_emails imap_handler LMStudioClient_object excel w = (Ok (), w1)).
Proof.
  intros Hget Hcall. split; [apply (bool_decide_eq_false_1 _); reflexivity|]. split.
  - intros thread later pre message post -> Hmsgs Hpre Hmsg.
    apply process_emails_reraises.
    eapply (process_emails_try_stops imap_handler LMStudioClient_object excel _ get
              [] thread later w1 w1 pre message post w1);
      [exact Hget | exact Hcall | reflexivity | exact Hmsgs | |].
    + by apply process_flagged_messages.
    + unfold process_message. unfold flagged_processed in Hmsg. by rewrite Hmsg.
  - intros Hall. unfold process_emails.
    unfold bind at 1, log at 1, emit at 1. unfold bind at 1, log at 1, emit at 1.
    unfold try_except, process_emails_try. rewrite Hget.
    unfold getattr. unfold bind at 1, ret at 1.
    unfold entered, logged, emitted in Hcall. cbn in Hcall |- *.
    rewrite (bind_ok _ _ _ _ _ Hcall).
    assert (Hloop : ∀ ts, (∀ t, t ∈ ts → t ∈ threads) →
      for_each ts (λ thread,
        messages ←ₘ key "messages" (th_messages thread);
        for_each messages
          (process_message imap_handler LMStudioClient_object excel thread)) w1
      = (Ok (), w1)).
    { induction ts as [|t ts IH]; intros Hts; cbn; [done|].
      destruct (Hall t) as (messages & Hmsgs & Hflag); [apply Hts; left|].
      unfold bind at 1. rewrite Hmsgs. unfold bind at 1, key, ret.
      rewrite process_flagged_messages by done.
      apply IH. intros t' Ht'. apply Hts. by right. }
    by rewrite Hloop.
Qed.
End AnalysisClient.

(* ===================================================================== *)
(** * The retry wrapper                                                  *)
(* ===================================================================== *)

Section RetryFacts.
Context {A D : Type}.
Variable max_attempts : Z.
Variable exception_to_check : exn → bool.
Variable base_delay backoff_factor : D.
Variable times : D → D → D.
Variable logger : bool.
Variable sleep : D → Result unit.
Variable func : nat → Result A.

Abbreviation loop := (wrapper_loop max_attempts exception_to_check backoff_factor times
                    logger sleep func).
Abbreviation delay_after := (delay_after base_delay backoff_factor times).

Abbreviation retried_from := (retried_from exception_to_check func).
Abbreviation sleeps_from := (sleeps_from base_delay backoff_factor times sleep).

Lemma slept_app (evs1 evs2 : list (RetryEvent D)) :
  slept (evs1 ++ evs2) = (slept evs1 ++ slept evs2)%list.
Proof. unfold slept. by rewrite omap_app. Qed.

Lemma slept_warning :
  ∀ a e d, slept (D:=D) (if logger then [RetryWarning a e d] else []) = [].
Proof. intros. by destruct logger. Qed.

Lemma calls_warning a e (d : D) :
  filter (λ ev, is_retry_call ev) (if logger then [RetryWarning a e d] else []) = [].
Proof. by destruct logger. Qed.

Lemma calls_single (n : nat) :
  length (filter (λ ev, is_retry_call ev) [RetryCall (D:=D) n]) = 1%nat.
Proof. reflexivity. Qed.

(** The loop entered at call [n] = [attempts], when the next [k] calls
    are retried and the sleeps after them return, does [k] sleeps and is
    then where it would be if entered at call [n + k]. *)
Lemma loop_after_retries k :
  ∀ fuel n,
  retried_from n k →
  sleeps_from n k →
  (Z.of_nat n + Z.of_nat k < max_attempts) →
  (k ≤ fuel)%nat →
  ∀ r evs,
  loop (fuel - k)%nat (Z.of_nat (n + k)) (delay_after (n + k)) = Some (r, evs) →
  ∃ evs0,
    loop fuel (Z.of_nat n) (delay_after n) = Some (r, (evs0 ++ evs)%list) ∧
    slept evs0 = (λ i, delay_after (n + i)) <$> seq 0 k ∧
    length (filter (λ ev, is_retry_call ev) evs0) = k.
Proof.
  induction k as [|k IH]; intros fuel n Hretried Hsleeps Hlt Hfuel r evs Hrest.
  - exists []. replace (n + 0)%nat with n in Hrest by lia.
    replace (fuel - 0)%nat with fuel in Hrest by lia. done.
  - destruct fuel as [|fuel]; [lia|].
    destruct (Hretried 0%nat) as (e & He & Hchecked); [lia|].
    replace (n + 0)%nat with n in He by lia.
    assert (Hsleep0 : sleep (delay_after n) = Ok ()).
    { specialize (Hsleeps 0%nat). replace (n + 0)%nat with n in Hsleeps by lia.
      apply Hsleeps. lia. }
    destruct (IH fuel (S n)) with (r := r) (evs := evs) as (evs1 & Hloop & Hslept & Hcalls).
    + intros i Hi. destruct (Hretried (S i)) as (e' & He' & Hc'); [lia|].
      exists e'. split; [|done]. by replace (S n + i)%nat with (n + S i)%nat by lia.
    + intros i Hi. replace (S n + i)%nat with (n + S i)%nat by lia. apply Hsleeps. lia.
    + lia.
    + lia.
    + replace (S n + k)%nat with (n + S k)%nat by lia. exact Hrest.
    + exists (RetryCall n :: (if logger then [RetryWarning (Z.of_nat n + 1) e (delay_after n)]
                              else []) ++ RetrySleep (delay_after n) :: evs1)%list.
      split_and!.
      * cbn [wrapper_loop]. rewrite bool_decide_true by lia.
        rewrite Nat2Z.id, He, Hchecked. cbv zeta.
        rewrite bool_decide_false by lia. rewrite Hsleep0.
        replace (Z.of_nat n + 1) with (Z.of_nat (S n)) by lia.
        change (times (delay_after n) backoff_factor) with (delay_after (S n)).
        rewrite Hloop. do 2 f_equal. cbn [app]. f_equal. by rewrite <- app_assoc.
      * assert (Htail : slept evs1 = (λ i, delay_after (n + i)) <$> seq 1 k).
        { rewrite Hslept, <- fmap_S_seq, <- list_fmap_compose. apply list_fmap_ext.
          intros i x _. unfold compose. by replace (S n + x)%nat with (n + S x)%nat by lia. }
        unfold slept in Htail |- *.
        destruct logger; cbn; rewrite Htail; by replace (n + 0)%nat with n by lia.
      * destruct logger;
          rewrite ?app_nil_l, <- ?app_comm_cons, ?app_nil_l;
          rewrite filter_cons_True by done;
          repeat (rewrite filter_cons_False by (cbn; auto));
          cbn [length]; by rewrite Hcalls.
Qed.

Abbreviation the_wrapper := (wrapper max_attempts exception_to_check base_delay
                           backoff_factor times logger sleep func).

(** X21.  When the first [k] calls raise exceptions that are to be
    retried, the sleeps after them return, the next call returns and
    [k] is below [max_attempts], the wrapper returns what that call
    returned, after [k + 1] calls and [k] sleeps of [base_delay],
    [base_delay * backoff_factor], and so on. *)
Theorem retry_returns_first_success k a :
  retried_from 0 k →
  sleeps_from 0 k →
  func k = Ok a →
  Z.of_nat k < max_attempts →
  ∃ evs, the_wrapper = Some (Ok (Some a), evs) ∧
         slept evs = delay_after <$> seq 0 k ∧
         length (filter (λ ev, is_retry_call ev) evs) = S k.
Proof.
  intros Hretried Hsleeps Hok Hlt. unfold wrapper.
  destruct (loop_after_retries k (Z.to_nat max_attempts) 0%nat)
    with (r := Ok (Some a) : Result (option A)) (evs := [RetryCall (D:=D) k])
    as (evs0 & Hloop & Hslept & Hcalls); [done | done | lia | lia | |].
  - destruct (Z.to_nat max_attempts - k)%nat as [|fuel] eqn:Hfuel; [lia|].
    cbn [wrapper_loop Nat.add]. rewrite bool_decide_true by lia.
    by rewrite Nat2Z.id, Hok.
  - exists (evs0 ++ [RetryCall k])%list. split_and!.
    + exact Hloop.
    + rewrite slept_app, Hslept. cbn. by rewrite app_nil_r.
    + rewrite filter_app, length_app, Hcalls, calls_single. lia.
Qed.

(** X22.  When each of the first [max_attempts] calls raises an
    exception that is to be retried and the sleeps between them return,
    the wrapper makes exactly [max_attempts] calls, sleeps between them
    and not after the last, and raises the exception of the last call;
    with a logger the last line it writes is the error line. *)
Theorem retry_gives_up_after_max_attempts m e :
  max_attempts = Z.of_nat (S m) →
  retried_from 0 (S m) →
  sleeps_from 0 m →
  func m = Raise e →
  ∃ evs, the_wrapper = Some (Raise e, evs) ∧
         slept evs = delay_after <$> seq 0 m ∧
         length (filter (λ ev, is_retry_call ev) evs) = S m ∧
         (logger = true → last evs = Some (RetryError max_attempts)).
Proof.
  intros Hmax Hretried Hsleeps He.
  destruct (Hretried m) as (e' & He' & Hchecked); [lia|].
  cbn in He'. rewrite He in He'. injection He' as <-.
  set (tail := (RetryCall (D:=D) m ::
                (if logger then [RetryWarning (Z.of_nat m + 1) e (delay_after m)] else []) ++
                (if logger then [RetryError max_attempts] else []))%list).
  destruct (loop_after_retries m (Z.to_nat max_attempts) 0%nat)
    with (r := Raise e : Result (option A)) (evs := tail)
    as (evs0 & Hloop & Hslept & Hcalls); [| done | lia | lia | |].
  - intros i Hi. apply Hretried. lia.
  - destruct (Z.to_nat max_attempts - m)%nat as [|fuel] eqn:Hfuel; [lia|].
    cbn [wrapper_loop Nat.add]. rewrite bool_decide_true by lia.
    rewrite Nat2Z.id, He, Hchecked. cbv zeta. by rewrite bool_decide_true by lia.
  - exists (evs0 ++ tail)%list. split_and!.
    + exact Hloop.
    + rewrite slept_app, Hslept. unfold tail, slept. destruct logger; cbn;
        by rewrite app_nil_r.
    + rewrite filter_app, length_app, Hcalls. unfold tail.
      destruct logger; rewrite ?app_nil_l, ?app_nil_r, <- ?app_comm_cons, ?app_nil_l;
        rewrite filter_cons_True by done;
        repeat (rewrite filter_cons_False by (cbn; auto)); cbn; lia.
    + intros ->. unfold tail. cbn.
      change (RetryCall m :: ?x :: ?l) with ([RetryCall (D:=D) m; x] ++ l)%list.
      by rewrite app_assoc, last_snoc.
Qed.

(** X23.  An exception that is not to be retried leaves the wrapper at
    once: after [k] retried calls, each followed by a sleep that
    returns, a call raising such an exception is the last one; it is
    not followed by a warning or a sleep. *)
Theorem retry_lets_other_exceptions_through k e :
  retried_from 0 k →
  sleeps_from 0 k →
  func k = Raise e →
  exception_to_check e = false →
  Z.of_nat k < max_attempts →
  ∃ evs, the_wrapper = Some (Raise e, evs) ∧
         slept evs = delay_after <$> seq 0 k ∧
         length (filter (λ ev, is_retry_call ev) evs) = S k ∧
         last evs = Some (RetryCall k).
Proof.
  intros Hretried Hsleeps He Hother Hlt.
  destruct (loop_after_retries k (Z.to_nat max_attempts) 0%nat)
    with (r := Raise e : Result (option A)) (evs := [RetryCall (D:=D) k])
    as (evs0 & Hloop & Hslept & Hcalls); [done | done | lia | lia | |].
  - destruct (Z.to_nat max_attempts - k)%nat as [|fuel] eqn:Hfuel; [lia|].
    cbn [wrapper_loop Nat.add]. rewrite bool_decide_true by lia.
    by rewrite Nat2Z.id, He, Hother.
  - exists (evs0 ++ [RetryCall k])%list. split_and!.
    + exact Hloop.
    + rewrite slept_app, Hslept. cbn. by rewrite app_nil_r.
    + rewrite filter_app, length_app, Hcalls, calls_single. lia.
    + by rewrite last_snoc.
Qed.

(** X30.  A sleep that raises ends the wrapper: after [k] retried
    calls with sleeps that return, when call [k] raises an exception
    that is to be retried, more attempts are left and the sleep after
    it raises, the wrapper raises the exception of the sleep; call [k]
    is the last call and the delay is not slept. *)
Theorem retry_stops_when_sleep_raises k e e' :
  retried_from 0 (S k) →
  sleeps_from 0 k →
  func k = Raise e →
  Z.of_nat k + 1 < max_attempts →
  sleep (delay_after k) = Raise e' →
  ∃ evs, the_wrapper = Some (Raise e', evs) ∧
         slept evs = delay_after <$> seq 0 k ∧
         length (filter (λ ev, is_retry_call ev) evs) = S k.
Proof.
  intros Hretried Hsleeps He Hlt Hsleep. unfold wrapper.
  destruct (Hretried k) as (e0 & He0 & Hchecked); [lia|].
  cbn in He0. rewrite He in He0. injection He0 as <-.
  set (tail := (RetryCall (D:=D) k ::
                (if logger then [RetryWarning (Z.of_nat k + 1) e (delay_after k)] else []))%list).
  destruct (loop_after_retries k (Z.to_nat max_attempts) 0%nat)
    with (r := Raise e' : Result (option A)) (evs := tail)
    as (evs0 & Hloop & Hslept & Hcalls); [| done | lia | lia | |].
  - intros i Hi. apply Hretried. lia.
  - destruct (Z.to_nat max_attempts - k)%nat as [|fuel] eqn:Hfuel; [lia|].
    cbn [wrapper_loop Nat.add]. rewrite bool_decide_true by lia.
    rewrite Nat2Z.id, He, Hchecked. cbv zeta. rewrite bool_decide_false by lia.
    by rewrite Hsleep.
  - exists (evs0 ++ tail)%list. split_and!.
    + exact Hloop.
    + rewrite slept_app, Hslept. unfold tail, slept. destruct logger; cbn;
        by rewrite app_nil_r.
    + rewrite filter_app, length_app, Hcalls. unfold tail.
      destruct logger; rewrite filter_cons_True by done;
        repeat (rewrite filter_cons_False by (cbn; auto)); cbn; lia.
Qed.

Lemma loop_terminates fuel :
  ∀ attempts delay,
  (Z.to_nat (max_attempts - attempts) ≤ fuel)%nat →
  ∃ r evs, loop fuel attempts delay = Some (r, evs) ∧
    (length (filter (λ ev, is_retry_call ev) evs) ≤ Z.to_nat (max_attempts - attempts))%nat ∧
    (attempts < max_attempts →
     (length (slept evs) < length (filter (λ ev, is_retry_call ev) evs))%nat) ∧
    (max_attempts ≤ attempts → evs = []).
Proof.
  assert (Hone : ∀ n (l : list (RetryEvent D)),
    length (filter (λ ev, is_retry_call ev) (RetryCall n :: l)) =
    S (length (filter (λ ev, is_retry_call ev) l))).
  { intros n l. by rewrite filter_cons_True. }
  assert (Hwarn : ∀ a e d (l : list (RetryEvent D)),
    length (filter (λ ev, is_retry_call ev) (RetryWarning a e d :: l)) =
    length (filter (λ ev, is_retry_call ev) l)).
  { intros a e d l. by rewrite filter_cons_False by (cbn; auto). }
  assert (Herr : ∀ a (l : list (RetryEvent D)),
    length (filter (λ ev, is_retry_call ev) (RetryError a :: l)) =
    length (filter (λ ev, is_retry_call ev) l)).
  { intros a l. by rewrite filter_cons_False by (cbn; auto). }
  assert (Hsleep : ∀ d (l : list (RetryEvent D)),
    length (filter (λ ev, is_retry_call ev) (RetrySleep d :: l)) =
    length (filter (λ ev, is_retry_call ev) l)).
  { intros d l. by rewrite filter_cons_False by (cbn; auto). }
  assert (Hnil : length (filter (λ ev, is_retry_call ev) ([] : list (RetryEvent D))) = 0%nat)
    by done.
  assert (Hs1 : ∀ n (l : list (RetryEvent D)), slept (RetryCall n :: l) = slept l) by done.
  assert (Hs2 : ∀ a e d (l : list (RetryEvent D)),
            slept (RetryWarning a e d :: l) = slept l) by done.
  assert (Hs3 : ∀ d (l : list (RetryEvent D)),
            slept (RetrySleep d :: l) = d :: slept l) by done.
  induction fuel as [|fuel IH]; intros attempts delay Hfuel.
  - cbn. rewrite bool_decide_false by lia. exists (Ok None), [].
    split; [done|]. split; [rewrite Hnil; lia|]. split; [lia | done].
  - cbn [wrapper_loop]. case_bool_decide as Hlt.
    2: { exists (Ok None), []. split; [done|]. split; [rewrite Hnil; lia|]. split; [lia | done]. }
    destruct (func (Z.to_nat attempts)) as [a|e].
    { eexists _, _. split; [done|]. rewrite Hone, Hnil. cbn. split; [lia|]. split; lia. }
    destruct (exception_to_check e).
    2: { eexists _, _. split; [done|]. rewrite Hone, Hnil. cbn. split; [lia|]. split; lia. }
    cbv zeta. case_bool_decide as Hmax.
    { eexists _, _. split; [done|].
      destruct logger; cbn [app]; rewrite Hone, ?Hwarn, ?Herr, Hnil; cbn;
        (split; [lia|]); split; lia. }
    destruct (sleep delay) as [[]|e'].
    2: { eexists _, _. split; [done|].
         destruct logger; cbn [app]; rewrite Hone, ?Hwarn, Hnil; cbn;
           (split; [lia|]); split; lia. }
    destruct (IH (attempts + 1) (times delay backoff_factor))
      as (r & evs & -> & Hcalls & Hsleeps & _); [lia|].
    eexists _, _. split; [done|].
    destruct logger; cbn [app]; rewrite Hone, ?Hwarn, Hsleep, Hs1, ?Hs2, Hs3;
      cbn [length]; (split; [lia|]); (split; [|lia]); intros _;
      assert (length (slept evs) < length (filter (λ ev, is_retry_call ev) evs))%nat
        by (apply Hsleeps; lia); lia.
Qed.

(** X24.  The wrapper always comes to an end: it calls the wrapped
    function at most [max_attempts] times and sleeps fewer times than
    it calls; with [max_attempts] zero or negative it calls nothing and
    returns [None]. *)
Theorem retry_is_bounded :
  (∃ r evs, the_wrapper = Some (r, evs) ∧
     (length (filter (λ ev, is_retry_call ev) evs) ≤ Z.to_nat max_attempts)%nat ∧
     (length (slept evs) ≤ length (filter (λ ev, is_retry_call ev) evs))%nat) ∧
  (max_attempts ≤ 0 → the_wrapper = Some (Ok None, [])).
Proof.
  split.
  - destruct (loop_terminates (Z.to_nat max_attempts) 0 base_delay)
      as (r & evs & Hloop & Hcalls & Hsleeps & Hempty); [lia|].
    exists r, evs. split; [exact Hloop|].
    replace (max_attempts - 0) with max_attempts in Hcalls by lia.
    split; [done|]. destruct (Z_lt_le_dec 0 max_attempts) as [Hpos|Hneg].
    + specialize (Hsleeps Hpos). lia.
    + rewrite (Hempty Hneg). done.
  - intros Hmax. unfold wrapper.
    destruct (Z.to_nat max_attempts); cbn; by rewrite bool_decide_false by lia.
Qed.
End RetryFacts.

(* ===================================================================== *)
(** * The IMAP session: [connect] and [disconnect]                       *)
(* ===================================================================== *)

Section Session.
Variable is_IMAP4_error : exn → bool.
Variable IMAP4_SSL : string → string → Result Server.

(** X25 ([IMAPHandler.connect]): [connect] returns normally exactly
    when the configuration holds the four keys, the server can be
    reached and accepts the login.  The handler then holds the new
    session, and what happened is the opening, the login and one INFO
    line, in this order. *)
Theorem connect_succeeds_exactly_when self :
  ((connect is_IMAP4_error IMAP4_SSL self).1.1 = Ok () ↔
   ∃ host port username password server,
     imap_config self !! "host" = Some host ∧
     imap_config self !! "port" = Some port ∧
     imap_config self !! "username" = Some username ∧
     imap_config self !! "password" = Some password ∧
     IMAP4_SSL host port = Ok server ∧
     server_login server username password = Ok ()) ∧
  (∀ host port username password server,
     imap_config self !! "host" = Some host →
     imap_config self !! "port" = Some port →
     imap_config self !! "username" = Some username →
     imap_config self !! "password" = Some password →
     IMAP4_SSL host port = Ok server →
     server_login server username password = Ok () →
     connect is_IMAP4_error IMAP4_SSL self =
       (Ok (),
        {| imap_config := imap_config self;
           connection := Some (server_connection server) |},
        [SessOpen host port; SessLogin username password;
         SessLog INFO ConnectedLine])).
Proof.
  split.
  - unfold connect, connect_try, getitem.
    destruct (imap_config self !! "host") as [host|] eqn:Hh; simpl;
      [|destruct (is_IMAP4_error _); simpl; (split; [done|intros (?&?&?&?&?&?&_); done])].
    destruct (imap_config self !! "port") as [port|] eqn:Hp; simpl;
      [|destruct (is_IMAP4_error _); simpl; (split;
        [done|intros (?&?&?&?&?&_&?&_); done])].
    destruct (IMAP4_SSL host port) as [server|e] eqn:Hs; simpl;
      [|destruct (is_IMAP4_error _); simpl; (split;
        [done|intros (?&?&?&?&?&[= <-]&[= <-]&_&_&?&_); congruence])].
    destruct (imap_config self !! "username") as [username|] eqn:Hu; simpl;
      [|destruct (is_IMAP4_error _); simpl; (split;
        [done|intros (?&?&?&?&?&_&_&?&_); done])].
    destruct (imap_config self !! "password") as [password|] eqn:Hw; simpl;
      [|destruct (is_IMAP4_error _); simpl; (split;
        [done|intros (?&?&?&?&?&_&_&_&?&_); done])].
    destruct (server_login server username password) as [[]|e] eqn:Hl; simpl.
    + split; [intros _|done]. by exists host, port, username, password, server.
    + destruct (is_IMAP4_error _); simpl; (split; [done|]);
        intros (?&?&?&?&?&[= <-]&[= <-]&[= <-]&[= <-]&?&?); congruence.
  - intros host port username password server Hh Hp Hu Hw Hs Hl.
    unfold connect, connect_try, getitem. rewrite Hh, Hp; simpl.
    rewrite Hs, Hu, Hw; simpl. by rewrite Hl.
Qed.

(** X26 ([IMAPHandler.connect], [IMAPHandler.disconnect]): when the
    server is reached but refuses the login, [connect] raises the
    server's exception, with an ERROR line exactly for an
    [imaplib.IMAP4.error]; the handler keeps the session that was
    opened, so a later [disconnect] still sends [close] to it. *)
Theorem connect_refused_login_keeps_the_session
    self host port username password server e close_answer logout_answer :
  imap_config self !! "host" = Some host →
  imap_config self !! "port" = Some port →
  imap_config self !! "username" = Some username →
  imap_config self !! "password" = Some password →
  IMAP4_SSL host port = Ok server →
  server_login server username password = Raise e →
  let '(r, self', evs) := connect is_IMAP4_error IMAP4_SSL self in
  r = Raise e ∧
  connection self' = Some (server_connection server) ∧
  evs = ([SessOpen host port; SessLogin username password] ++
         if is_IMAP4_error e then [SessLog ERROR (ConnectFailedLine e)] else [])%list ∧
  ∃ evs', (disconnect close_answer logout_answer self').2 = SessClose :: evs'.
Proof.
  intros Hh Hp Hu Hw Hs Hl.
  unfold connect, connect_try, getitem. rewrite Hh, Hp; simpl.
  rewrite Hs, Hu, Hw; simpl. rewrite Hl.
  destruct (is_IMAP4_error e); simpl; split_and!; try done;
    unfold disconnect; simpl;
    destruct close_answer, logout_answer; eauto.
Qed.

(** X27 ([IMAPHandler.disconnect]): [disconnect] never raises and
    writes at most one log line.  [logout] is sent exactly when there is
    a session and [close] succeeded; the line is an INFO line exactly
    when both commands succeeded. *)
Theorem disconnect_never_raises close_answer logout_answer self :
  let '(r, evs) := disconnect close_answer logout_answer self in
  r = Ok () ∧
  (SessLogout ∈ evs ↔ is_Some (connection self) ∧ is_Ok close_answer) ∧
  (SessLog INFO DisconnectedLine ∈ evs ↔
     is_Some (connection self) ∧ is_Ok close_answer ∧ is_Ok logout_answer) ∧
  (∀ e, SessLog ERROR (DisconnectFailedLine e) ∈ evs ↔
     is_Some (connection self) ∧
     (close_answer = Raise e ∨ is_Ok close_answer ∧ logout_answer = Raise e)) ∧
  (connection self = None → evs = []).
Proof.
  unfold disconnect, is_Ok.
  destruct (connection self) as [conn|], close_answer as [[]|e1],
    logout_answer as [[]|e2]; simpl; split_and!; try done; intros;
    rewrite ?elem_of_cons, ?elem_of_nil; unfold is_Some;
    intuition (try congruence; try discriminate; eauto);
    repeat match goal with
           | H : ∃ _, _ |- _ => destruct H
           | H : Is_true false |- _ => destruct H
           end; try congruence; eauto.
Qed.
End Session.

(* ===================================================================== *)
(** * The analysis client: [analyze_text] and [health_check]             *)
(* ===================================================================== *)

Ltac settle_cases :=
  split_and!; intros;
  repeat match goal with
         | |- _ ↔ _ => split; intros
         | H : ∃ _, _ |- _ => destruct H
         | H : _ ∧ _ |- _ => destruct H
         | H : _ ∨ _ |- _ => destruct H
         | H : Is_true false |- _ => destruct H
         | H : ¬ Is_true true |- _ => destruct H; exact I
         end;
  simplify_eq; simpl in *; try done; try congruence; try (exfalso; lia);
  eauto 8.

Section ClientFacts.
Variable self : LMStudioClient.
Variable send : HttpRequest → Result HttpResponse.
Variable is_RequestException : exn → bool.

(** [requests.exceptions.HTTPError] is a [RequestException]. *)
Hypothesis HTTPError_is_RequestException : is_RequestException HTTPError = true.

(** X28 ([LMStudioClient.health_check]): [health_check] returns [True]
    exactly when the request to [/health] was answered with a status
    that is no client or server error, and [False] when the request
    raised a [RequestException] or was answered with such a status.  It
    raises only what the request raised that is no [RequestException].
    One line is logged when it returns. *)
Theorem health_check_answers :
  let '(r, logged) := health_check self send is_RequestException in
  (r = Ok true ↔
     ∃ response, send (request_to self "/health" None) = Ok response ∧
                 ¬ (400 ≤ status_code response < 600)) ∧
  (r = Ok false ↔
     (∃ response, send (request_to self "/health" None) = Ok response ∧
                  400 ≤ status_code response < 600) ∨
     (∃ e, send (request_to self "/health" None) = Raise e ∧
           is_RequestException e = true)) ∧
  (∀ e, r = Raise e ↔
     send (request_to self "/health" None) = Raise e ∧
     is_RequestException e = false) ∧
  (is_Ok r → length logged = 1%nat) ∧
  (¬ is_Ok r → logged = []).
Proof.
  unfold health_check, except_RequestException, raise_for_status.
  destruct (send _) as [response|e] eqn:Hsend.
  - case_bool_decide as Hcode.
    + rewrite HTTPError_is_RequestException; simpl. settle_cases.
    + simpl. settle_cases.
  - destruct (is_RequestException e) eqn:He; simpl; settle_cases.
Qed.

(** X29 ([LMStudioClient.analyze_text]): [analyze_text] returns
    [result] exactly when the request to [/analyze], which carries the
    text, the model, the bearer token and the client's timeout, was
    answered with a status that is no client or server error and a body
    that decodes to [result]; one INFO line is logged then.  Otherwise
    it raises, after one ERROR line exactly when the exception is a
    [RequestException]. *)
Theorem analyze_text_answers text model :
  let request := {| req_url := base_url self ++ "/analyze";
                    req_authorization := "Bearer " ++ api_key self;
                    req_json := Some (text, model);
                    req_timeout := timeout self |} in
  let '(r, logged) := analyze_text self send is_RequestException text model in
  (∀ result, r = Ok result ↔
     ∃ response, send request = Ok response ∧
                 ¬ (400 ≤ status_code response < 600) ∧
                 json response = Ok result) ∧
  (∀ result, r = Ok result → logged = [(INFO, AnalysisSuccessful result)]) ∧
  (∀ e, r = Raise e →
     logged = if is_RequestException e then [(ERROR, AnalysisError e)] else []) ∧
  (∀ response, send request = Ok response → 400 ≤ status_code response < 600 →
     r = Raise HTTPError).
Proof.
  unfold analyze_text, except_RequestException, raise_for_status, request_to.
  simpl.
  destruct (send _) as [response|e] eqn:Hsend.
  - case_bool_decide as Hcode.
    + rewrite HTTPError_is_RequestException; simpl. settle_cases.
      by rewrite HTTPError_is_RequestException.
    + destruct (json response) as [result|e] eqn:Hjson; simpl.
      * settle_cases.
      * destruct (is_RequestException e) eqn:He; simpl; settle_cases;
          by rewrite He.
  - destruct (is_RequestException e) eqn:He; simpl; settle_cases; by rewrite He.
Qed.
End ClientFacts.

(* ===================================================================== *)
(** * The properties above on the sample inputs                          *)
(* ===================================================================== *)

Section FurtherSamples.
(* The sample inputs are ASCII text and are run with [lower_A_Z_only]. *)
#[local] Existing Instance lower_A_Z_only.

Lemma check_structure_accepts_exactly_complete_headers_witness :
  ∃ what, (check_structure ex_manager ex_short_world).1 = Raise (ValueError what).
Proof.
  destruct (check_structure_accepts_exactly_complete_headers (Ext:=unit)
              ex_manager ex_short_world) as (_ & _ & Hmissing & _).
  apply (Hmissing ex_short_table "status" "Status").
  - reflexivity.
  - reflexivity.
  - vm_compute. intros H. by repeat (inversion H as [|? ? ? H']; clear H; rename H' into H).
Defined.

Lemma update_data_failure_is_counted_once_witness :
  let w' := (update_data ex_manager_unmapped (PStr "bob@example.org") ex_thread
               ex_analysis ex_world).2 in
  errors (stats w') = 1 ∧ updated_rows (stats w') = 0 ∧
  processed_emails (stats w') = 0 ∧ disk w' = disk ex_world.
Proof.
  cbv zeta.
  edestruct (update_data_failure_is_counted_once (Ext:=unit) ex_manager_unmapped
               (PStr "bob@example.org") ex_thread ex_analysis ex_world)
    as (He & Hu & Hp & Hd & _).
  - vm_compute. reflexivity.
  - split_and!; [exact He|exact Hu|exact Hp|exact Hd].
Defined.

Lemma update_data_writes_only_matched_target_cells_witness :
  ∃ df', data (update_data ex_manager (PStr "ANN@example.org") ex_thread
                 ex_analysis ex_world).2 = Some df' ∧
    df_columns df' = ["Mail"; "Status"] ∧
    length (df_rows df') = 3%nat ∧
    cell df' 0 "Mail" = Some "Ann@Example.org" ∧
    cell df' 1 "Status" = Some "new".
Proof.
  edestruct (update_data_writes_only_matched_target_cells (Ext:=unit) ex_manager
               (PStr "ANN@example.org") ex_thread ex_analysis ex_world)
    as (df' & Hdata & Hcols & Hrows & Hcolumn & Hrow).
  - apply surjective_pairing.
  - reflexivity.
  - exists df'. split_and!; [exact Hdata|exact Hcols|exact Hrows| |].
    + rewrite Hcolumn; [reflexivity|].
      intros t Ht _. apply list_elem_of_singleton in Ht as ->.
      vm_compute. discriminate.
    + rewrite (Hrow "Mail" "ann@example.org"); [reflexivity..|].
      vm_compute. intros H.
      by repeat (inversion H as [|? ? ? H']; clear H; rename H' into H).
Defined.

Lemma update_data_stores_analysis_values_witness :
  ∃ df', data (update_data ex_manager (PStr "ANN@example.org") ex_thread
                 ex_analysis ex_world).2 = Some df' ∧
         cell df' 0 "Status" = Some "replied".
Proof.
  eapply (update_data_stores_analysis_values (Ext:=unit) ex_manager
            "ANN@example.org" ex_thread ex_analysis ex_world _ ex_table "Mail"
            0 "status" "replied" "Status").
  - apply surjective_pairing.
  - reflexivity.
  - reflexivity.
  - vm_compute. left.
  - left.
  - reflexivity.
  - reflexivity.
  - intros t v Ht _ Hv. apply list_elem_of_singleton in Ht as ->.
    vm_compute in Hv. congruence.
Defined.

Lemma cleanup_old_backups_removes_only_aged_files_witness :
  {| entry_name := "archive"; entry_is_file := false; entry_mtime := 10 * day |}
    ∈ (cleanup_old_backups ex_manager ex_clock ex_backup_dir).1 ∧
  (length (cleanup_old_backups ex_manager ex_clock ex_backup_dir).1 +
   length (cleanup_old_backups ex_manager ex_clock ex_backup_dir).2 = 3)%nat.
Proof.
  destruct (cleanup_old_backups_removes_only_aged_files ex_manager ex_clock
              ex_backup_dir) as (_ & Hcount & Hfolder & _).
  split.
  - apply Hfolder; [|reflexivity]. right. right. left.
  - symmetry. exact Hcount.
Defined.

Lemma cleanup_old_backups_monotone_witness :
  (cleanup_old_backups ex_manager ex_clock ex_backup_dir).1 `sublist_of`
  (cleanup_old_backups
     {| file_path := "contacts.xlsx"; backup_enabled := true;
        backup_keep_days := 30; columns := ∅; target_columns := [] |}
     ex_clock ex_backup_dir).1.
Proof.
  apply cleanup_old_backups_monotone. vm_compute. discriminate.
Defined.

Lemma get_email_body_without_text_part_witness :
  _get_email_body ex_image_only ex_world = (Ok PNone, ex_world).
Proof.
  apply get_email_body_without_text_part; [reflexivity|].
  intros p Hp. vm_compute in Hp.
  repeat (inversion Hp as [|? ? ? Hp']; subst; [reflexivity|]; clear Hp;
          rename Hp' into Hp).
  inversion Hp.
Defined.

Lemma get_email_body_undecodable_first_part_witness :
  _get_email_body ex_undecodable_first ex_world =
    (Ok (PStr ""), after_except (FailedBody (OtherException "UnicodeDecodeError")) ex_world).
Proof.
  apply (get_email_body_undecodable_first_part (Ext:=unit) ex_undecodable_first
           [ex_undecodable_first] ex_undecodable [ex_html]).
  - reflexivity.
  - reflexivity.
  - intros p Hp. apply list_elem_of_singleton in Hp as ->. reflexivity.
  - reflexivity.
  - reflexivity.
Defined.


Lemma fetch_without_connect_witness :
  fetch_sent_emails (ex_handler None) ex_world =
    (Ok [], after_except (ErrorFetchingSent (AttributeError "select")) ex_world) ∧
  fetch_replies (ex_handler None) ex_sent_email ex_world =
    (Ok [], after_except (ErrorFetchingReplies (AttributeError "select")) ex_world).
Proof.
  apply (fetch_without_connect (Ext:=unit) (ex_handler None)
           {| cfg_excel := None;
              cfg_imap := Some (imap_config (ex_handler None));
              cfg_lm_studio := None; cfg_logging := None; cfg_user := None |}
           ex_world ex_world).
  reflexivity.
Defined.

Lemma fetch_sent_emails_returns_one_per_ok_fetch_witness :
  let run := fetch_sent_emails_try (ex_handler (Some ex_conn_fetch_no)) ex_world in
  is_Ok run.1 = true ∧
  length (match run.1 with Ok l => l | Raise _ => [] end) = 1%nat.
Proof.
  cbv zeta. split; [vm_compute; reflexivity|].
  destruct (fetch_sent_emails_returns_one_per_ok_fetch (Ext:=unit)
              (ex_handler (Some ex_conn_fetch_no)) ex_conn_fetch_no ex_world
              (match (fetch_sent_emails_try (ex_handler (Some ex_conn_fetch_no))
                        ex_world).1 with Ok l => l | Raise _ => [] end)
              (fetch_sent_emails_try (ex_handler (Some ex_conn_fetch_no)) ex_world).2)
    as (status & email_ids & Hsearch & Hlen & _).
  - reflexivity.
  - vm_compute. reflexivity.
  - injection Hsearch as <- <-. exact Hlen.
Defined.

Lemma load_config_names_missing_sections_witness :
  load_config ex_startup_incomplete ex_initial =
    (Raise (ValueError "imap, user"), ex_initial).
Proof.
  pose proof (load_config_names_missing_sections (Ext:=unit) ex_startup_incomplete)
    as Hmissing.
  edestruct Hmissing with (w := ex_initial) as (Hrun & _).
  - reflexivity.
  - vm_compute. discriminate.
  - exact Hrun.
Defined.

Lemma load_config_resolves_the_workbook_path_witness :
  ∃ c, load_config ex_startup_env ex_initial_env = (Ok c, ex_initial_env) ∧
       (cfg_excel c ≫= xs_path) = Some "other.xlsx".
Proof.
  destruct (load_config ex_startup_env ex_initial_env) as [[c|e] w'] eqn:Hrun;
    [|vm_compute in Hrun; discriminate].
  destruct (load_config_resolves_the_workbook_path (Ext:=unit) ex_startup_env
              ex_initial_env c w' Hrun)
    as (-> & config & excel & path & _ & _ & Hpath & Hresolved & _).
  exists c. split; [reflexivity|]. rewrite Hpath, Hresolved. reflexivity.
Defined.


Lemma process_emails_stops_at_first_exception_witness :
  process_emails ex_imap_threads_mark_fails (ex_lm ex_analysis) ex_manager ex_world =
    (Raise (OtherException "imaplib.IMAP4.abort"),
     after_except (ErrorDuringProcessing (OtherException "imaplib.IMAP4.abort"))
       (process_message ex_imap_threads_mark_fails (ex_lm ex_analysis) ex_manager
          {| th_messages := Some [ex_flagged; ex_message; ex_message];
             th_context := None |}
          ex_message (entered ex_world)).2).
Proof.
  pose proof (process_emails_stops_at_first_exception (Ext:=unit)
                ex_imap_threads_mark_fails (ex_lm ex_analysis) ex_manager ex_world)
    as Hstops.
  eapply Hstops
    with (before := [{| th_messages := Some [ex_flagged]; th_context := None |}])
         (thread := {| th_messages := Some [ex_flagged; ex_message; ex_message];
                       th_context := None |})
         (later := [{| th_messages := Some [ex_message]; th_context := None |}])
         (pre := [ex_flagged]) (message := ex_message) (post := [ex_message]).
  - reflexivity.
  - reflexivity.
  - reflexivity.
  - reflexivity.
  - reflexivity.
  - apply surjective_pairing.
Defined.

Lemma process_emails_needs_analyze_email_witness :
  process_emails ex_imap_flagged LMStudioClient_object ex_manager ex_world =
    (Raise (AttributeError "analyze_email"),
     after_except (ErrorDuringProcessing (AttributeError "analyze_email"))
       (entered ex_world)).
Proof.
  pose proof (process_emails_needs_analyze_email (Ext:=unit) ex_imap_flagged
                ex_manager ex_world) as Hneeds.
  edestruct Hneeds as (_ & Hraise & _).
  - reflexivity.
  - reflexivity.
  - eapply (Hraise _ [] [ex_flagged] ex_message []).
    + reflexivity.
    + reflexivity.
    + intros m Hm. apply list_elem_of_singleton in Hm as ->. reflexivity.
    + reflexivity.
Defined.

Lemma retry_returns_first_success_witness :
  ∃ evs, wrapper 3 ex_retryable 1 2 Z.mul true ex_sleep (ex_flaky 2)
           = Some (Ok (Some "done"), evs) ∧
         slept evs = [1; 2] ∧
         length (filter (λ ev, is_retry_call ev) evs) = 3%nat.
Proof.
  apply (retry_returns_first_success 3 ex_retryable 1 2 Z.mul true ex_sleep
           (ex_flaky 2) 2 "done").
  - intros i Hi. exists ex_ConnectionError.
    destruct i as [|[|i]]; [split; reflexivity..|lia].
  - intros i Hi. destruct i as [|[|i]]; [reflexivity..|lia].
  - reflexivity.
  - lia.
Defined.

Lemma retry_gives_up_after_max_attempts_witness :
  ∃ evs, wrapper 2 ex_retryable 1 2 Z.mul true ex_sleep (ex_flaky 5)
           = Some (Raise ex_ConnectionError, evs) ∧
         slept evs = [1] ∧
         length (filter (λ ev, is_retry_call ev) evs) = 2%nat ∧
         last evs = Some (RetryError 2).
Proof.
  destruct (retry_gives_up_after_max_attempts 2 ex_retryable 1 2 Z.mul true
              ex_sleep (ex_flaky 5) 1 ex_ConnectionError)
    as (evs & Hrun & Hslept & Hcalls & Hlast).
  - reflexivity.
  - intros i Hi. exists ex_ConnectionError.
    destruct i as [|[|i]]; [split; reflexivity..|lia].
  - intros i Hi. destruct i as [|i]; [reflexivity|lia].
  - reflexivity.
  - exists evs. split_and!; [exact Hrun|exact Hslept|exact Hcalls|exact (Hlast eq_refl)].
Defined.

Lemma retry_lets_other_exceptions_through_witness :
  ∃ evs, wrapper 3 ex_retryable 1 2 Z.mul true ex_sleep ex_flaky_then_invalid
           = Some (Raise (ValueError "bad answer"), evs) ∧
         slept evs = [1] ∧
         length (filter (λ ev, is_retry_call ev) evs) = 2%nat ∧
         last evs = Some (RetryCall 1).
Proof.
  apply (retry_lets_other_exceptions_through 3 ex_retryable 1 2 Z.mul true
           ex_sleep ex_flaky_then_invalid 1 (ValueError "bad answer")).
  - intros i Hi. exists ex_ConnectionError.
    destruct i as [|i]; [split; reflexivity|lia].
  - intros i Hi. destruct i as [|i]; [reflexivity|lia].
  - reflexivity.
  - reflexivity.
  - lia.
Defined.

Lemma retry_is_bounded_witness :
  wrapper 0 ex_retryable 1 2 Z.mul true ex_sleep (ex_flaky 2) = Some (Ok None, []).
Proof.
  apply (retry_is_bounded 0 ex_retryable 1 2 Z.mul true ex_sleep (ex_flaky 2)). lia.
Defined.

Lemma retry_stops_when_sleep_raises_witness :
  ∃ evs, wrapper 3 ex_retryable (-1) 2 Z.mul true ex_sleep (ex_flaky 2)
           = Some (Raise (ValueError "sleep length must be non-negative"), evs) ∧
         slept evs = [] ∧
         length (filter (λ ev, is_retry_call ev) evs) = 1%nat.
Proof.
  apply (retry_stops_when_sleep_raises 3 ex_retryable (-1) 2 Z.mul true ex_sleep
           (ex_flaky 2) 0 ex_ConnectionError).
  - intros i Hi. exists ex_ConnectionError.
    destruct i as [|i]; [split; reflexivity|lia].
  - intros i Hi. lia.
  - reflexivity.
  - lia.
  - reflexivity.
Defined.

Lemma connect_succeeds_exactly_when_witness :
  connect ex_is_IMAP4_error (ex_server true) ex_session_handler =
    (Ok (),
     {| imap_config := imap_config ex_session_handler; connection := Some ex_conn_ok |},
     [SessOpen "imap.example.org" "993"; SessLogin "me" "secret";
      SessLog INFO ConnectedLine]).
Proof.
  exact (proj2 (connect_succeeds_exactly_when ex_is_IMAP4_error (ex_server true)
                  ex_session_handler)
           "imap.example.org" "993" "me" "secret"
           {| server_connection := ex_conn_ok; server_login := λ _ _, Ok () |}
           eq_refl eq_refl eq_refl eq_refl eq_refl eq_refl).
Defined.

Lemma connect_refused_login_keeps_the_session_witness :
  let '(r, self', evs) := connect ex_is_IMAP4_error (ex_server false) ex_session_handler in
  r = Raise ex_IMAP4_error ∧
  connection self' = Some ex_conn_ok ∧
  evs = [SessOpen "imap.example.org" "993"; SessLogin "me" "secret";
         SessLog ERROR (ConnectFailedLine ex_IMAP4_error)] ∧
  ∃ evs', (disconnect (Ok ()) (Ok ()) self').2 = SessClose :: evs'.
Proof.
  exact (connect_refused_login_keeps_the_session ex_is_IMAP4_error (ex_server false)
           ex_session_handler "imap.example.org" "993" "me" "secret"
           {| server_connection := ex_conn_ok;
              server_login := λ _ _, Raise ex_IMAP4_error |}
           ex_IMAP4_error (Ok ()) (Ok ())
           eq_refl eq_refl eq_refl eq_refl eq_refl eq_refl).
Defined.

Lemma health_check_answers_witness :
  (health_check ex_client (ex_send 200) ex_is_RequestException).1 = Ok true ∧
  (health_check ex_client (ex_send 503) ex_is_RequestException).1 = Ok false.
Proof.
  pose proof (health_check_answers ex_client (ex_send 200) ex_is_RequestException
                eq_refl) as Hup.
  pose proof (health_check_answers ex_client (ex_send 503) ex_is_RequestException
                eq_refl) as Hdown.
  destruct (health_check ex_client (ex_send 200) _) as [r logged].
  destruct (health_check ex_client (ex_send 503) _) as [r' logged'].
  destruct Hup as (Hup & _), Hdown as (_ & Hdown & _).
  split.
  - apply Hup. eexists. split; [reflexivity|]. simpl. lia.
  - apply Hdown. left. eexists. split; [reflexivity|]. simpl. lia.
Defined.

Lemma analyze_text_answers_witness :
  (analyze_text ex_client (ex_send 200) ex_is_RequestException
     "Thank you, we accept." "mistral").1 = Ok ex_analysis ∧
  (analyze_text ex_client (ex_send 404) ex_is_RequestException
     "Thank you, we accept." "mistral").1 = Raise HTTPError.
Proof.
  pose proof (analyze_text_answers ex_client (ex_send 200) ex_is_RequestException
                eq_refl "Thank you, we accept." "mistral") as Hup.
  pose proof (analyze_text_answers ex_client (ex_send 404) ex_is_RequestException
                eq_refl "Thank you, we accept." "mistral") as Hdown.
  cbv zeta in Hup, Hdown.
  destruct (analyze_text ex_client (ex_send 200) _ _ _) as [r logged].
  destruct (analyze_text ex_client (ex_send 404) _ _ _) as [r' logged'].
  destruct Hup as (Hup & _), Hdown as (_ & _ & _ & Hdown).
  split.
  - apply Hup. eexists. split; [reflexivity|]. simpl. split; [lia|reflexivity].
  - eapply Hdown; [reflexivity|]. simpl. lia.
Defined.
End FurtherSamples.
